(** * node-mysqldiff-bridge: the push-direction reconciliation, in Rocq

    A shallow embedding of the command-line script of the repository
    (the version that carries [removeSqlStrMetaSync], [runPush] and the
    [--dryRunPush] switch) together with the properties its
    specification states about it.

    - JavaScript strings are sequences of UTF-16 code units: [list N].
    - A JavaScript [Set] of strings iterates in insertion order: it is
      modelled as the list of its members in that order.
    - [runPush] is a chain of promise handlers that talk to two database
      connections, the file system and a subprocess.  It is modelled in a
      state-and-exception monad over the local variables of [runPush]
      and the trace of calls made to the outside world; the answers of the
      outside world come from a [World] record. *)

From Stdlib Require Import String Ascii.
From stdpp Require Import base decidable option numbers list.

Local Open Scope N_scope.
Local Open Scope list_scope.

(** ** JavaScript strings *)

Module Js.

Definition jsstring : Type := list N.

(** A literal of the source, given as an ASCII string. *)
Definition lit (s : string) : jsstring :=
  List.map N_of_ascii (list_ascii_of_string s).
Arguments lit : simpl never.

Definition CHAR_LF : N := 10.
Definition CHAR_CR : N := 13.
Definition CHAR_LS : N := 8232.   (* U+2028 *)
Definition CHAR_PS : N := 8233.   (* U+2029 *)
Definition CHAR_SLASH : N := 47.

(** The code units the pattern character [.] refuses (no [s] flag). *)
Definition isLineTerminator (c : N) : bool :=
  (c =? CHAR_LF) || (c =? CHAR_CR) || (c =? CHAR_LS) || (c =? CHAR_PS).

(** JavaScript truthiness, for the values the argument parser can hand
    over: a boolean default, [null], or the string typed by the user. *)
Inductive jsval : Type :=
  | VBool (b : bool)
  | VNull
  | VStr (s : jsstring).

Definition truthy (v : jsval) : bool :=
  match v with
  | VBool b => b
  | VNull => false
  | VStr s => negb (bool_decide (s = []))
  end.

(** [Array.prototype.indexOf] on an array of strings: the index of the
    first element strictly equal to [x], or [-1]. *)
Fixpoint indexOfFrom (i : Z) (l : list jsstring) (x : jsstring) : Z :=
  match l with
  | [] => (-1)%Z
  | y :: l' => if bool_decide (y = x) then i else indexOfFrom (i + 1)%Z l' x
  end.

Definition indexOf (l : list jsstring) (x : jsstring) : Z := indexOfFrom 0%Z l x.

(** A [Set] of strings, as the list of its members in insertion order. *)
Definition JsSet : Type := list jsstring.

Definition set_empty : JsSet := [].

Definition set_has (s : JsSet) (x : jsstring) : bool := bool_decide (x ∈ s).

Definition set_add (s : JsSet) (x : jsstring) : JsSet :=
  if set_has s x then s else s ++ [x].

(** [[...s]]: the members, in insertion order. *)
Definition set_spread (s : JsSet) : list jsstring := s.

End Js.

Import Js.

(** ** The sanitizer: [removeSqlStrMetaSync]

    [origSqlStr.replace(regex, empty)] for the pattern
    [/\/\*\!.+\*\/;(\r?\n)*/g] and the empty string.  The matcher below
    follows the backtracking semantics of the pattern, piece by piece; each
    function returns the rest of the input after the match. *)

Module Sanitizer.

Definition OPEN : jsstring := Eval vm_compute in lit "/*!".
Definition CLOSE : jsstring := Eval vm_compute in lit "*/;".

(** A literal run of pattern characters. *)
Fixpoint matchLit (p s : jsstring) : option jsstring :=
  match p with
  | [] => Some s
  | c :: p' =>
      match s with
      | d :: s' => if c =? d then matchLit p' s' else None
      | [] => None
      end
  end.

(** [(\r?\n)*], greedy.  Nothing follows it in the pattern, so it is never
    asked to give characters back: it eats line breaks while an iteration
    of [\r?\n] succeeds.  In an iteration [\r?] first tries to take a
    carriage return; if no line feed follows, the empty alternative is
    tried, and it fails too since the next character is the carriage
    return. *)
Fixpoint matchLineBreaks (s : jsstring) : jsstring :=
  match s with
  | c :: r =>
      if c =? CHAR_LF then matchLineBreaks r
      else if c =? CHAR_CR then
        match r with
        | d :: r' => if d =? CHAR_LF then matchLineBreaks r' else s
        | [] => s
        end
      else s
  | [] => []
  end.

(** [\*\/;(\r?\n)*]: what follows [.+] in the pattern. *)
Definition matchTail (s : jsstring) : option jsstring :=
  matchLineBreaks <$> matchLit CLOSE s.

(** [.*] followed by the tail: greedy, so a further character is taken
    first, and the tail is tried here only when that fails. *)
Fixpoint matchDotStar (s : jsstring) : option jsstring :=
  match s with
  | c :: r =>
      if isLineTerminator c then matchTail s
      else
        match matchDotStar r with
        | Some rest => Some rest
        | None => matchTail s
        end
  | [] => matchTail []
  end.

(** [.+] followed by the tail. *)
Definition matchDotPlus (s : jsstring) : option jsstring :=
  match s with
  | c :: r => if isLineTerminator c then None else matchDotStar r
  | [] => None
  end.

(** The whole pattern, anchored at the start of [s]. *)
Definition matchAt (s : jsstring) : option jsstring :=
  r ← matchLit OPEN s; matchDotPlus r.

(** [replace] with the [g] flag and the empty replacement: at each
    position, a match is dropped and the scan goes on after it; otherwise
    the character is kept.  A match is never empty, so the scan always
    advances; [fuel] bounds the number of steps and [length s] is enough. *)
Fixpoint replaceLoop (fuel : nat) (s : jsstring) : jsstring :=
  match fuel with
  | O => s
  | S fuel' =>
      match s with
      | [] => []
      | c :: r =>
          match matchAt s with
          | Some rest => replaceLoop fuel' rest
          | None => c :: replaceLoop fuel' r
          end
      end
  end.

Definition removeSqlStrMetaSync (origSqlStr : jsstring) : jsstring :=
  replaceLoop (length origSqlStr) origSqlStr.

End Sanitizer.

Import Sanitizer.

(** ** The set reconciler *)

Module Reconciler.

(** [mergeTwoListsSync]: every element of the first list is added to a
    fresh [Set], then every element of the second list the set does not
    hold yet; the result is the set spread into an array. *)
Definition mergeTwoListsSync (firstOperandList secondOperandList : list jsstring)
  : list jsstring :=
  let resultSet := foldl (fun rs eleVal => set_add rs eleVal) set_empty firstOperandList in
  let resultSet :=
    foldl (fun rs eleVal => if set_has rs eleVal then rs else set_add rs eleVal)
          resultSet secondOperandList in
  set_spread resultSet.

(** [getExclusiveImageRemoteNameListInFirstOperandSync]: the second list is
    loaded into a [Set]; the elements of the first list the set does not
    hold are pushed, one by one, onto the result. *)
Definition getExclusiveImageRemoteNameListInFirstOperandSync
    (firstOperandList secondOperandList : list jsstring) : list jsstring :=
  let secondSet := foldl (fun ss eleVal => set_add ss eleVal) set_empty secondOperandList in
  foldl (fun resultList eleVal =>
           if set_has secondSet eleVal then resultList else resultList ++ [eleVal])
        [] firstOperandList.

(** The branch [runPush] takes for a name of the merged list, given the two
    exclusive lists: [-1 != list.indexOf(tableName)], twice. *)
Inductive Branch : Type := BranchCreate | BranchDrop | BranchDiff.

#[export] Instance Branch_eq_dec : EqDecision Branch.
Proof. solve_decision. Defined.

Definition branchOf (exclusiveVersionControlled exclusiveLivedb : list jsstring)
    (tableName : jsstring) : Branch :=
  if negb (bool_decide (-1 = indexOf exclusiveVersionControlled tableName)%Z)
  then BranchCreate
  else if negb (bool_decide (-1 = indexOf exclusiveLivedb tableName)%Z)
  then BranchDrop
  else BranchDiff.

(** The names of the specification, for the file-defined list [A] and the
    live list [B], as [runPush] computes them.  [inBoth] has no variable of
    its own in the source: it is the part of the merged list that reaches
    the last branch. *)
Definition merged (A B : list jsstring) : list jsstring :=
  mergeTwoListsSync A B.
Definition onlyInFiles (A B : list jsstring) : list jsstring :=
  getExclusiveImageRemoteNameListInFirstOperandSync A B.
Definition onlyLive (A B : list jsstring) : list jsstring :=
  getExclusiveImageRemoteNameListInFirstOperandSync B A.
Definition inBoth (A B : list jsstring) : list jsstring :=
  filter (fun t => branchOf (onlyInFiles A B) (onlyLive A B) t = BranchDiff)
         (merged A B).

End Reconciler.

Import Reconciler.

(** ** [runPush] *)

Module Push.

(** *** The outside world *)

(** The [err] object a query callback may receive. *)
Record JsError : Type := mkJsError { errMessage : jsstring }.

(** What a query callback receives: an error, or the rows.  Of a row only
    the value under its first key is used by the script ([SHOW TABLES]). *)
Inductive QueryResult : Type :=
  | QErr (err : JsError)
  | QOk (rows : list jsstring).

Inductive Level : Type := LvlDebug | LvlInfo | LvlWarn | LvlError.

(** The messages of the logger calls of [runPush] and [isSqlFileSync]. *)
Inductive LogMsg : Type :=
  | MsgErr (err : JsError)
  | MsgException
  | MsgWriteFailed
  | MsgNotAFile (fileFullPath : jsstring)
  | MsgNoSqlExtension (fileFullPath : jsstring)
  | MsgResultFields
  | MsgAboutToCreateDb
  | MsgAboutToUseDb
  | MsgLists (versionControlled livedb merged exclVersionControlled exclLivedb : list jsstring)
  | MsgAboutToSource (file : jsstring)
  | MsgNotSourced
  | MsgSourced
  | MsgNewTable
  | MsgDropTable
  | MsgAboutToDiff (tableName : jsstring)
  | MsgFinalPushScript (script : jsstring)
  | MsgAboutToDropDb.

(** The calls [runPush] makes, in the order it makes them. *)
Inductive Event : Type :=
  | EvLiveQuery (sql : jsstring)
  | EvTmpQuery (sql : jsstring)
  | EvReaddir (dir : jsstring)
  | EvLstat (path : jsstring)
  | EvReadFile (path : jsstring)
  | EvExec (cmd : jsstring)
  | EvWriteFile (path content : jsstring)
  | EvLog (lvl : Level) (msg : LogMsg)
  | EvExit.

(** The answers of the outside world.  A database answers a statement
    according to everything that happened before it; the files of the
    directory do not change during a run; [None] stands for a thrown
    exception ([lstatSync], [readFileSync]) or an error ([readdir]), and
    [false] for a [writeFileSync] that throws. *)
Record World : Type := mkWorld {
  liveDbQuery : list Event -> jsstring -> QueryResult;
  tmpDbQuery : list Event -> jsstring -> QueryResult;
  fsReaddir : jsstring -> option (list jsstring);
  fsLstatIsFile : jsstring -> option bool;
  fsReadFile : jsstring -> option jsstring;
  fsWriteFile : jsstring -> jsstring -> bool;
  execStdout : jsstring -> jsstring
}.

(** The parsed arguments the push direction reads. *)
Record Config : Type := mkConfig {
  sqlFileDirFullPath : jsstring;
  mysqlServerHost : jsstring;
  mysqlServerPort : jsstring;
  mysqlServerUser : jsstring;
  mysqlServerRawPassword : option jsstring;
  mysqlServerLiveDbname : jsstring;
  retainsTmp : jsval;
  pushScriptExportPath : jsval
}.

(** *** The local variables of [runPush], and the trace *)

Record Vars : Type := mkVars {
  pushScript : jsstring;
  versionControlledTableNameList : list jsstring;
  livedbTableNameList : list jsstring;
  mergedTableNameList : list jsstring;
  exclusiveVersionControlledTableNameList : list jsstring;
  exclusiveLivedbTableNameList : list jsstring;
  trace : list Event
}.

Definition initialVars : Vars := mkVars [] [] [] [] [] [] [].

Definition set_pushScript (v : jsstring) (st : Vars) : Vars :=
  mkVars v (versionControlledTableNameList st) (livedbTableNameList st)
         (mergedTableNameList st) (exclusiveVersionControlledTableNameList st)
         (exclusiveLivedbTableNameList st) (trace st).
Definition set_versionControlledTableNameList (v : list jsstring) (st : Vars) : Vars :=
  mkVars (pushScript st) v (livedbTableNameList st)
         (mergedTableNameList st) (exclusiveVersionControlledTableNameList st)
         (exclusiveLivedbTableNameList st) (trace st).
Definition set_livedbTableNameList (v : list jsstring) (st : Vars) : Vars :=
  mkVars (pushScript st) (versionControlledTableNameList st) v
         (mergedTableNameList st) (exclusiveVersionControlledTableNameList st)
         (exclusiveLivedbTableNameList st) (trace st).
Definition set_mergedTableNameList (v : list jsstring) (st : Vars) : Vars :=
  mkVars (pushScript st) (versionControlledTableNameList st) (livedbTableNameList st)
         v (exclusiveVersionControlledTableNameList st)
         (exclusiveLivedbTableNameList st) (trace st).
Definition set_exclusiveVersionControlledTableNameList (v : list jsstring) (st : Vars) : Vars :=
  mkVars (pushScript st) (versionControlledTableNameList st) (livedbTableNameList st)
         (mergedTableNameList st) v
         (exclusiveLivedbTableNameList st) (trace st).
Definition set_exclusiveLivedbTableNameList (v : list jsstring) (st : Vars) : Vars :=
  mkVars (pushScript st) (versionControlledTableNameList st) (livedbTableNameList st)
         (mergedTableNameList st) (exclusiveVersionControlledTableNameList st)
         v (trace st).
Definition set_trace (v : list Event) (st : Vars) : Vars :=
  mkVars (pushScript st) (versionControlledTableNameList st) (livedbTableNameList st)
         (mergedTableNameList st) (exclusiveVersionControlledTableNameList st)
         (exclusiveLivedbTableNameList st) v.

(** *** The monad: state, and a thrown exception (a rejected promise) *)

Inductive Outcome (A : Type) : Type :=
  | Returned (a : A)
  | Thrown.
Arguments Returned {A} a.
Arguments Thrown {A}.

Definition M (A : Type) : Type := Vars -> Outcome A * Vars.

#[export] Instance M_ret : MRet M := fun A a st => (Returned a, st).
#[export] Instance M_bind : MBind M := fun A B f m st =>
  match m st with
  | (Returned a, st') => f a st'
  | (Thrown, st') => (Thrown, st')
  end.

Definition throw {A : Type} : M A := fun st => (Thrown, st).
Definition getVars : M Vars := fun st => (Returned st, st).
Definition modifyVars (f : Vars -> Vars) : M unit := fun st => (Returned tt, f st).
Definition emit (e : Event) : M unit := modifyVars (fun st => set_trace (trace st ++ [e]) st).

(** [.catch(handler)] and [.finally(handler)] of the promise chain. *)
Definition catch_ {A : Type} (m : M A) (handler : M unit) : M unit := fun st =>
  match m st with
  | (Returned _, st') => (Returned tt, st')
  | (Thrown, st') => handler st'
  end.
Definition finally_ (m : M unit) (handler : M unit) : M unit := fun st =>
  match m st with
  | (Returned _, st') => handler st'
  | (Thrown, st') =>
      match handler st' with
      | (_, st'') => (Thrown, st'')
      end
  end.

(** [list.map(callback)] used for its effects, and [Promise.reduce] with a
    counter: the callbacks run one after the other, in list order. *)
Fixpoint forEach {A : Type} (l : list A) (callback : A -> M unit) : M unit :=
  match l with
  | [] => mret tt
  | x :: l' => callback x ;; forEach l' callback
  end.

Fixpoint promiseReduce {A : Type} (l : list A) (callback : nat -> A -> M nat)
    (total : nat) : M nat :=
  match l with
  | [] => mret total
  | x :: l' => total' ← callback total x; promiseReduce l' callback total'
  end.

(** *** Constants of the script *)

Definition mysqlServerTmpDbname : jsstring := lit "tmp".
Definition dropDbIfExistsStmt : jsstring := lit "DROP DATABASE IF EXISTS " ++ mysqlServerTmpDbname.
Definition createDbStmt : jsstring := lit "CREATE DATABASE " ++ mysqlServerTmpDbname.
Definition useTmpDbStmt : jsstring := lit "USE " ++ mysqlServerTmpDbname.
Definition showTablesStmt : jsstring := lit "SHOW TABLES".
Definition sqlExtension : jsstring := Eval vm_compute in lit ".sql".

(** [sqlFilenameRegexp.test(s)] for [/\.sql$/]: some position of [s] where
    the four characters match and the input ends. *)
Fixpoint sqlFilenameRegexp_test (s : jsstring) : bool :=
  match matchLit sqlExtension s with
  | Some [] => true
  | _ => match s with
         | [] => false
         | _ :: r => sqlFilenameRegexp_test r
         end
  end.

(** [path.basename(file, ext)] of Node's [path] module, for a name without
    [/] ([readdir] yields single path components): the name without the
    suffix [ext], the empty string when the name is [ext] itself. *)
Definition basename (file ext : jsstring) : jsstring :=
  if bool_decide (ext = file) then []
  else if bool_decide (drop (length file - length ext) file = ext)
       then take (length file - length ext) file
       else file.

Section WithWorld.

Variable W : World.
Variable cfg : Config.

(** *** Calls to the outside world *)

Definition log (lvl : Level) (msg : LogMsg) : M unit := emit (EvLog lvl msg).

Definition connectionLiveDb_query (sql : jsstring) : M QueryResult :=
  st ← getVars;
  emit (EvLiveQuery sql) ;;
  mret (liveDbQuery W (trace st) sql).

Definition connectionTmpDb_query (sql : jsstring) : M QueryResult :=
  st ← getVars;
  emit (EvTmpQuery sql) ;;
  mret (tmpDbQuery W (trace st) sql).

Definition fs_readdir (dir : jsstring) : M (option (list jsstring)) :=
  emit (EvReaddir dir) ;; mret (fsReaddir W dir).

Definition fs_lstatSync_isFile (path : jsstring) : M bool :=
  emit (EvLstat path) ;;
  match fsLstatIsFile W path with
  | Some b => mret b
  | None => throw
  end.

Definition fs_readFileSync (path : jsstring) : M jsstring :=
  emit (EvReadFile path) ;;
  match fsReadFile W path with
  | Some content => mret content
  | None => throw
  end.

Definition fs_writeFileSync (path content : jsstring) : M unit :=
  emit (EvWriteFile path content) ;;
  if fsWriteFile W path content then mret tt else throw.

Definition child_process_exec (cmd : jsstring) : M jsstring :=
  emit (EvExec cmd) ;; mret (execStdout W cmd).

Definition process_exit : M unit := emit EvExit.

(** *** [isSqlFileSync] *)

Definition isSqlFileSync (fileFullPath : jsstring) : M bool :=
  isFile ← fs_lstatSync_isFile fileFullPath;
  if negb isFile then
    log LvlInfo (MsgNotAFile fileFullPath) ;; mret false
  else
    let hasSqlExtension := sqlFilenameRegexp_test fileFullPath in
    if negb hasSqlExtension then
      log LvlInfo (MsgNoSqlExtension fileFullPath) ;; mret false
    else mret true.

(** *** The handlers of the promise chain of [runPush], in order *)

(** The first promise: [SHOW TABLES] on the live connection. *)
Definition stageShowTables : M bool :=
  r ← connectionLiveDb_query showTablesStmt;
  match r with
  | QErr err => log LvlError (MsgErr err) ;; mret false
  | QOk results =>
      forEach results (fun tableName =>
        modifyVars (fun st =>
          set_livedbTableNameList (livedbTableNameList st ++ [tableName]) st)) ;;
      mret true
  end.

(** The statement handlers share the shape of their callback. *)
Definition tmpStatement (stmt : jsstring) : M bool :=
  r ← connectionTmpDb_query stmt;
  match r with
  | QErr err => log LvlError (MsgErr err) ;; mret false
  | QOk _ => log LvlDebug MsgResultFields ;; mret true
  end.

(** The second handler does not look at its argument. *)
Definition stageDropDb (trueOrFalse : bool) : M bool :=
  tmpStatement dropDbIfExistsStmt.

Definition stageCreateDb (trueOrFalse : bool) : M bool :=
  if negb trueOrFalse then throw
  else
    log LvlInfo MsgAboutToCreateDb ;;
    tmpStatement createDbStmt.

Definition stageUseDb (trueOrFalse : bool) : M bool :=
  if negb trueOrFalse then throw
  else
    log LvlInfo MsgAboutToUseDb ;;
    tmpStatement useTmpDbStmt.

Definition stageReaddir (trueOrFalse : bool) : M (option (list jsstring)) :=
  if negb trueOrFalse then throw
  else fs_readdir (sqlFileDirFullPath cfg).

(** The callback of [Promise.reduce(files, ...)]. *)
Definition sourceFile (total : nat) (file : jsstring) : M nat :=
  let fileFullPath := sqlFileDirFullPath cfg ++ file in
  isSql ← isSqlFileSync fileFullPath;
  if negb isSql then mret (S total)
  else
    log LvlInfo (MsgAboutToSource file) ;;
    origSqlStr ← fs_readFileSync fileFullPath;
    let sqlStr := removeSqlStrMetaSync origSqlStr in
    r ← connectionTmpDb_query sqlStr;
    match r with
    | QErr err =>
        log LvlError (MsgErr err) ;;
        log LvlWarn MsgNotSourced
    | QOk _ => log LvlInfo MsgSourced
    end ;;
    mret (S total).

(** The handler that receives the directory listing: table names of the
    files, the three reconciled lists, then the files loaded one by one. *)
Definition stageReconcileAndLoad (files : option (list jsstring)) : M nat :=
  match files with
  | None => throw
  | Some files =>
      if bool_decide (length files = 0%nat) then throw
      else
        forEach files (fun file =>
          let fileFullPath := sqlFileDirFullPath cfg ++ file in
          isSql ← isSqlFileSync fileFullPath;
          if negb isSql then mret tt
          else
            let tableName := basename file sqlExtension in
            modifyVars (fun st =>
              set_versionControlledTableNameList
                (versionControlledTableNameList st ++ [tableName]) st)) ;;
        modifyVars (fun st =>
          set_mergedTableNameList
            (mergeTwoListsSync (versionControlledTableNameList st) (livedbTableNameList st)) st) ;;
        modifyVars (fun st =>
          set_exclusiveVersionControlledTableNameList
            (getExclusiveImageRemoteNameListInFirstOperandSync
               (versionControlledTableNameList st) (livedbTableNameList st)) st) ;;
        modifyVars (fun st =>
          set_exclusiveLivedbTableNameList
            (getExclusiveImageRemoteNameListInFirstOperandSync
               (livedbTableNameList st) (versionControlledTableNameList st)) st) ;;
        st ← getVars;
        log LvlInfo (MsgLists (versionControlledTableNameList st) (livedbTableNameList st)
                              (mergedTableNameList st)
                              (exclusiveVersionControlledTableNameList st)
                              (exclusiveLivedbTableNameList st)) ;;
        promiseReduce files sourceFile 0%nat
  end.

(** [pushScript += util.format("%s\n", fragment)]. *)
Definition appendToPushScript (fragment : jsstring) : M unit :=
  modifyVars (fun st => set_pushScript (pushScript st ++ (fragment ++ [CHAR_LF])) st).

Definition mysqldiffCmd (tableName : jsstring) : jsstring :=
  match mysqlServerRawPassword cfg with
  | None =>
      lit "mysqldiff --server1=" ++ mysqlServerUser cfg ++ lit "@" ++ mysqlServerHost cfg
      ++ lit ":" ++ mysqlServerPort cfg ++ lit " --compact --difftype=sql "
      ++ mysqlServerLiveDbname cfg ++ lit "." ++ tableName ++ lit ":"
      ++ mysqlServerTmpDbname ++ lit "." ++ tableName
  | Some rawPassword =>
      lit "mysqldiff --server1=" ++ mysqlServerUser cfg ++ lit ":'" ++ rawPassword
      ++ lit "'@" ++ mysqlServerHost cfg
      ++ lit ":" ++ mysqlServerPort cfg ++ lit " --compact --difftype=sql "
      ++ mysqlServerLiveDbname cfg ++ lit "." ++ tableName ++ lit ":"
      ++ mysqlServerTmpDbname ++ lit "." ++ tableName
  end.

Definition dropTableIfExistsStmt (tableName : jsstring) : jsstring :=
  lit "DROP TABLE IF EXISTS " ++ tableName.

(** The callback of [Promise.reduce(mergedTableNameList, ...)]. *)
Definition assembleTable (total : nat) (tableName : jsstring) : M nat :=
  st ← getVars;
  match branchOf (exclusiveVersionControlledTableNameList st)
                 (exclusiveLivedbTableNameList st) tableName with
  | BranchCreate =>
      log LvlInfo MsgNewTable ;;
      let fileFullPath := sqlFileDirFullPath cfg ++ tableName ++ sqlExtension in
      origSqlStr ← fs_readFileSync fileFullPath;
      let sqlStr := removeSqlStrMetaSync origSqlStr in
      appendToPushScript sqlStr ;;
      mret (S total)
  | BranchDrop =>
      log LvlInfo MsgDropTable ;;
      appendToPushScript (dropTableIfExistsStmt tableName) ;;
      mret (S total)
  | BranchDiff =>
      log LvlInfo (MsgAboutToDiff tableName) ;;
      stdoutResult ← child_process_exec (mysqldiffCmd tableName);
      appendToPushScript stdoutResult ;;
      mret (S total)
  end.

Definition stageAssemble (total : nat) : M nat :=
  st ← getVars;
  promiseReduce (mergedTableNameList st) assembleTable 0%nat.

(** The last handler: export the script, then run it unless told not to. *)
Definition stageApply (dryRunPush : jsval) (total : nat) : M bool :=
  st ← getVars;
  log LvlInfo (MsgFinalPushScript (pushScript st)) ;;
  (if truthy (pushScriptExportPath cfg) then
     match pushScriptExportPath cfg with
     | VStr path =>
         catch_ (fs_writeFileSync path (pushScript st)) (log LvlError MsgWriteFailed)
     | _ => log LvlError MsgWriteFailed   (* not a path: the call throws at once *)
     end
   else mret tt) ;;
  if negb (truthy dryRunPush) then
    r ← connectionLiveDb_query (pushScript st);
    match r with
    | QErr err => log LvlError (MsgErr err) ;; mret false
    | QOk _ => mret true
    end
  else mret true.

Definition catchHandler : M unit := log LvlError MsgException.

Definition finallyHandler : M unit :=
  if truthy (retainsTmp cfg) then process_exit
  else
    log LvlInfo MsgAboutToDropDb ;;
    r ← connectionTmpDb_query dropDbIfExistsStmt;
    match r with
    | QErr err => log LvlError (MsgErr err)
    | QOk _ => log LvlDebug MsgResultFields
    end ;;
    process_exit.

(** The handlers up to the assembled script. *)
Definition stagesToScript : M nat :=
  trueOrFalse ← stageShowTables;
  trueOrFalse ← stageDropDb trueOrFalse;
  trueOrFalse ← stageCreateDb trueOrFalse;
  trueOrFalse ← stageUseDb trueOrFalse;
  files ← stageReaddir trueOrFalse;
  total ← stageReconcileAndLoad files;
  stageAssemble total.

Definition runPush (dryRunPush : jsval) : M unit :=
  finally_ (catch_ (total ← stagesToScript; stageApply dryRunPush total) catchHandler)
           finallyHandler.

(** The trace of a whole run and the variables it ends with. *)
Definition runPushFinal (dryRunPush : jsval) : Vars :=
  snd (runPush dryRunPush initialVars).

End WithWorld.

(** Projections of a trace. *)
Definition liveQueriesOf (tr : list Event) : list jsstring :=
  omap (fun e => match e with EvLiveQuery q => Some q | _ => None end) tr.
Definition tmpQueriesOf (tr : list Event) : list jsstring :=
  omap (fun e => match e with EvTmpQuery q => Some q | _ => None end) tr.

End Push.

Import Push.

(** ** Notions used to state the properties of [runPush] *)

Module PushSpec.

Section WithWorld.

Variable W : World.
Variable cfg : Config.

(** The entry [file] of the directory is a schema file: a regular file
    whose name ends in [.sql]. *)
Definition isSchemaFile (file : jsstring) : bool :=
  match fsLstatIsFile W (sqlFileDirFullPath cfg ++ file) with
  | Some isFile => isFile && sqlFilenameRegexp_test (sqlFileDirFullPath cfg ++ file)
  | None => false
  end.

Definition schemaFiles (files : list jsstring) : list jsstring :=
  filter (fun file => isSchemaFile file = true) files.

(** The statement sent to the scratch database for [file]. *)
Definition sanitizedFile (file : jsstring) : jsstring :=
  removeSqlStrMetaSync (default [] (fsReadFile W (sqlFileDirFullPath cfg ++ file))).

(** Within the events [k] that follow the trace [base], every statement
    the scratch database refuses is followed at once by the error and by
    the warning that the file was not sourced, and every statement it
    accepts by the note that it was sourced. *)
Definition LoadOutcomesLogged (base k : list Event) : Prop :=
  forall pre q post, k = pre ++ EvTmpQuery q :: post ->
    match tmpDbQuery W (base ++ pre) q with
    | QErr err =>
        exists post', post = EvLog LvlError (MsgErr err) :: EvLog LvlWarn MsgNotSourced :: post'
    | QOk _ => exists post', post = EvLog LvlInfo MsgSourced :: post'
    end.

(** The variables hold the three lists reconciled from the two name lists. *)
Definition Reconciled (st : Vars) : Prop :=
  mergedTableNameList st
    = mergeTwoListsSync (versionControlledTableNameList st) (livedbTableNameList st)
  /\ exclusiveVersionControlledTableNameList st
    = getExclusiveImageRemoteNameListInFirstOperandSync
        (versionControlledTableNameList st) (livedbTableNameList st)
  /\ exclusiveLivedbTableNameList st
    = getExclusiveImageRemoteNameListInFirstOperandSync
        (livedbTableNameList st) (versionControlledTableNameList st).

(** [fragment] is the script fragment of [tableName], for the file-defined
    names [files] and the live names [live]. *)
Definition Fragment (files live : list jsstring) (tableName fragment : jsstring) : Prop :=
  (tableName ∈ files /\ (tableName ∉ live)
   /\ exists origSqlStr,
        fsReadFile W (sqlFileDirFullPath cfg ++ tableName ++ sqlExtension) = Some origSqlStr
        /\ fragment = removeSqlStrMetaSync origSqlStr)
  \/ ((tableName ∉ files) /\ tableName ∈ live
      /\ fragment = lit "DROP TABLE IF EXISTS " ++ tableName)
  \/ (tableName ∈ files /\ tableName ∈ live
      /\ fragment = execStdout W (mysqldiffCmd cfg tableName)).

End WithWorld.

(** [st] with the events [k] appended to its trace. *)
Definition addTrace (k : list Event) (st : Vars) : Vars :=
  set_trace (trace st ++ k) st.

(** A computation that sends nothing to the live connection. *)
Definition Quiet {A : Type} (m : M A) : Prop :=
  forall st, exists k, trace (snd (m st)) = trace st ++ k /\ liveQueriesOf k = [].

(** A computation that only adds to the trace. *)
Definition Extends {A : Type} (m : M A) : Prop :=
  forall st, exists k, trace (snd (m st)) = trace st ++ k.

End PushSpec.

Import PushSpec.

(** ** Scenarios *)

Module Scenarios.

Definition repoDir : jsstring := lit "/repo/".

Definition config : Config :=
  {| sqlFileDirFullPath := repoDir;
     mysqlServerHost := lit "localhost";
     mysqlServerPort := lit "3306";
     mysqlServerUser := lit "root";
     mysqlServerRawPassword := None;
     mysqlServerLiveDbname := lit "shop";
     retainsTmp := VBool true;
     pushScriptExportPath := VStr (lit "/repo/push_script.sql") |}.

Definition okQuery : list Event -> jsstring -> QueryResult := fun _ _ => QOk [].

(** Files [a.sql] and [b.sql], live tables [b] and [c]; the structural
    diff of [b] is empty. *)
Definition worldAB : World :=
  {| liveDbQuery := fun _ sql =>
       if bool_decide (sql = showTablesStmt) then QOk [lit "b"; lit "c"] else QOk [];
     tmpDbQuery := okQuery;
     fsReaddir := fun _ => Some [lit "a.sql"; lit "b.sql"];
     fsLstatIsFile := fun _ => Some true;
     fsReadFile := fun path =>
       if bool_decide (path = repoDir ++ lit "a.sql")
       then Some (lit "/*!40101 SET NAMES utf8 */;" ++ [CHAR_LF] ++ lit "CREATE TABLE a (id INT);")
       else Some (lit "CREATE TABLE b (id INT);");
     fsWriteFile := fun _ _ => true;
     execStdout := fun cmd =>
       if bool_decide
            (cmd = lit "mysqldiff --server1=root@localhost:3306 --compact --difftype=sql shop.b:tmp.b")
       then lit "ALTER TABLE b ADD COLUMN n INT;"
       else [] |}.

(** The variables after the files of [worldAB] were listed and reconciled. *)
Definition varsAB : Vars :=
  {| pushScript := [];
     versionControlledTableNameList := [lit "a"; lit "b"];
     livedbTableNameList := [lit "b"; lit "c"];
     mergedTableNameList := [lit "a"; lit "b"; lit "c"];
     exclusiveVersionControlledTableNameList := [lit "a"];
     exclusiveLivedbTableNameList := [lit "c"];
     trace := [] |}.

(** The live connection refuses every statement; everything else works. *)
Definition connectionRefused : JsError := mkJsError (lit "connect ECONNREFUSED").

Definition worldLiveDown : World :=
  {| liveDbQuery := fun _ _ => QErr connectionRefused;
     tmpDbQuery := okQuery;
     fsReaddir := fun _ => Some [lit "a.sql"];
     fsLstatIsFile := fun _ => Some true;
     fsReadFile := fun _ => Some (lit "CREATE TABLE a (id INT);");
     fsWriteFile := fun _ _ => true;
     execStdout := fun _ => [] |}.

(** The directory holds a single entry, which is not a schema file; the
    live database holds two tables. *)
Definition worldNoSchemaFiles : World :=
  {| liveDbQuery := fun _ sql =>
       if bool_decide (sql = showTablesStmt) then QOk [lit "users"; lit "orders"] else QOk [];
     tmpDbQuery := okQuery;
     fsReaddir := fun _ => Some [lit "README.md"];
     fsLstatIsFile := fun _ => Some true;
     fsReadFile := fun _ => None;
     fsWriteFile := fun _ _ => true;
     execStdout := fun _ => [] |}.

(** Three schema files; the scratch database refuses the second one. *)
Definition syntaxError : JsError := mkJsError (lit "ER_PARSE_ERROR").

Definition worldBadFile : World :=
  {| liveDbQuery := okQuery;
     tmpDbQuery := fun _ sql =>
       if bool_decide (sql = lit "CREATE TABLE b (id INT") then QErr syntaxError else QOk [];
     fsReaddir := fun _ => Some [lit "a.sql"; lit "b.sql"; lit "c.sql"];
     fsLstatIsFile := fun _ => Some true;
     fsReadFile := fun path =>
       if bool_decide (path = repoDir ++ lit "a.sql") then Some (lit "CREATE TABLE a (id INT);")
       else if bool_decide (path = repoDir ++ lit "b.sql") then Some (lit "CREATE TABLE b (id INT")
       else Some (lit "CREATE TABLE c (id INT);");
     fsWriteFile := fun _ _ => true;
     execStdout := fun _ => [] |}.

End Scenarios.

(** ** Comment directives, as the pattern reads them

    What the pattern of [removeSqlStrMetaSync] (line 152) matches: the
    opener [/*!], a body that is not empty and holds no line terminator
    (the dot of the pattern matches neither), the closer [*/;], and any
    number of line breaks (each a line feed, alone or after a carriage
    return).  The body may itself hold closers: the pattern is greedy.
    The wording of the specification is [DirectiveSpec], further down. *)

Module Directives.

Definition noLineTerminator (s : jsstring) : Prop :=
  Forall (fun c => isLineTerminator c = false) s.

Inductive LineBreaks : jsstring -> Prop :=
  | LineBreaks_nil : LineBreaks []
  | LineBreaks_lf s : LineBreaks s -> LineBreaks (CHAR_LF :: s)
  | LineBreaks_crlf s : LineBreaks s -> LineBreaks (CHAR_CR :: CHAR_LF :: s).

Definition Directive (d : jsstring) : Prop :=
  exists body nl,
    d = OPEN ++ body ++ CLOSE ++ nl
    /\ body <> [] /\ noLineTerminator body /\ LineBreaks nl.

(** The same block followed by any run of carriage returns and line
    feeds, paired or not. *)
Definition isNewline (c : N) : Prop := c = CHAR_LF \/ c = CHAR_CR.

Definition LooseDirective (d : jsstring) : Prop :=
  exists body nls,
    d = OPEN ++ body ++ CLOSE ++ nls
    /\ body <> [] /\ noLineTerminator body /\ Forall isNewline nls.

(** [s] holds a directive somewhere. *)
Definition ContainsDirective (s : jsstring) : Prop :=
  exists pre d post, s = pre ++ d ++ post /\ Directive d.

End Directives.

Import Directives.

(** ** The directory argument *)

Module Cli.

(** [/\/$/.test(s)]: some position of [s] where a slash stands and the
    input ends. *)
Fixpoint trailingSlashRegexp_test (s : jsstring) : bool :=
  match matchLit [CHAR_SLASH] s with
  | Some [] => true
  | _ => match s with
         | [] => false
         | _ :: r => trailingSlashRegexp_test r
         end
  end.

(** [sqlFileDirFullPath], from the [--tab] argument: the argument itself
    when it ends with a slash, [util.format("%s/", args.tab)] otherwise. *)
Definition sqlFileDirFullPath_of (tab : jsstring) : jsstring :=
  if trailingSlashRegexp_test tab then tab else tab ++ [CHAR_SLASH].

End Cli.

Import Cli.

(** ** [runPull] *)

Module Pull.

(** The messages of the logger calls of [runPull]. *)
Inductive PullLogMsg : Type :=
  | PMsgJustDeleted (total : nat)
  | PMsgExecuted (cmd : jsstring)
  | PMsgException.

(** The calls [runPull] makes.  The calls it shares with [runPush]
    ([readdir], and what [isSqlFileSync] does) are events of [runPush]. *)
Inductive PullEvent : Type :=
  | PvMkdirp (dir : jsstring)
  | PvShared (e : Event)
  | PvUnlink (path : jsstring)
  | PvExecSync (cmd : jsstring)
  | PvLog (lvl : Level) (msg : PullLogMsg)
  | PvExit.

(** The answers of the outside world to [runPull]: the file system as
    [runPush] sees it, and whether [mkdirp] reports no error, whether
    [unlinkSync] and [execSync] return rather than throw. *)
Record PullWorld : Type := mkPullWorld {
  pullFs : World;
  mkdirpOk : jsstring -> bool;
  unlinkOk : list PullEvent -> jsstring -> bool;
  execSyncOk : list PullEvent -> jsstring -> bool
}.

(** The monad of [runPull]: its only state is the trace. *)
Definition P (A : Type) : Type := list PullEvent -> Outcome A * list PullEvent.

#[export] Instance P_ret : MRet P := fun A a tr => (Returned a, tr).
#[export] Instance P_bind : MBind P := fun A B f m tr =>
  match m tr with
  | (Returned a, tr') => f a tr'
  | (Thrown, tr') => (Thrown, tr')
  end.

Definition pthrow {A : Type} : P A := fun tr => (Thrown, tr).
Definition pemit (e : PullEvent) : P unit := fun tr => (Returned tt, tr ++ [e]).

Definition pcatch {A : Type} (m : P A) (handler : P unit) : P unit := fun tr =>
  match m tr with
  | (Returned _, tr') => (Returned tt, tr')
  | (Thrown, tr') => handler tr'
  end.
Definition pfinally (m : P unit) (handler : P unit) : P unit := fun tr =>
  match m tr with
  | (Returned _, tr') => handler tr'
  | (Thrown, tr') =>
      match handler tr' with
      | (_, tr'') => (Thrown, tr'')
      end
  end.

Fixpoint pullReduce {A : Type} (l : list A) (callback : nat -> A -> P nat)
    (total : nat) : P nat :=
  match l with
  | [] => mret total
  | x :: l' => total' ← callback total x; pullReduce l' callback total'
  end.

(** A computation shared with [runPush] that does not look at the
    variables of [runPush]: its events join the trace. *)
Definition shared {A : Type} (m : M A) : P A := fun tr =>
  match m initialVars with
  | (outcome, st) => (outcome, tr ++ List.map PvShared (trace st))
  end.

Section WithWorld.

Variable PW : PullWorld.
Variable cfg : Config.

Definition plog (lvl : Level) (msg : PullLogMsg) : P unit := pemit (PvLog lvl msg).

Definition mkdirp (dir : jsstring) : P bool :=
  pemit (PvMkdirp dir) ;; mret (mkdirpOk PW dir).

Definition fs_unlinkSync (path : jsstring) : P unit := fun tr =>
  if unlinkOk PW tr path then (Returned tt, tr ++ [PvUnlink path])
  else (Thrown, tr ++ [PvUnlink path]).

Definition child_process_execSync (cmd : jsstring) : P unit := fun tr =>
  if execSyncOk PW tr cmd then (Returned tt, tr ++ [PvExecSync cmd])
  else (Thrown, tr ++ [PvExecSync cmd]).

Definition mysqldumpOptions : jsstring :=
  lit "--no-data --skip-comments --skip-add-drop-table --skip-add-locks".

Definition mysqldumpCmd : jsstring :=
  match mysqlServerRawPassword cfg with
  | None =>
      lit "mysqldump --host=" ++ mysqlServerHost cfg ++ lit " --port=" ++ mysqlServerPort cfg
      ++ lit " --user=" ++ mysqlServerUser cfg ++ lit " --tab=" ++ sqlFileDirFullPath cfg
      ++ lit " " ++ mysqlServerLiveDbname cfg ++ lit " " ++ mysqldumpOptions
  | Some rawPassword =>
      lit "mysqldump --host=" ++ mysqlServerHost cfg ++ lit " --port=" ++ mysqlServerPort cfg
      ++ lit " --user=" ++ mysqlServerUser cfg ++ lit " --password=" ++ rawPassword
      ++ lit " --tab=" ++ sqlFileDirFullPath cfg
      ++ lit " " ++ mysqlServerLiveDbname cfg ++ lit " " ++ mysqldumpOptions
  end.

(** The handlers of the promise chain of [runPull], in order. *)
Definition pullMkdirp : P bool := mkdirp (sqlFileDirFullPath cfg).

Definition pullReaddir (trueOrFalse : bool) : P (option (list jsstring)) :=
  if negb trueOrFalse then pthrow
  else shared (fs_readdir (pullFs PW) (sqlFileDirFullPath cfg)).

(** The callback of [Promise.reduce(files, ...)]. *)
Definition unlinkFile (total : nat) (file : jsstring) : P nat :=
  let fileFullPath := sqlFileDirFullPath cfg ++ file in
  isSql ← shared (isSqlFileSync (pullFs PW) fileFullPath);
  if negb isSql then mret (S total)
  else
    fs_unlinkSync fileFullPath ;;
    mret (S total).

Definition pullUnlink (files : option (list jsstring)) : P nat :=
  match files with
  | None => pthrow
  | Some files => pullReduce files unlinkFile 0%nat
  end.

Definition pullDump (total : nat) : P unit :=
  plog LvlInfo (PMsgJustDeleted total) ;;
  child_process_execSync mysqldumpCmd ;;
  plog LvlInfo (PMsgExecuted mysqldumpCmd).

Definition runPull : P unit :=
  pfinally
    (pcatch
       (trueOrFalse ← pullMkdirp;
        files ← pullReaddir trueOrFalse;
        total ← pullUnlink files;
        pullDump total)
       (plog LvlError PMsgException))
    (pemit PvExit).

(** The trace of a whole run. *)
Definition runPullTrace : list PullEvent := snd (runPull []).

End WithWorld.

(** Projections of a trace. *)
Definition unlinkedOf (tr : list PullEvent) : list jsstring :=
  omap (fun e => match e with PvUnlink p => Some p | _ => None end) tr.
Definition dumpsOf (tr : list PullEvent) : list jsstring :=
  omap (fun e => match e with PvExecSync c => Some c | _ => None end) tr.

End Pull.

Import Pull.

(** ** Further notions and scenarios *)

Module TraceSpec.

(** A computation that only adds to the trace, and only events that
    satisfy [Ok]. *)
Definition Emits (Ok : Event -> Prop) {A : Type} (m : M A) : Prop :=
  forall st, exists k, trace (snd (m st)) = trace st ++ k /\ Forall Ok k.

(** The events of the handlers that lead to the script: on the live
    connection nothing but [SHOW TABLES], no file written, no exit. *)
Definition scriptStageEvent (e : Event) : Prop :=
  match e with
  | EvLiveQuery sql => sql = showTablesStmt
  | EvWriteFile _ _ => False
  | EvExit => False
  | _ => True
  end.

(** Events that change nothing outside the scratch database: on the live
    connection nothing but [SHOW TABLES], and no file written. *)
Definition harmless (e : Event) : Prop :=
  match e with
  | EvLiveQuery sql => sql = showTablesStmt
  | EvWriteFile _ _ => False
  | _ => True
  end.

Definition notExit (e : Event) : Prop := e <> EvExit.

(** The scratch database accepts [stmt] whenever it is asked. *)
Definition tmpAccepts (W : World) (stmt : jsstring) : Prop :=
  forall tr, exists rows, tmpDbQuery W tr stmt = QOk rows.

(** [s] occurs in [l] as a contiguous part. *)
Definition Occurs (s l : jsstring) : Prop := exists pre post, l = pre ++ s ++ post.

End TraceSpec.

Module MoreScenarios.

Import Scenarios.

(** The directory exists and is empty; everything else works. *)
Definition worldEmptyDir : World :=
  {| liveDbQuery := fun _ sql =>
       if bool_decide (sql = showTablesStmt) then QOk [lit "users"] else QOk [];
     tmpDbQuery := okQuery;
     fsReaddir := fun _ => Some [];
     fsLstatIsFile := fun _ => Some true;
     fsReadFile := fun _ => None;
     fsWriteFile := fun _ _ => true;
     execStdout := fun _ => [] |}.

(** The scratch connection refuses every statement. *)
Definition worldScratchDown : World :=
  {| liveDbQuery := fun _ sql =>
       if bool_decide (sql = showTablesStmt) then QOk [lit "users"] else QOk [];
     tmpDbQuery := fun _ _ => QErr connectionRefused;
     fsReaddir := fun _ => Some [lit "a.sql"];
     fsLstatIsFile := fun _ => Some true;
     fsReadFile := fun _ => Some (lit "CREATE TABLE a (id INT);");
     fsWriteFile := fun _ _ => true;
     execStdout := fun _ => [] |}.

(** Three schema files; the second one cannot be read. *)
Definition worldUnreadable : World :=
  {| liveDbQuery := okQuery;
     tmpDbQuery := okQuery;
     fsReaddir := fun _ => Some [lit "a.sql"; lit "b.sql"; lit "c.sql"];
     fsLstatIsFile := fun _ => Some true;
     fsReadFile := fun path =>
       if bool_decide (path = repoDir ++ lit "b.sql") then None
       else Some (lit "CREATE TABLE t (id INT);");
     fsWriteFile := fun _ _ => true;
     execStdout := fun _ => [] |}.

(** Three schema files; the second one cannot be examined. *)
Definition worldUnexaminable : World :=
  {| liveDbQuery := okQuery;
     tmpDbQuery := okQuery;
     fsReaddir := fun _ => Some [lit "a.sql"; lit "b.sql"; lit "c.sql"];
     fsLstatIsFile := fun path =>
       if bool_decide (path = repoDir ++ lit "b.sql") then None else Some true;
     fsReadFile := fun _ => Some (lit "CREATE TABLE t (id INT);");
     fsWriteFile := fun _ _ => true;
     execStdout := fun _ => [] |}.

(** [config] without [--retainstmp]. *)
Definition configNoRetain : Config :=
  {| sqlFileDirFullPath := repoDir;
     mysqlServerHost := lit "localhost";
     mysqlServerPort := lit "3306";
     mysqlServerUser := lit "root";
     mysqlServerRawPassword := None;
     mysqlServerLiveDbname := lit "shop";
     retainsTmp := VBool false;
     pushScriptExportPath := VStr (lit "/repo/push_script.sql") |}.

(** The directory of [worldAB] with a readme beside the two schema files;
    [mkdirp], [unlinkSync] and [execSync] work. *)
Definition worldABReadme : World :=
  {| liveDbQuery := okQuery;
     tmpDbQuery := okQuery;
     fsReaddir := fun _ => Some [lit "a.sql"; lit "README.md"; lit "b.sql"];
     fsLstatIsFile := fun _ => Some true;
     fsReadFile := fun _ => Some [];
     fsWriteFile := fun _ _ => true;
     execStdout := fun _ => [] |}.

Definition pullWorldAB : PullWorld :=
  {| pullFs := worldABReadme;
     mkdirpOk := fun _ => true;
     unlinkOk := fun _ _ => true;
     execSyncOk := fun _ _ => true |}.

(** The directory cannot be made. *)
Definition pullWorldNoDir : PullWorld :=
  {| pullFs := worldABReadme;
     mkdirpOk := fun _ => false;
     unlinkOk := fun _ _ => true;
     execSyncOk := fun _ _ => true |}.

(** [b.sql] cannot be unlinked. *)
Definition pullWorldLocked : PullWorld :=
  {| pullFs := worldABReadme;
     mkdirpOk := fun _ => true;
     unlinkOk := fun _ path => negb (bool_decide (path = repoDir ++ lit "b.sql"));
     execSyncOk := fun _ _ => true |}.

End MoreScenarios.

Import MoreScenarios.

Import TraceSpec.

(** ** The wording of the specification

    Definitions written after the sentences of the specification, not
    after the source: the functions of the source are compared with
    them. *)

Module ReconciliationSpec.

(** The specification: [onlyInFiles] = elements of file list absent from
    live list, in file-list order. *)
Definition specOnlyInFiles (files live : list jsstring) : list jsstring :=
  filter (fun t => t ∉ live) files.

(** The specification: [onlyLive] = elements of live list absent from
    file list, in live-list order. *)
Definition specOnlyLive (files live : list jsstring) : list jsstring :=
  filter (fun t => t ∉ files) live.

End ReconciliationSpec.

Import ReconciliationSpec.

Module DirectiveSpec.

Definition COMMENT_END : jsstring := Eval vm_compute in lit "*/".

Definition isDigit (c : N) : bool := ((48 <=? c) && (c <=? 57))%N.

(** The specification: a version-gated comment block terminated by
    [*/;].  The opener [/*!], the version number that gates it, the text
    of the comment, which like any comment ends where [*/] first occurs,
    and the semicolon.  The block may run over several lines. *)
Definition VersionGatedBlock (b : jsstring) : Prop :=
  exists version text,
    b = OPEN ++ version ++ text ++ CLOSE
    /\ version <> []
    /\ Forall (fun c => isDigit c = true) version
    /\ ~ Occurs COMMENT_END (version ++ text).

(** ... optionally followed by blank lines. *)
Definition SpecDirective (d : jsstring) : Prop :=
  exists b blank, d = b ++ blank /\ VersionGatedBlock b /\ LineBreaks blank.

(** A string containing no directive, and a string consisting only of
    directives. *)
Definition DirectiveFree (s : jsstring) : Prop :=
  forall pre d post, s = pre ++ d ++ post -> ~ SpecDirective d.

Definition DirectiveOnly (s : jsstring) : Prop :=
  exists ds, s = concat ds /\ Forall SpecDirective ds.

(** A directive whose block lies on one line. *)
Definition OneLineDirective (d : jsstring) : Prop :=
  exists b blank,
    d = b ++ blank /\ VersionGatedBlock b /\ noLineTerminator b /\ LineBreaks blank.

(** [Occurs], by computation. *)
Definition occursb (s l : jsstring) : bool :=
  existsb (fun i => bool_decide (take (length s) (drop i l) = s)) (seq 0 (S (length l))).

(** What a string that holds a block holds at least: at some position the
    opener and, [n] characters behind it, the closer, with no [*/] in
    between. *)
Definition blockAtb (s : jsstring) (i n : nat) : bool :=
  bool_decide (take 3 (drop i s) = OPEN)
  && bool_decide (take 3 (drop (i + 3 + n) s) = CLOSE)
  && negb (occursb COMMENT_END (take n (drop (i + 3) s))).

Definition holdsBlockb (s : jsstring) : bool :=
  existsb (fun i => existsb (fun n => blockAtb s i n) (seq 0 (S (length s))))
          (seq 0 (S (length s))).

(** A partition clause as the dump tool writes it, over two lines. *)
Definition multiLineDirective : jsstring :=
  lit "/*!50100 PARTITION BY HASH (id)" ++ [CHAR_LF] ++ lit "PARTITIONS 4 */;".

(** A version-gated block that ends without a semicolon, and further on
    the same line an ordinary comment before the semicolon. *)
Definition unterminatedBlock : jsstring :=
  lit "/*!40101 SET NAMES utf8 */ SELECT 1 /* note */;".

End DirectiveSpec.

Import DirectiveSpec.

(** * Properties *)

(** ** The set reconciler *)

Section SetFacts.

Implicit Types (s acc : JsSet) (l A B : list jsstring) (x y : jsstring).

Lemma set_has_true s x : set_has s x = true ↔ x ∈ s.
Proof. unfold set_has. apply bool_decide_eq_true. Qed.

Lemma set_has_false s x : set_has s x = false ↔ x ∉ s.
Proof. unfold set_has. apply bool_decide_eq_false. Qed.

Lemma set_add_guarded s x : (if set_has s x then s else set_add s x) = set_add s x.
Proof. unfold set_add. destruct (set_has s x); reflexivity. Qed.

Lemma elem_of_set_add s x y : y ∈ set_add s x ↔ y ∈ s ∨ y = x.
Proof.
  unfold set_add. destruct (set_has s x) eqn:E.
  - apply set_has_true in E. split; [tauto | intros [?| ->]; assumption].
  - rewrite elem_of_app, list_elem_of_singleton. tauto.
Qed.

Lemma NoDup_set_add s x : NoDup s → NoDup (set_add s x).
Proof.
  intros Hs. unfold set_add. destruct (set_has s x) eqn:E; [assumption|].
  apply set_has_false in E. apply list.NoDup_app. repeat split.
  - assumption.
  - intros z Hz Hz'. apply list_elem_of_singleton in Hz'. subst. contradiction.
  - apply NoDup_singleton.
Qed.

Lemma set_add_extends s x : ∃ k, set_add s x = s ++ k.
Proof.
  unfold set_add. destruct (set_has s x).
  - exists []. symmetry. apply app_nil_r.
  - exists [x]. reflexivity.
Qed.

Lemma fold_add_elem l : ∀ acc x, x ∈ foldl set_add acc l ↔ x ∈ acc ∨ x ∈ l.
Proof.
  induction l as [|a l IH]; intros acc x; simpl.
  - rewrite elem_of_nil. tauto.
  - rewrite IH, elem_of_set_add, elem_of_cons. tauto.
Qed.

Lemma fold_add_NoDup l : ∀ acc, NoDup acc → NoDup (foldl set_add acc l).
Proof.
  induction l as [|a l IH]; intros acc Hacc; simpl; [assumption|].
  apply IH, NoDup_set_add, Hacc.
Qed.

Lemma fold_add_extends l : ∀ acc, ∃ k, foldl set_add acc l = acc ++ k.
Proof.
  induction l as [|a l IH]; intros acc; simpl.
  - exists []. symmetry. apply app_nil_r.
  - destruct (IH (set_add acc a)) as [k Hk]. destruct (set_add_extends acc a) as [k' Hk'].
    exists (k' ++ k). rewrite Hk, Hk'. symmetry. apply app_assoc.
Qed.

End SetFacts.

Section ReconcilerFacts.

Implicit Types (l A B : list jsstring) (x y : jsstring).

(** An element that occurs once splits the list in one way only. *)
Lemma NoDup_split_unique (a : jsstring) : ∀ l1 l1' r r',
  NoDup (l1 ++ a :: r) → l1 ++ a :: r = l1' ++ a :: r' → l1 = l1' ∧ r = r'.
Proof.
  induction l1 as [|b l1 IH]; intros [|b' l1'] r r' Hnd Heq; simpl in *.
  - injection Heq as ->. tauto.
  - injection Heq as <- ->. apply NoDup_cons in Hnd as [Hn _].
    exfalso. apply Hn. rewrite elem_of_app, elem_of_cons. tauto.
  - injection Heq as -> <-. apply NoDup_cons in Hnd as [Hn _].
    exfalso. apply Hn. rewrite elem_of_app, elem_of_cons. tauto.
  - injection Heq as -> Heq. apply NoDup_cons in Hnd as [_ Hnd].
    destruct (IH _ _ _ Hnd Heq) as [-> ->]. tauto.
Qed.

(** First-seen order: when [x] stands before [y] in the folded set and [x]
    is new, [x] occurs in the input at a place no [y] precedes. *)
Lemma fold_add_order l : ∀ (acc : JsSet) l1 x l2 y l3,
  NoDup acc →
  foldl set_add acc l = l1 ++ x :: l2 ++ y :: l3 →
  x ∈ acc ∨ (∃ p q, l = p ++ x :: q ∧ (y ∉ p) ∧ (y ∉ acc)).
Proof.
  induction l as [|a l IH]; intros acc l1 x l2 y l3 Hacc Heq; simpl in Heq.
  - left. subst acc. rewrite elem_of_app, elem_of_cons. tauto.
  - assert (Hnd : NoDup (l1 ++ x :: l2 ++ y :: l3)).
    { rewrite <- Heq. apply fold_add_NoDup, NoDup_set_add, Hacc. }
    destruct (IH _ _ _ _ _ _ (NoDup_set_add _ a Hacc) Heq) as [Hx | (p & q & -> & Hp & Hy)].
    + apply elem_of_set_add in Hx as [Hx | ->]; [left; assumption|].
      destruct (decide (a ∈ acc)) as [Ha | Ha]; [left; assumption|].
      right. exists [], l. split; [reflexivity|]. split; [apply not_elem_of_nil|].
      intros Hyacc.
      (* the result starts with [acc ++ [a]], and [a] occurs once in it *)
      destruct (fold_add_extends l (set_add acc a)) as [k Hk].
      rewrite Heq in Hk. unfold set_add in Hk.
      apply set_has_false in Ha. rewrite Ha in Hk.
      rewrite <- app_assoc in Hk. simpl in Hk.
      destruct (NoDup_split_unique _ _ _ _ _ Hnd Hk) as [-> _].
      apply list.NoDup_app in Hnd as (_ & Hdisj & _).
      apply (Hdisj y Hyacc). rewrite elem_of_cons, elem_of_app, elem_of_cons. tauto.
    + right. exists (a :: p), q. split; [reflexivity|].
      rewrite elem_of_set_add in Hy. rewrite elem_of_cons.
      split; [|tauto]. intros [-> | ?]; tauto.
Qed.

Lemma mergeTwoListsSync_fold A B :
  mergeTwoListsSync A B = foldl set_add set_empty (A ++ B).
Proof.
  unfold mergeTwoListsSync, set_spread. rewrite foldl_app.
  change (foldl (λ rs eleVal, set_add rs eleVal) set_empty A)
    with (foldl set_add set_empty A).
  generalize (foldl set_add set_empty A). induction B as [|b B IH]; intros acc; simpl; [reflexivity|].
  rewrite set_add_guarded. apply IH.
Qed.

Lemma exclusive_filter A B :
  getExclusiveImageRemoteNameListInFirstOperandSync A B = filter (λ x, x ∉ B) A.
Proof.
  unfold getExclusiveImageRemoteNameListInFirstOperandSync.
  change (foldl (λ ss eleVal, set_add ss eleVal) set_empty B) with (foldl set_add set_empty B).
  assert (Hhas : ∀ x, set_has (foldl set_add set_empty B) x = bool_decide (x ∈ B)).
  { intros x. unfold set_has. apply bool_decide_ext. rewrite fold_add_elem.
    unfold set_empty. rewrite elem_of_nil. tauto. }
  generalize (foldl set_add set_empty B) Hhas. intros secondSet Hs.
  assert (Hgen : ∀ res,
    foldl (λ resultList eleVal,
             if set_has secondSet eleVal then resultList else resultList ++ [eleVal]) res A
    = res ++ filter (λ x, x ∉ B) A).
  { induction A as [|a A IH]; intros res; simpl.
    - symmetry. apply app_nil_r.
    - rewrite IH, Hs, filter_cons. destruct (decide (a ∈ B)) as [Ha | Ha].
      + rewrite bool_decide_eq_true_2 by assumption.
        rewrite decide_False by tauto. reflexivity.
      + rewrite bool_decide_eq_false_2 by assumption.
        rewrite decide_True by assumption. rewrite <- app_assoc. reflexivity. }
  apply (Hgen []).
Qed.

Lemma indexOf_absent l x : (-1 = indexOf l x)%Z ↔ x ∉ l.
Proof.
  unfold indexOf. cut (∀ i, (0 ≤ i)%Z → (-1 = indexOfFrom i l x)%Z ↔ x ∉ l).
  { intros H. apply H. lia. }
  induction l as [|y l IH]; intros i Hi; simpl.
  - split; [intros _; apply not_elem_of_nil | reflexivity].
  - rewrite elem_of_cons. destruct (bool_decide (y = x)) eqn:E.
    + apply bool_decide_eq_true in E. split; [lia | intros H; exfalso; apply H; auto].
    + apply bool_decide_eq_false in E. rewrite IH by lia.
      split; [intros H [->|?]; tauto | tauto].
Qed.

Lemma branchOf_create exVC exLive t :
  branchOf exVC exLive t = BranchCreate ↔ t ∈ exVC.
Proof.
  unfold branchOf.
  destruct (decide (t ∈ exVC)) as [H | H].
  - rewrite bool_decide_eq_false_2 by (rewrite indexOf_absent; tauto). simpl. tauto.
  - rewrite bool_decide_eq_true_2 by (rewrite indexOf_absent; tauto). simpl.
    split; [|tauto]. destruct (negb _); discriminate.
Qed.

Lemma branchOf_drop exVC exLive t :
  branchOf exVC exLive t = BranchDrop ↔ (t ∉ exVC) ∧ t ∈ exLive.
Proof.
  unfold branchOf.
  destruct (decide (t ∈ exVC)) as [H | H].
  - rewrite bool_decide_eq_false_2 by (rewrite indexOf_absent; tauto). simpl.
    split; [discriminate | tauto].
  - rewrite bool_decide_eq_true_2 by (rewrite indexOf_absent; tauto). simpl.
    destruct (decide (t ∈ exLive)) as [H' | H'].
    + rewrite bool_decide_eq_false_2 by (rewrite indexOf_absent; tauto). simpl. tauto.
    + rewrite bool_decide_eq_true_2 by (rewrite indexOf_absent; tauto). simpl.
      split; [discriminate | tauto].
Qed.

Lemma branchOf_diff exVC exLive t :
  branchOf exVC exLive t = BranchDiff ↔ (t ∉ exVC) ∧ (t ∉ exLive).
Proof.
  destruct (branchOf exVC exLive t) eqn:E.
  - apply branchOf_create in E. split; [discriminate | tauto].
  - apply branchOf_drop in E. split; [discriminate | tauto].
  - split; [intros _ | reflexivity].
    split; intros H.
    + apply (branchOf_create exVC exLive) in H. congruence.
    + destruct (decide (t ∈ exVC)) as [H1 | H1].
      * apply (branchOf_create exVC exLive) in H1. congruence.
      * assert (H2 : branchOf exVC exLive t = BranchDrop) by (apply branchOf_drop; tauto).
        congruence.
Qed.

End ReconcilerFacts.

Section ReconcilerTheorems.

Implicit Types (A B : list jsstring) (x y : jsstring).

Lemma merged_NoDup A B : NoDup (merged A B).
Proof.
  unfold merged. rewrite mergeTwoListsSync_fold.
  apply fold_add_NoDup, NoDup_nil_2.
Qed.

Lemma elem_of_merged A B x : x ∈ merged A B ↔ x ∈ A ∨ x ∈ B.
Proof.
  unfold merged. rewrite mergeTwoListsSync_fold, fold_add_elem, elem_of_app.
  unfold set_empty. rewrite elem_of_nil. tauto.
Qed.

Lemma merged_first_seen A B l1 x l2 y l3 :
  merged A B = l1 ++ x :: l2 ++ y :: l3 →
  ∃ p q, A ++ B = p ++ x :: q ∧ y ∉ p.
Proof.
  unfold merged. rewrite mergeTwoListsSync_fold. intros Heq.
  destruct (fold_add_order _ _ _ _ _ _ _ (NoDup_nil_2 : NoDup set_empty) Heq)
    as [Hx | (p & q & Hpq & Hy & _)].
  - apply elem_of_nil in Hx. contradiction.
  - exists p, q. tauto.
Qed.

Lemma elem_of_onlyInFiles A B x : x ∈ onlyInFiles A B ↔ x ∈ A ∧ x ∉ B.
Proof. unfold onlyInFiles. rewrite exclusive_filter, list_elem_of_filter. tauto. Qed.

Lemma elem_of_onlyLive A B x : x ∈ onlyLive A B ↔ x ∈ B ∧ x ∉ A.
Proof. unfold onlyLive. rewrite exclusive_filter, list_elem_of_filter. tauto. Qed.

Lemma elem_of_inBoth A B x : x ∈ inBoth A B ↔ x ∈ A ∧ x ∈ B.
Proof.
  unfold inBoth. rewrite list_elem_of_filter, branchOf_diff, elem_of_merged,
    elem_of_onlyInFiles, elem_of_onlyLive.
  destruct (decide (x ∈ A)), (decide (x ∈ B)); tauto.
Qed.

Lemma exclusive_NoDup A B :
  NoDup A → NoDup (getExclusiveImageRemoteNameListInFirstOperandSync A B).
Proof. intros HA. rewrite exclusive_filter. apply NoDup_filter, HA. Qed.

(** The exclusive list keeps every occurrence of a name the second list
    does not hold. *)
Lemma exclusive_keeps_occurrences A B x :
  x ∉ B →
  filter (λ y, y = x) (getExclusiveImageRemoteNameListInFirstOperandSync A B)
  = filter (λ y, y = x) A.
Proof.
  intros Hx. rewrite exclusive_filter. induction A as [|a A IH]; [reflexivity|].
  rewrite !filter_cons. destruct (decide (a = x)) as [-> | Hne].
  - rewrite decide_True by assumption. rewrite filter_cons, decide_True by reflexivity.
    f_equal. apply IH.
  - destruct (decide (a ∉ B)); [rewrite filter_cons, decide_False by assumption|]; apply IH.
Qed.

(** C1, as the code has it.  For all lists of table names [A] (from the
    files) and [B] (live): the merged list holds every name of [A] or [B]
    exactly once, in first-seen order over [A] then [B]; the names of the
    merged list are those of the three parts [onlyInFiles], [onlyLive] and
    [inBoth]; the parts are pairwise disjoint; [inBoth] has no duplicates,
    and an exclusive part has none as soon as the list it is taken from
    has none. *)
Theorem reconciliation_invariant A B :
  (NoDup (merged A B)
   ∧ (∀ x, x ∈ merged A B ↔ x ∈ A ∨ x ∈ B)
   ∧ (∀ l1 x l2 y l3, merged A B = l1 ++ x :: l2 ++ y :: l3 →
        ∃ p q, A ++ B = p ++ x :: q ∧ y ∉ p)
   ∧ (∀ x, x ∈ merged A B ↔ x ∈ onlyInFiles A B ∨ x ∈ onlyLive A B ∨ x ∈ inBoth A B)
   ∧ (∀ x, x ∈ onlyInFiles A B → x ∉ onlyLive A B)
   ∧ (∀ x, x ∈ onlyInFiles A B → x ∉ inBoth A B)
   ∧ (∀ x, x ∈ onlyLive A B → x ∉ inBoth A B)
   ∧ NoDup (inBoth A B))
  ∧ (NoDup A → NoDup (onlyInFiles A B))
  ∧ (NoDup B → NoDup (onlyLive A B)).
Proof.
  split; [|split; apply exclusive_NoDup].
  split; [apply merged_NoDup|].
  split; [apply elem_of_merged|].
  split; [apply merged_first_seen|].
  split.
  { intros x. rewrite elem_of_merged, elem_of_onlyInFiles, elem_of_onlyLive, elem_of_inBoth.
    destruct (decide (x ∈ A)), (decide (x ∈ B)); tauto. }
  split.
  { intros x. rewrite elem_of_onlyInFiles, elem_of_onlyLive. tauto. }
  split.
  { intros x. rewrite elem_of_onlyInFiles, elem_of_inBoth. tauto. }
  split.
  { intros x. rewrite elem_of_onlyLive, elem_of_inBoth. tauto. }
  unfold inBoth. apply NoDup_filter, merged_NoDup.
Qed.

Lemma reconciliation_invariant_witness :
  NoDup [lit "a"; lit "b"] ∧ NoDup [lit "b"; lit "c"]
  ∧ NoDup (onlyInFiles [lit "a"; lit "b"] [lit "b"; lit "c"])
  ∧ NoDup (onlyLive [lit "a"; lit "b"] [lit "b"; lit "c"]).
Proof.
  assert (HA : NoDup [lit "a"; lit "b"]) by compute_done.
  assert (HB : NoDup [lit "b"; lit "c"]) by compute_done.
  split; [exact HA|]. split; [exact HB|].
  destruct (reconciliation_invariant [lit "a"; lit "b"] [lit "b"; lit "c"]) as (_ & H1 & H2).
  split; [apply H1, HA | apply H2, HB].
Defined.

(** The claim as written fails for a file list that repeats a name. *)
Lemma reconciliation_duplicates_counterexample :
  ¬ NoDup (onlyInFiles [lit "a"; lit "a"] []).
Proof.
  compute_done.
Qed.

(** C6.  The exclusive computation is complementary under the exchange of
    its operands.  [getExclusiveImageRemoteNameListInFirstOperandSync] on
    [(A, B)] returns the elements of [A] absent from [B], in the order of
    [A]: that is what the specification calls [onlyInFiles] of [(A, B)],
    and what it calls [onlyLive] of the exchanged pair [(B, A)].  The two
    calls of [runPush] (lines 304 and 305) compute the two lists of the
    specification, and each is the other with the operands exchanged. *)
Theorem exclusive_swap A B :
  getExclusiveImageRemoteNameListInFirstOperandSync A B = specOnlyInFiles A B
  ∧ getExclusiveImageRemoteNameListInFirstOperandSync A B = specOnlyLive B A
  ∧ onlyInFiles A B = specOnlyInFiles A B
  ∧ onlyLive A B = specOnlyLive A B
  ∧ onlyInFiles A B = onlyLive B A.
Proof.
  unfold onlyInFiles, onlyLive, specOnlyInFiles, specOnlyLive.
  rewrite !exclusive_filter. repeat split.
Qed.

(** C9.  The exclusive list repeats a name its first operand repeats: on
    [["a"; "a"]] against [["b"]] it returns ["a"] twice, and in general it
    keeps every occurrence of a name absent from the second operand.  It
    is duplicate-free when the first operand is, and the merged list is
    duplicate-free in any case. *)
Theorem exclusive_preserves_duplicates :
  getExclusiveImageRemoteNameListInFirstOperandSync [lit "a"; lit "a"] [lit "b"]
    = [lit "a"; lit "a"]
  ∧ (∀ A B x, x ∉ B →
       filter (λ y, y = x) (getExclusiveImageRemoteNameListInFirstOperandSync A B)
       = filter (λ y, y = x) A)
  ∧ (∀ A B, NoDup A → NoDup (getExclusiveImageRemoteNameListInFirstOperandSync A B))
  ∧ (∀ A B, NoDup (mergeTwoListsSync A B)).
Proof.
  split; [vm_compute; reflexivity|].
  split; [intros; apply exclusive_keeps_occurrences; assumption|].
  split; [intros; apply exclusive_NoDup; assumption|].
  apply merged_NoDup.
Qed.

Lemma exclusive_preserves_duplicates_witness :
(lit "a" ∉ [lit "b"])
  ∧ filter (λ y, y = lit "a")
      (getExclusiveImageRemoteNameListInFirstOperandSync [lit "a"; lit "c"; lit "a"] [lit "b"])
    = [lit "a"; lit "a"]
  ∧ NoDup (getExclusiveImageRemoteNameListInFirstOperandSync [lit "a"; lit "b"] [lit "b"]).
Proof.
  assert (Hx : lit "a" ∉ [lit "b"]).
  { compute_done. }
  assert (HA : NoDup [lit "a"; lit "b"]) by compute_done.
  destruct exclusive_preserves_duplicates as (_ & H1 & H2 & _).
  split; [exact Hx|]. split.
  - rewrite (H1 [lit "a"; lit "c"; lit "a"] [lit "b"] (lit "a") Hx). vm_compute. reflexivity.
  - apply H2, HA.
Defined.

End ReconcilerTheorems.

(** ** The sanitizer *)

Section SanitizerFacts.

Implicit Types (s r w v t rest : jsstring) (c : N).

Lemma matchLit_Some p : ∀ s r, matchLit p s = Some r ↔ s = p ++ r.
Proof.
  induction p as [|c p IH]; intros s r; simpl.
  - split; [intros [= ->] | intros ->]; reflexivity.
  - destruct s as [|d s]; [split; discriminate|].
    destruct (N.eqb_spec c d) as [-> | Hne].
    + rewrite IH. split; [intros -> | intros [= ->]]; reflexivity.
    + split; [discriminate | intros [= -> _]; contradiction].
Qed.

Lemma isLineTerminator_cases c :
  isLineTerminator c = true → c = CHAR_LF ∨ c = CHAR_CR ∨ c = CHAR_LS ∨ c = CHAR_PS.
Proof.
  unfold isLineTerminator. rewrite !orb_true_iff, !N.eqb_eq. tauto.
Qed.

Lemma matchLineBreaks_spec v : ∃ nl, v = nl ++ matchLineBreaks v ∧ LineBreaks nl.
Proof.
  remember (length v) as n eqn:Hn. revert v Hn.
  induction n as [n IH] using lt_wf_ind. intros v Hn.
  destruct v as [|c r]; simpl.
  { exists []. split; [reflexivity | constructor]. }
  destruct (N.eqb_spec c CHAR_LF) as [-> | Hlf].
  { destruct (IH (length r)) with (v := r) as (nl & Hnl & Hlb);
      [simpl in Hn; lia | reflexivity |].
    exists (CHAR_LF :: nl). split; [simpl; f_equal; exact Hnl | constructor; exact Hlb]. }
  destruct (N.eqb_spec c CHAR_CR) as [-> | Hcr].
  2:{ exists []. split; [reflexivity | constructor]. }
  destruct r as [|d r'].
  { exists []. split; [reflexivity | constructor]. }
  destruct (N.eqb_spec d CHAR_LF) as [-> | Hlf'].
  2:{ exists []. split; [reflexivity | constructor]. }
  destruct (IH (length r')) with (v := r') as (nl & Hnl & Hlb);
    [simpl in Hn; lia | reflexivity |].
  exists (CHAR_CR :: CHAR_LF :: nl).
  split; [simpl; do 2 f_equal; exact Hnl | constructor; exact Hlb].
Qed.

Lemma matchLineBreaks_app nl : LineBreaks nl → ∀ t, matchLineBreaks (nl ++ t) = matchLineBreaks t.
Proof.
  induction 1 as [|s _ IH|s _ IH]; intros t; [reflexivity| |]; simpl; apply IH.
Qed.

(** Where no line break starts, none is eaten. *)
Lemma matchLineBreaks_stop t :
  (t = [] ∨ ∃ c t', t = c :: t' ∧ c ≠ CHAR_LF ∧ c ≠ CHAR_CR) → matchLineBreaks t = t.
Proof.
  intros [-> | (c & t' & -> & Hlf & Hcr)]; [reflexivity|]. simpl.
  apply N.eqb_neq in Hlf, Hcr. rewrite Hlf, Hcr. reflexivity.
Qed.

Lemma matchTail_Some s rest :
  matchTail s = Some rest ↔ ∃ v, s = CLOSE ++ v ∧ rest = matchLineBreaks v.
Proof.
  unfold matchTail. destruct (matchLit CLOSE s) as [v|] eqn:E; cbn [fmap option_fmap option_map].
  - apply matchLit_Some in E. split.
    + intros [= <-]. exists v. tauto.
    + intros (v' & Hv' & ->). rewrite E in Hv'. apply app_inv_head in Hv'. subst. reflexivity.
  - split; [discriminate|]. intros (v' & Hv' & _).
    apply matchLit_Some in Hv'. congruence.
Qed.

Lemma matchDotStar_sound r : ∀ rest,
  matchDotStar r = Some rest →
  ∃ w v, r = w ++ CLOSE ++ v ∧ noLineTerminator w ∧ rest = matchLineBreaks v.
Proof.
  assert (Htail : ∀ s rest, matchTail s = Some rest →
            ∃ w v, s = w ++ CLOSE ++ v ∧ noLineTerminator w ∧ rest = matchLineBreaks v).
  { intros s rest H. apply matchTail_Some in H as (v & -> & ->).
    exists [], v. split; [reflexivity|]. split; [constructor | reflexivity]. }
  induction r as [|c r IH]; intros rest H; simpl in H; [apply Htail, H|].
  destruct (isLineTerminator c) eqn:Ec; [apply Htail, H|].
  destruct (matchDotStar r) as [rest'|] eqn:Er; [|apply Htail, H].
  injection H as ->. destruct (IH _ eq_refl) as (w & v & -> & Hw & ->).
  exists (c :: w), v. split; [reflexivity|]. split; [constructor; assumption | reflexivity].
Qed.

(** Greedy: on a line that ends with the closer, [.*] runs to the last
    closer of the line. *)
Lemma matchDotStar_greedy w : ∀ v,
  noLineTerminator w →
  (v = [] ∨ ∃ c v', v = c :: v' ∧ isLineTerminator c = true) →
  matchDotStar (w ++ CLOSE ++ v) = Some (matchLineBreaks v).
Proof.
  induction w as [|c w IH]; intros v Hw Hv.
  - destruct Hv as [-> | (c & v' & -> & Hc)]; [reflexivity|].
    apply isLineTerminator_cases in Hc as [-> | [-> | [-> | ->]]]; reflexivity.
  - apply Forall_cons in Hw as [Hc Hw].
    change ((c :: w) ++ CLOSE ++ v) with (c :: (w ++ CLOSE ++ v)).
    cbn [matchDotStar]. rewrite Hc, (IH v Hw Hv). reflexivity.
Qed.

Lemma matchAt_sound s rest :
  matchAt s = Some rest → ∃ d, Directive d ∧ s = d ++ rest.
Proof.
  unfold matchAt. destruct (matchLit OPEN s) as [r|] eqn:E; simpl; [|discriminate].
  apply matchLit_Some in E as ->. unfold matchDotPlus.
  destruct r as [|c r]; [discriminate|].
  destruct (isLineTerminator c) eqn:Ec; [discriminate|]. intros H.
  apply matchDotStar_sound in H as (w & v & -> & Hw & ->).
  destruct (matchLineBreaks_spec v) as (nl & Hnl & Hlb).
  exists (OPEN ++ (c :: w) ++ CLOSE ++ nl). split.
  - exists (c :: w), nl. split; [reflexivity|]. split; [discriminate|].
    split; [constructor; assumption | assumption].
  - rewrite Hnl at 1. rewrite <- !app_assoc. reflexivity.
Qed.

Lemma Directive_length d : Directive d → (0 < length d)%nat.
Proof.
  intros (body & nl & -> & _). rewrite length_app. simpl. lia.
Qed.

Lemma matchAt_shrinks s rest : matchAt s = Some rest → (length rest < length s)%nat.
Proof.
  intros H. apply matchAt_sound in H as (d & Hd & ->).
  apply Directive_length in Hd. rewrite length_app. lia.
Qed.

(** Any fuel that covers the length gives the same result. *)
Lemma replaceLoop_fuel fuel : ∀ fuel' s,
  (length s ≤ fuel)%nat → (length s ≤ fuel')%nat →
  replaceLoop fuel s = replaceLoop fuel' s.
Proof.
  induction fuel as [|fuel IH]; intros fuel' s H H'.
  - destruct s; [|simpl in H; lia]. destruct fuel'; reflexivity.
  - destruct s as [|c r]; [destruct fuel'; reflexivity|].
    destruct fuel' as [|fuel']; [simpl in H'; lia|].
    simpl in H, H'. cbn [replaceLoop].
    destruct (matchAt (c :: r)) as [rest|] eqn:E.
    + apply matchAt_shrinks in E. simpl in E. apply IH; lia.
    + f_equal. apply IH; lia.
Qed.

Lemma removeSqlStrMetaSync_match s rest :
  matchAt s = Some rest → removeSqlStrMetaSync s = removeSqlStrMetaSync rest.
Proof.
  intros E. unfold removeSqlStrMetaSync.
  pose proof (matchAt_shrinks _ _ E) as Hlt.
  destruct s as [|c r]; [discriminate|].
  cbn [length replaceLoop]. rewrite E. simpl in Hlt. apply replaceLoop_fuel; lia.
Qed.

Lemma removeSqlStrMetaSync_keep c r :
  matchAt (c :: r) = None →
  removeSqlStrMetaSync (c :: r) = c :: removeSqlStrMetaSync r.
Proof.
  intros E. unfold removeSqlStrMetaSync. cbn [length replaceLoop]. rewrite E. reflexivity.
Qed.

End SanitizerFacts.

Section SanitizerTheorems.

Implicit Types (s r w v t rest d : jsstring) (c : N) (ds : list jsstring).

(** Complete: where a directive starts, the pattern matches. *)
Lemma matchDotStar_complete w : ∀ v,
  noLineTerminator w → is_Some (matchDotStar (w ++ CLOSE ++ v)).
Proof.
  induction w as [|c w IH]; intros v Hw.
  - assert (Ht : matchTail (CLOSE ++ v) = Some (matchLineBreaks v)) by reflexivity.
    change (CLOSE ++ v) with (42 :: (47 :: 59 :: v)) in Ht.
    change ([] ++ CLOSE ++ v) with (42 :: (47 :: 59 :: v)).
    revert Ht. generalize (47 :: 59 :: v). intros r Ht.
    cbn [matchDotStar]. change (isLineTerminator 42) with false. cbv iota.
    destruct (matchDotStar r); [eexists; reflexivity|].
    rewrite Ht. eexists. reflexivity.
  - apply Forall_cons in Hw as [Hc Hw].
    change ((c :: w) ++ CLOSE ++ v) with (c :: (w ++ CLOSE ++ v)).
    cbn [matchDotStar]. rewrite Hc. destruct (IH v Hw) as [x ->]. eexists. reflexivity.
Qed.

Lemma matchAt_complete d post : Directive d → is_Some (matchAt (d ++ post)).
Proof.
  intros (body & nl & -> & Hne & Hbody & _).
  destruct body as [|c w]; [contradiction|]. apply Forall_cons in Hbody as [Hc Hw].
  unfold matchAt.
  replace (matchLit OPEN ((OPEN ++ (c :: w) ++ CLOSE ++ nl) ++ post))
    with (Some (c :: (w ++ CLOSE ++ nl ++ post))).
  2:{ symmetry. apply matchLit_Some. rewrite <- !app_assoc. reflexivity. }
  cbn [mbind option_bind matchDotPlus]. rewrite Hc.
  apply matchDotStar_complete, Hw.
Qed.

Lemma removeSqlStrMetaSync_length s : (length (removeSqlStrMetaSync s) ≤ length s)%nat.
Proof.
  remember (length s) as n eqn:Hn. revert s Hn.
  induction n as [n IH] using lt_wf_ind. intros s Hn.
  destruct s as [|c r]; [simpl; lia|].
  destruct (matchAt (c :: r)) as [rest|] eqn:E.
  - rewrite (removeSqlStrMetaSync_match _ _ E).
    apply matchAt_shrinks in E. specialize (IH (length rest)).
    rewrite Hn. etrans; [apply IH; [lia | reflexivity]|]. lia.
  - rewrite (removeSqlStrMetaSync_keep _ _ E). simpl in *.
    specialize (IH (length r)). assert (length (removeSqlStrMetaSync r) ≤ length r)%nat
      by (apply IH; [lia | reflexivity]). lia.
Qed.

Lemma sanitize_identity s : ¬ ContainsDirective s → removeSqlStrMetaSync s = s.
Proof.
  induction s as [|c r IH]; intros Hno; [reflexivity|].
  destruct (matchAt (c :: r)) as [rest|] eqn:E.
  - exfalso. apply Hno. apply matchAt_sound in E as (d & Hd & Heq).
    exists [], d, rest. split; [exact Heq | exact Hd].
  - rewrite (removeSqlStrMetaSync_keep _ _ E). f_equal. apply IH.
    intros (pre & d & post & -> & Hd). apply Hno.
    exists (c :: pre), d, post. split; [reflexivity | exact Hd].
Qed.

Lemma sanitize_changes s : ContainsDirective s → removeSqlStrMetaSync s ≠ s.
Proof.
  intros (pre & d & post & -> & Hd) Heq.
  assert (Hlt : (length (removeSqlStrMetaSync (pre ++ d ++ post)) < length (pre ++ d ++ post))%nat);
    [|rewrite Heq in Hlt; lia].
  clear Heq. remember (length (pre ++ d ++ post)) as n eqn:Hn. revert pre Hn.
  induction n as [n IH] using lt_wf_ind. intros pre Hn.
  destruct (pre ++ d ++ post) as [|c r] eqn:Es.
  { apply Directive_length in Hd. apply (f_equal length) in Es.
    rewrite !length_app in Es. simpl in Es. lia. }
  destruct (matchAt (c :: r)) as [rest|] eqn:E.
  - rewrite (removeSqlStrMetaSync_match _ _ E). apply matchAt_shrinks in E.
    pose proof (removeSqlStrMetaSync_length rest). lia.
  - rewrite (removeSqlStrMetaSync_keep _ _ E).
    destruct pre as [|c' pre'].
    + simpl in Es. rewrite <- Es in E. destruct (matchAt_complete d post Hd) as [x Hx].
      congruence.
    + simpl in Es. injection Es as -> <-. simpl in Hn. simpl.
      specialize (IH (length (pre' ++ d ++ post))).
      assert (length (removeSqlStrMetaSync (pre' ++ d ++ post)) < length (pre' ++ d ++ post))%nat
        by (apply IH with (pre := pre'); [lia | reflexivity]). lia.
Qed.

Lemma directives_start ds :
  Forall Directive ds → concat ds = [] ∨ ∃ t, concat ds = CHAR_SLASH :: t.
Proof.
  intros [|d ds' (body & nl & -> & _) _]; [left; reflexivity|].
  right. eexists. reflexivity.
Qed.

(** A run of directives starts with a match of the pattern, and what the
    match leaves is again a run of directives, a shorter one. *)
Lemma directives_swallowed ds :
  Forall Directive ds → ds ≠ [] →
  ∃ c w v,
    concat ds = OPEN ++ c :: w ++ CLOSE ++ v
    ∧ noLineTerminator (c :: w)
    ∧ (v = [] ∨ ∃ c' v', v = c' :: v' ∧ isLineTerminator c' = true)
    ∧ ∃ ds', matchLineBreaks v = concat ds' ∧ Forall Directive ds'
             ∧ (length ds' < length ds)%nat.
Proof.
  induction 1 as [|d ds' (body & nl & -> & Hne & Hbody & Hlb) Hds' IH]; intros Hnil; [contradiction|clear Hnil].
  destruct body as [|c w0]; [contradiction|].
  assert (Hstop : matchLineBreaks (concat ds') = concat ds').
  { apply matchLineBreaks_stop.
    destruct (directives_start ds' Hds') as [-> | (t & ->)]; [left; reflexivity|].
    right. exists CHAR_SLASH, t. split; [reflexivity|]. split; discriminate. }
  destruct Hlb as [|nl' Hlb|nl' Hlb].
  - destruct ds' as [|d' ds''].
    + exists c, w0, []. split; [simpl; rewrite !app_nil_r; reflexivity|].
      split; [assumption|]. split; [left; reflexivity|].
      exists []. split; [reflexivity|]. split; [constructor | simpl; lia].
    + destruct IH as (c' & w' & v' & Heq & Hw' & Hv' & ds3 & Hrest & Hds3 & Hlen);
        [discriminate|].
      exists c, (w0 ++ CLOSE ++ OPEN ++ c' :: w'), v'.
      split.
      { rewrite concat_cons, Heq, app_nil_r, <- !app_assoc. reflexivity. }
      split.
      { apply Forall_cons in Hbody as [Hc Hw0]. constructor; [assumption|].
        apply Forall_app. split; [assumption|].
        apply Forall_app. split; [repeat constructor|].
        apply Forall_app. split; [repeat constructor | assumption]. }
      split; [assumption|].
      exists ds3. split; [assumption|]. split; [assumption|]. simpl in *. lia.
  - exists c, w0, (CHAR_LF :: nl' ++ concat ds').
    split; [cbn [concat]; rewrite <- !app_assoc; reflexivity|].
    split; [assumption|].
    split; [right; exists CHAR_LF, (nl' ++ concat ds'); split; reflexivity|].
    exists ds'. split; [|split; [assumption | simpl; lia]].
    change (CHAR_LF :: nl' ++ concat ds') with ((CHAR_LF :: nl') ++ concat ds').
    rewrite (matchLineBreaks_app (CHAR_LF :: nl') (LineBreaks_lf _ Hlb)). exact Hstop.
  - exists c, w0, (CHAR_CR :: CHAR_LF :: nl' ++ concat ds').
    split; [cbn [concat]; rewrite <- !app_assoc; reflexivity|].
    split; [assumption|].
    split; [right; exists CHAR_CR, (CHAR_LF :: nl' ++ concat ds'); split; reflexivity|].
    exists ds'. split; [|split; [assumption | simpl; lia]].
    change (CHAR_CR :: CHAR_LF :: nl' ++ concat ds')
      with ((CHAR_CR :: CHAR_LF :: nl') ++ concat ds').
    rewrite (matchLineBreaks_app (CHAR_CR :: CHAR_LF :: nl') (LineBreaks_crlf _ Hlb)).
    exact Hstop.
Qed.

Lemma matchAt_swallow c w v :
  noLineTerminator (c :: w) →
  (v = [] ∨ ∃ c' v', v = c' :: v' ∧ isLineTerminator c' = true) →
  matchAt (OPEN ++ c :: w ++ CLOSE ++ v) = Some (matchLineBreaks v).
Proof.
  intros Hcw Hv. apply Forall_cons in Hcw as [Hc Hw]. unfold matchAt.
  replace (matchLit OPEN (OPEN ++ c :: w ++ CLOSE ++ v))
    with (Some (c :: (w ++ CLOSE ++ v))) by (symmetry; apply matchLit_Some; reflexivity).
  cbn [mbind option_bind matchDotPlus]. rewrite Hc.
  apply matchDotStar_greedy; assumption.
Qed.

Lemma sanitize_directives ds :
  Forall Directive ds → removeSqlStrMetaSync (concat ds) = [].
Proof.
  remember (length ds) as n eqn:Hn. revert ds Hn.
  induction n as [n IH] using lt_wf_ind. intros ds Hn Hds.
  destruct ds as [|d ds']; [reflexivity|].
  destruct (directives_swallowed (d :: ds') Hds) as (c & w & v & Heq & Hw & Hv & ds2 & Hrest & Hds2 & Hlen);
    [discriminate|].
  rewrite Heq, (removeSqlStrMetaSync_match _ _ (matchAt_swallow c w v Hw Hv)), Hrest.
  apply (IH (length ds2)); [lia | reflexivity | assumption].
Qed.

Lemma matchLineBreaks_newlines nls t :
  Forall isNewline nls → (t = [] ∨ ∃ t', t = CHAR_SLASH :: t') →
  ∃ nls', matchLineBreaks (nls ++ t) = nls' ++ t ∧ Forall isNewline nls'.
Proof.
  intros Hnls Ht.
  assert (Hstop : matchLineBreaks t = t).
  { apply matchLineBreaks_stop. destruct Ht as [-> | (t' & ->)]; [left; reflexivity|].
    right. exists CHAR_SLASH, t'. split; [reflexivity|]. split; discriminate. }
  remember (length nls) as n eqn:Hn. revert nls Hn Hnls.
  induction n as [n IH] using lt_wf_ind. intros nls Hn Hnls.
  destruct nls as [|c r]; [exists []; split; [exact Hstop | constructor]|].
  apply Forall_cons in Hnls as [[-> | ->] Hr].
  - destruct (IH (length r)) with (nls := r) as (nls' & Heq & Hnls');
      [simpl in Hn; lia | reflexivity | assumption |].
    exists nls'. split; [exact Heq | exact Hnls'].
  - destruct r as [|d r'].
    + exists [CHAR_CR]. split; [|constructor; [right; reflexivity | constructor]].
      destruct Ht as [-> | (t' & ->)]; reflexivity.
    + apply Forall_cons in Hr as [[-> | ->] Hr'].
      * destruct (IH (length r')) with (nls := r') as (nls' & Heq & Hnls');
          [simpl in Hn; lia | reflexivity | assumption |].
        exists nls'. split; [exact Heq | exact Hnls'].
      * exists (CHAR_CR :: CHAR_CR :: r'). split; [reflexivity|].
        constructor; [right; reflexivity|]. constructor; [right; reflexivity | exact Hr'].
Qed.

Lemma sanitize_skips_newlines nls t :
  Forall isNewline nls →
  removeSqlStrMetaSync (nls ++ t) = nls ++ removeSqlStrMetaSync t.
Proof.
  induction 1 as [|c nls Hc _ IH]; [reflexivity|].
  change ((c :: nls) ++ t) with (c :: (nls ++ t)).
  rewrite removeSqlStrMetaSync_keep; [rewrite IH; reflexivity|].
  destruct Hc as [-> | ->]; reflexivity.
Qed.

Lemma loose_directives_start ds :
  Forall LooseDirective ds → concat ds = [] ∨ ∃ t, concat ds = CHAR_SLASH :: t.
Proof.
  intros [|d ds' (body & nl & -> & _) _]; [left; reflexivity|].
  right. eexists. reflexivity.
Qed.

Lemma loose_directives_swallowed ds :
  Forall LooseDirective ds → ds ≠ [] →
  ∃ c w v,
    concat ds = OPEN ++ c :: w ++ CLOSE ++ v
    ∧ noLineTerminator (c :: w)
    ∧ (v = [] ∨ ∃ c' v', v = c' :: v' ∧ isLineTerminator c' = true)
    ∧ ∃ nls' ds', matchLineBreaks v = nls' ++ concat ds' ∧ Forall isNewline nls'
             ∧ Forall LooseDirective ds' ∧ (length ds' < length ds)%nat.
Proof.
  induction 1 as [|d ds' (body & nls & -> & Hne & Hbody & Hnls) Hds' IH]; intros Hnil;
    [contradiction|clear Hnil].
  destruct body as [|c w0]; [contradiction|].
  destruct nls as [|n0 nls0].
  - destruct ds' as [|d' ds''].
    + exists c, w0, []. split; [simpl; rewrite !app_nil_r; reflexivity|].
      split; [assumption|]. split; [left; reflexivity|].
      exists [], []. split; [reflexivity|]. split; [constructor|].
      split; [constructor | simpl; lia].
    + destruct IH as (c' & w' & v' & Heq & Hw' & Hv' & nls3 & ds3 & Hrest & Hnls3 & Hds3 & Hlen);
        [discriminate|].
      exists c, (w0 ++ CLOSE ++ OPEN ++ c' :: w'), v'.
      split; [rewrite concat_cons, Heq, app_nil_r, <- !app_assoc; reflexivity|].
      split.
      { apply Forall_cons in Hbody as [Hc Hw0]. constructor; [assumption|].
        apply Forall_app. split; [assumption|].
        apply Forall_app. split; [repeat constructor|].
        apply Forall_app. split; [repeat constructor | assumption]. }
      split; [assumption|].
      exists nls3, ds3. split; [assumption|]. split; [assumption|].
      split; [assumption|]. simpl in *. lia.
  - exists c, w0, ((n0 :: nls0) ++ concat ds').
    split; [cbn [concat]; rewrite <- !app_assoc; reflexivity|].
    split; [assumption|].
    split.
    { right. exists n0, (nls0 ++ concat ds'). split; [reflexivity|].
      apply Forall_cons in Hnls as [[-> | ->] _]; reflexivity. }
    destruct (matchLineBreaks_newlines (n0 :: nls0) (concat ds') Hnls
                (loose_directives_start ds' Hds')) as (nls' & Heq & Hnls').
    exists nls', ds'. split; [exact Heq|]. split; [exact Hnls'|].
    split; [assumption | simpl; lia].
Qed.

Lemma sanitize_loose_directives ds :
  Forall LooseDirective ds → Forall isNewline (removeSqlStrMetaSync (concat ds)).
Proof.
  remember (length ds) as n eqn:Hn. revert ds Hn.
  induction n as [n IH] using lt_wf_ind. intros ds Hn Hds.
  destruct ds as [|d ds']; [constructor|].
  destruct (loose_directives_swallowed (d :: ds') Hds)
    as (c & w & v & Heq & Hw & Hv & nls2 & ds2 & Hrest & Hnls2 & Hds2 & Hlen);
    [discriminate|].
  rewrite Heq, (removeSqlStrMetaSync_match _ _ (matchAt_swallow c w v Hw Hv)), Hrest.
  rewrite (sanitize_skips_newlines _ _ Hnls2). apply Forall_app. split; [assumption|].
  apply (IH (length ds2)); [lia | reflexivity | assumption].
Qed.

(** The wording of the specification against the pattern. *)

Lemma occursb_spec s l : occursb s l = true ↔ Occurs s l.
Proof.
  unfold occursb, Occurs. rewrite existsb_exists. split.
  - intros (i & _ & Hi). apply bool_decide_eq_true in Hi.
    exists (take i l), (drop (length s) (drop i l)).
    rewrite <- (take_drop i l) at 1. f_equal.
    rewrite <- (take_drop (length s) (drop i l)) at 1. rewrite Hi. reflexivity.
  - intros (pre & post & ->). exists (length pre). split.
    + apply in_seq. rewrite !length_app. lia.
    + apply bool_decide_eq_true. rewrite drop_app_length. apply take_app_length.
Qed.

Lemma OneLineDirective_Directive d : OneLineDirective d → Directive d.
Proof.
  intros (b & blank & -> & (version & text & -> & Hne & _ & _) & Hline & Hblank).
  exists (version ++ text), blank. rewrite <- !app_assoc.
  split; [reflexivity|]. split.
  - destruct version; [contradiction | discriminate].
  - split; [|exact Hblank]. unfold noLineTerminator in *.
    apply Forall_app in Hline as [_ Hline]. rewrite app_assoc in Hline.
    apply Forall_app in Hline as [Hline _]. exact Hline.
Qed.

(** A string that holds a directive of the specification passes the
    computed test. *)
Lemma SpecDirective_holdsBlockb s pre d post :
  s = pre ++ d ++ post → SpecDirective d → holdsBlockb s = true.
Proof.
  intros -> (b & blank & -> & (version & text & -> & _ & _ & Hno) & _).
  unfold holdsBlockb. apply existsb_exists. exists (length pre). split.
  { apply in_seq. rewrite !length_app. lia. }
  apply existsb_exists. exists (length (version ++ text)). split.
  { apply in_seq. rewrite !length_app. lia. }
  unfold blockAtb. rewrite !andb_true_iff. split; [split|].
  - apply bool_decide_eq_true. rewrite drop_app_length, <- !app_assoc. reflexivity.
  - apply bool_decide_eq_true.
    replace (pre ++ ((OPEN ++ version ++ text ++ CLOSE) ++ blank) ++ post)
      with ((pre ++ OPEN ++ version ++ text) ++ CLOSE ++ blank ++ post)
      by (rewrite <- !app_assoc; reflexivity).
    replace (length pre + 3 + length (version ++ text))%nat
      with (length (pre ++ OPEN ++ version ++ text))
      by (rewrite !length_app; simpl; lia).
    rewrite drop_app_length. reflexivity.
  - apply negb_true_iff.
    replace (pre ++ ((OPEN ++ version ++ text ++ CLOSE) ++ blank) ++ post)
      with ((pre ++ OPEN) ++ (version ++ text) ++ CLOSE ++ blank ++ post)
      by (rewrite <- !app_assoc; reflexivity).
    replace (length pre + 3)%nat with (length (pre ++ OPEN))
      by (rewrite length_app; reflexivity).
    rewrite drop_app_length, take_app_length.
    destruct (occursb COMMENT_END (version ++ text)) eqn:E; [|reflexivity].
    apply occursb_spec in E. contradiction.
Qed.

Lemma DirectiveFree_check s : holdsBlockb s = false → DirectiveFree s.
Proof.
  intros Hno pre d post Heq Hd.
  rewrite (SpecDirective_holdsBlockb s pre d post Heq Hd) in Hno. discriminate.
Qed.

(** C5, as the code has it.  The sanitizer returns unchanged exactly the
    strings in which its pattern matches nowhere: no opener [/*!] followed
    on the same line by at least one character and then by [*/;].  It
    returns the empty string for a string made only of directives that
    each lie on one line: the version-gated blocks of the specification
    when they hold no line terminator, and more generally what the pattern
    matches, each with the line breaks that follow it.  When the
    directives are followed by carriage returns and line feeds in any
    arrangement, what is left holds nothing but such characters. *)
Theorem sanitizer_identity_and_annihilation :
  (∀ s, ¬ ContainsDirective s → removeSqlStrMetaSync s = s)
  ∧ (∀ s, removeSqlStrMetaSync s = s → ¬ ContainsDirective s)
  ∧ (∀ ds, Forall OneLineDirective ds → removeSqlStrMetaSync (concat ds) = [])
  ∧ (∀ ds, Forall Directive ds → removeSqlStrMetaSync (concat ds) = [])
  ∧ (∀ ds, Forall LooseDirective ds →
       Forall isNewline (removeSqlStrMetaSync (concat ds))).
Proof.
  split; [exact sanitize_identity|].
  split; [intros s Heq Hc; exact (sanitize_changes s Hc Heq)|].
  split; [|split; [exact sanitize_directives | exact sanitize_loose_directives]].
  intros ds Hds. apply sanitize_directives.
  eapply Forall_impl; [exact Hds | exact OneLineDirective_Directive].
Qed.

End SanitizerTheorems.

Section SanitizerExamples.

Lemma sanitizer_identity_and_annihilation_witness :
  ¬ ContainsDirective (lit "CREATE TABLE t (id INT);" ++ [CHAR_LF])
  ∧ removeSqlStrMetaSync (lit "CREATE TABLE t (id INT);" ++ [CHAR_LF])
    = lit "CREATE TABLE t (id INT);" ++ [CHAR_LF]
  ∧ Forall OneLineDirective [lit "/*!40101 SET NAMES utf8 */;" ++ [CHAR_CR; CHAR_LF; CHAR_LF];
                             lit "/*!40101 SET x = 1 */;"]
  ∧ removeSqlStrMetaSync
      (concat [lit "/*!40101 SET NAMES utf8 */;" ++ [CHAR_CR; CHAR_LF; CHAR_LF];
               lit "/*!40101 SET x = 1 */;"]) = []
  ∧ Forall LooseDirective [lit "/*!40101 SET NAMES utf8 */;" ++ [CHAR_CR; CHAR_CR; CHAR_LF]]
  ∧ Forall isNewline
      (removeSqlStrMetaSync
         (concat [lit "/*!40101 SET NAMES utf8 */;" ++ [CHAR_CR; CHAR_CR; CHAR_LF]])).
Proof.
  destruct sanitizer_identity_and_annihilation as (Hid & _ & Hann & _ & Hloose).
  assert (H1 : ¬ ContainsDirective (lit "CREATE TABLE t (id INT);" ++ [CHAR_LF])).
  { intros Hc. apply (sanitize_changes _ Hc). vm_compute. reflexivity. }
  assert (H2 : Forall OneLineDirective
                 [lit "/*!40101 SET NAMES utf8 */;" ++ [CHAR_CR; CHAR_LF; CHAR_LF];
                  lit "/*!40101 SET x = 1 */;"]).
  { constructor; [|constructor; [|constructor]].
    - exists (lit "/*!40101 SET NAMES utf8 */;"), [CHAR_CR; CHAR_LF; CHAR_LF].
      split; [reflexivity|]. split; [|split; [compute_done | repeat constructor]].
      exists (lit "40101"), (lit " SET NAMES utf8 ").
      split; [vm_compute; reflexivity|]. split; [discriminate|].
      split; [compute_done|].
      intros Ho. apply occursb_spec in Ho. vm_compute in Ho. discriminate.
    - exists (lit "/*!40101 SET x = 1 */;"), [].
      split; [vm_compute; reflexivity|]. split; [|split; [compute_done | constructor]].
      exists (lit "40101"), (lit " SET x = 1 ").
      split; [vm_compute; reflexivity|]. split; [discriminate|].
      split; [compute_done|].
      intros Ho. apply occursb_spec in Ho. vm_compute in Ho. discriminate. }
  assert (H3 : Forall LooseDirective
                 [lit "/*!40101 SET NAMES utf8 */;" ++ [CHAR_CR; CHAR_CR; CHAR_LF]]).
  { constructor; [|constructor].
    exists (lit "40101 SET NAMES utf8 "), [CHAR_CR; CHAR_CR; CHAR_LF].
    split; [vm_compute; reflexivity|]. split; [discriminate|].
    split; [compute_done|].
    constructor; [right; reflexivity|]. constructor; [right; reflexivity|].
    constructor; [left; reflexivity | constructor]. }
  split; [exact H1|]. split; [exact (Hid _ H1)|].
  split; [exact H2|]. split; [exact (Hann _ H2)|].
  split; [exact H3 | exact (Hloose _ H3)].
Defined.

(** C5 as the specification words it fails in both halves.  A block that
    runs over two lines is a directive of the specification, and the
    sanitizer returns it as it is.  A string in which the version-gated
    block ends without a semicolon holds no directive of the
    specification, and the sanitizer deletes all of it, from the opener
    to the semicolon behind a later comment. *)
Lemma sanitizer_multiline_directive_counterexample :
  DirectiveOnly multiLineDirective
  ∧ removeSqlStrMetaSync multiLineDirective = multiLineDirective
  ∧ ¬ Forall isNewline (removeSqlStrMetaSync multiLineDirective)
  ∧ DirectiveFree unterminatedBlock
  ∧ removeSqlStrMetaSync unterminatedBlock = []
  ∧ removeSqlStrMetaSync unterminatedBlock ≠ unterminatedBlock.
Proof.
  split; [|split; [vm_compute; reflexivity|split; [|split; [|split]]]].
  - exists [multiLineDirective]. split; [vm_compute; reflexivity|].
    constructor; [|constructor].
    exists multiLineDirective, []. split; [vm_compute; reflexivity|].
    split; [|constructor].
    exists (lit "50100"), (lit " PARTITION BY HASH (id)" ++ [CHAR_LF] ++ lit "PARTITIONS 4 ").
    split; [vm_compute; reflexivity|]. split; [discriminate|].
    split; [compute_done|].
    intros Ho. apply occursb_spec in Ho. vm_compute in Ho. discriminate.
  - intros Hall. vm_compute in Hall. inversion Hall as [|c l [Hc | Hc] _]; discriminate.
  - apply DirectiveFree_check. vm_compute. reflexivity.
  - vm_compute. reflexivity.
  - vm_compute. discriminate.
Qed.

(** C10.  Text between two directives on one line goes away with them.
    The statement [CREATE TABLE t (id INT);] holds no directive and the
    sanitizer leaves it alone; written on one line between two directives,
    it is deleted; written on a line of its own, it is kept.  In general
    the match runs from the first opener to the last closer of the line,
    whatever stands between them. *)
Theorem sanitizer_deletes_sql_between_directives :
  removeSqlStrMetaSync (lit " CREATE TABLE t (id INT); ") = lit " CREATE TABLE t (id INT); "
  ∧ removeSqlStrMetaSync
      (lit "/*!40101 SET @a = 1 */;" ++ lit " CREATE TABLE t (id INT); "
       ++ lit "/*!40101 SET @b = 2 */;") = []
  ∧ removeSqlStrMetaSync
      (lit "/*!40101 SET @a = 1 */;" ++ [CHAR_LF] ++ lit " CREATE TABLE t (id INT); "
       ++ [CHAR_LF] ++ lit "/*!40101 SET @b = 2 */;")
    = lit " CREATE TABLE t (id INT); " ++ [CHAR_LF]
  ∧ (∀ body1 sql body2,
       body1 ≠ [] → noLineTerminator body1 → noLineTerminator sql → noLineTerminator body2 →
       removeSqlStrMetaSync
         (OPEN ++ body1 ++ CLOSE ++ sql ++ OPEN ++ body2 ++ CLOSE) = []).
Proof.
  split; [vm_compute; reflexivity|].
  split; [vm_compute; reflexivity|].
  split; [vm_compute; reflexivity|].
  intros body1 sql body2 Hne H1 Hsql H2.
  pose proof (sanitize_directives [OPEN ++ body1 ++ CLOSE ++ sql ++ OPEN ++ body2 ++ CLOSE]) as H.
  cbn [concat] in H. rewrite app_nil_r in H. apply H.
  constructor; [|constructor].
  exists (body1 ++ CLOSE ++ sql ++ OPEN ++ body2), [].
  split; [rewrite app_nil_r, <- !app_assoc; reflexivity|].
  split; [destruct body1; [contradiction | discriminate]|].
  split; [|constructor].
  apply Forall_app. split; [assumption|].
  apply Forall_app. split; [repeat constructor|].
  apply Forall_app. split; [assumption|].
  apply Forall_app. split; [repeat constructor | assumption].
Qed.

Lemma sanitizer_deletes_sql_between_directives_witness :
  lit "40101 SET @a = 1 " ≠ []
  ∧ noLineTerminator (lit "40101 SET @a = 1 ")
  ∧ noLineTerminator (lit " DROP TABLE t; ")
  ∧ noLineTerminator (lit "40101 SET @b = 2 ")
  ∧ removeSqlStrMetaSync
      (OPEN ++ lit "40101 SET @a = 1 " ++ CLOSE ++ lit " DROP TABLE t; "
       ++ OPEN ++ lit "40101 SET @b = 2 " ++ CLOSE) = [].
Proof.
  assert (H0 : lit "40101 SET @a = 1 " ≠ []) by discriminate.
  assert (H1 : noLineTerminator (lit "40101 SET @a = 1 ")) by compute_done.
  assert (H2 : noLineTerminator (lit " DROP TABLE t; ")) by compute_done.
  assert (H3 : noLineTerminator (lit "40101 SET @b = 2 ")) by compute_done.
  split; [exact H0|]. split; [exact H1|]. split; [exact H2|]. split; [exact H3|].
  destruct sanitizer_deletes_sql_between_directives as (_ & _ & _ & H).
  exact (H _ _ _ H0 H1 H2 H3).
Defined.

End SanitizerExamples.

(** ** [runPush] *)

Section MonadFacts.

Context {A B : Type}.

Lemma bind_run (m : M A) (f : A → M B) st :
  (x ← m; f x) st
  = match m st with
    | (Returned a, st') => f a st'
    | (Thrown, st') => (Thrown, st')
    end.
Proof. reflexivity. Qed.

End MonadFacts.

Lemma liveQueriesOf_app k1 k2 :
  liveQueriesOf (k1 ++ k2) = liveQueriesOf k1 ++ liveQueriesOf k2.
Proof. apply omap_app. Qed.

Lemma tmpQueriesOf_app k1 k2 :
  tmpQueriesOf (k1 ++ k2) = tmpQueriesOf k1 ++ tmpQueriesOf k2.
Proof. apply omap_app. Qed.

Section QuietFacts.

Lemma Quiet_ret {A} (a : A) : Quiet (mret a).
Proof. intros st. exists []. split; [symmetry; apply app_nil_r | reflexivity]. Qed.

Lemma Quiet_throw {A} : Quiet (@throw A).
Proof. intros st. exists []. split; [symmetry; apply app_nil_r | reflexivity]. Qed.

Lemma Quiet_getVars : Quiet getVars.
Proof. intros st. exists []. split; [symmetry; apply app_nil_r | reflexivity]. Qed.

Lemma Quiet_modifyVars f : (∀ st, trace (f st) = trace st) → Quiet (modifyVars f).
Proof.
  intros Hf st. exists []. split; [|reflexivity].
  simpl. rewrite Hf. symmetry. apply app_nil_r.
Qed.

Lemma Quiet_emit e : liveQueriesOf [e] = [] → Quiet (emit e).
Proof. intros He st. exists [e]. split; [reflexivity | exact He]. Qed.

Lemma Quiet_bind {A B} (m : M A) (f : A → M B) :
  Quiet m → (∀ a, Quiet (f a)) → Quiet (x ← m; f x).
Proof.
  intros Hm Hf st. rewrite bind_run. destruct (Hm st) as (k1 & H1 & Hq1).
  destruct (m st) as [[a|] st1]; simpl in H1.
  - destruct (Hf a st1) as (k2 & H2 & Hq2). exists (k1 ++ k2).
    rewrite H2, H1, liveQueriesOf_app, Hq1, Hq2, app_assoc. split; reflexivity.
  - exists k1. split; assumption.
Qed.

Lemma Quiet_catch {A} (m : M A) (handler : M unit) :
  Quiet m → Quiet handler → Quiet (catch_ m handler).
Proof.
  intros Hm Hh st. unfold catch_. destruct (Hm st) as (k1 & H1 & Hq1).
  destruct (m st) as [[a|] st1]; simpl in H1.
  - exists k1. split; assumption.
  - destruct (Hh st1) as (k2 & H2 & Hq2). exists (k1 ++ k2).
    rewrite H2, H1, liveQueriesOf_app, Hq1, Hq2, app_assoc. split; reflexivity.
Qed.

Lemma Quiet_forEach {A} (l : list A) (callback : A → M unit) :
  (∀ x, Quiet (callback x)) → Quiet (forEach l callback).
Proof.
  intros Hc. induction l as [|x l IH]; simpl; [apply Quiet_ret|].
  apply Quiet_bind; [apply Hc | intros _; exact IH].
Qed.

Lemma Quiet_promiseReduce {A} (l : list A) (callback : nat → A → M nat) :
  (∀ total x, Quiet (callback total x)) → ∀ total, Quiet (promiseReduce l callback total).
Proof.
  intros Hc. induction l as [|x l IH]; intros total; simpl; [apply Quiet_ret|].
  apply Quiet_bind; [apply Hc | intros total'; apply IH].
Qed.

End QuietFacts.

Ltac quiet_step :=
  first
    [ apply Quiet_ret
    | apply Quiet_throw
    | apply Quiet_getVars
    | apply Quiet_emit; reflexivity
    | apply Quiet_modifyVars; intros; reflexivity
    | apply Quiet_bind; [|intros ?]
    | apply Quiet_catch
    | apply Quiet_forEach; intros ?
    | apply Quiet_promiseReduce; intros ? ?
    | match goal with
      | |- Quiet (match ?x with _ => _ end) => destruct x
      end ].

Ltac quiet := repeat quiet_step.

Section StageFacts.

Variable W : World.
Variable cfg : Config.

Lemma addTrace_addTrace k1 k2 st : addTrace k2 (addTrace k1 st) = addTrace (k1 ++ k2) st.
Proof. unfold addTrace, set_trace. cbn. rewrite app_assoc. reflexivity. Qed.

Lemma addTrace_nil st : addTrace [] st = st.
Proof. unfold addTrace, set_trace. rewrite app_nil_r. destruct st; reflexivity. Qed.

Lemma log_run lvl msg st : log lvl msg st = (Returned tt, addTrace [EvLog lvl msg] st).
Proof. reflexivity. Qed.

Lemma connectionLiveDb_query_run sql st :
  connectionLiveDb_query W sql st
  = (Returned (liveDbQuery W (trace st) sql), addTrace [EvLiveQuery sql] st).
Proof. reflexivity. Qed.

Lemma connectionTmpDb_query_run sql st :
  connectionTmpDb_query W sql st
  = (Returned (tmpDbQuery W (trace st) sql), addTrace [EvTmpQuery sql] st).
Proof. reflexivity. Qed.

Lemma Quiet_log lvl msg : Quiet (log lvl msg).
Proof. unfold log. quiet. Qed.

Lemma Quiet_connectionTmpDb_query sql : Quiet (connectionTmpDb_query W sql).
Proof. unfold connectionTmpDb_query. quiet. Qed.

Lemma Quiet_isSqlFileSync path : Quiet (isSqlFileSync W path).
Proof. unfold isSqlFileSync, fs_lstatSync_isFile, log. quiet. Qed.

Lemma Quiet_tmpStatement stmt : Quiet (tmpStatement W stmt).
Proof.
  unfold tmpStatement. apply Quiet_bind; [apply Quiet_connectionTmpDb_query|].
  intros r. unfold log. quiet.
Qed.

Lemma Quiet_sourceFile total file : Quiet (sourceFile W cfg total file).
Proof.
  unfold sourceFile. apply Quiet_bind; [apply Quiet_isSqlFileSync|]. intros isSql.
  destruct (negb isSql); [apply Quiet_ret|].
  apply Quiet_bind; [apply Quiet_log|]. intros _.
  apply Quiet_bind; [unfold fs_readFileSync; quiet|]. intros origSqlStr.
  apply Quiet_bind; [apply Quiet_connectionTmpDb_query|]. intros r.
  apply Quiet_bind; [|intros; apply Quiet_ret].
  destruct r; [apply Quiet_bind; [apply Quiet_log | intros; apply Quiet_log] | apply Quiet_log].
Qed.

Lemma Quiet_stageReconcileAndLoad files : Quiet (stageReconcileAndLoad W cfg files).
Proof.
  unfold stageReconcileAndLoad. destruct files as [files|]; [|apply Quiet_throw].
  destruct (bool_decide (length files = 0%nat)); [apply Quiet_throw|].
  apply Quiet_bind.
  { apply Quiet_forEach. intros file.
    apply Quiet_bind; [apply Quiet_isSqlFileSync|]. intros isSql.
    destruct (negb isSql); quiet. }
  intros _. do 3 (apply Quiet_bind; [quiet | intros _]).
  apply Quiet_bind; [quiet | intros st'].
  apply Quiet_bind; [apply Quiet_log | intros _].
  apply Quiet_promiseReduce. intros total file. apply Quiet_sourceFile.
Qed.

Lemma Quiet_assembleTable total tableName : Quiet (assembleTable W cfg total tableName).
Proof.
  unfold assembleTable. apply Quiet_bind; [quiet|]. intros st.
  destruct (branchOf _ _ _);
    unfold log, fs_readFileSync, appendToPushScript, child_process_exec; quiet.
Qed.

Lemma Quiet_stageAssemble total : Quiet (stageAssemble W cfg total).
Proof.
  unfold stageAssemble. apply Quiet_bind; [quiet|]. intros st.
  apply Quiet_promiseReduce. intros. apply Quiet_assembleTable.
Qed.

Lemma Quiet_catchHandler : Quiet catchHandler.
Proof. apply Quiet_log. Qed.

Lemma Quiet_finallyHandler : Quiet (finallyHandler W cfg).
Proof.
  unfold finallyHandler, process_exit. destruct (truthy (retainsTmp cfg)); [quiet|].
  apply Quiet_bind; [apply Quiet_log | intros _].
  apply Quiet_bind; [apply Quiet_connectionTmpDb_query | intros r].
  apply Quiet_bind; [destruct r; apply Quiet_log | intros _]. quiet.
Qed.

Lemma Quiet_finally (m handler : M unit) :
  Quiet m → Quiet handler → Quiet (finally_ m handler).
Proof.
  intros Hm Hh st. unfold finally_. destruct (Hm st) as (k1 & H1 & Hq1).
  destruct (m st) as [[a|] st1]; simpl in H1;
    destruct (Hh st1) as (k2 & H2 & Hq2); exists (k1 ++ k2).
  - rewrite H2, H1, liveQueriesOf_app, Hq1, Hq2, app_assoc. split; reflexivity.
  - destruct (handler st1) as [o st2]. simpl in *.
    rewrite H2, H1, liveQueriesOf_app, Hq1, Hq2, app_assoc. split; reflexivity.
Qed.

(** The handlers that follow [SHOW TABLES], up to the assembled script. *)
Lemma Quiet_afterShowTables trueOrFalse :
  Quiet (trueOrFalse ← stageDropDb W trueOrFalse;
         trueOrFalse ← stageCreateDb W trueOrFalse;
         trueOrFalse ← stageUseDb W trueOrFalse;
         files ← stageReaddir W cfg trueOrFalse;
         total ← stageReconcileAndLoad W cfg files;
         stageAssemble W cfg total).
Proof.
  apply Quiet_bind; [apply Quiet_tmpStatement | intros t1].
  apply Quiet_bind.
  { unfold stageCreateDb. destruct (negb t1); [apply Quiet_throw|].
    apply Quiet_bind; [apply Quiet_log | intros _; apply Quiet_tmpStatement]. }
  intros t2. apply Quiet_bind.
  { unfold stageUseDb. destruct (negb t2); [apply Quiet_throw|].
    apply Quiet_bind; [apply Quiet_log | intros _; apply Quiet_tmpStatement]. }
  intros t3. apply Quiet_bind.
  { unfold stageReaddir, fs_readdir. destruct (negb t3); quiet. }
  intros files. apply Quiet_bind; [apply Quiet_stageReconcileAndLoad|].
  intros total. apply Quiet_stageAssemble.
Qed.

(** Exporting the script never throws, and sends nothing to the live
    connection. *)
Lemma Quiet_export st0 :
  Quiet (if truthy (pushScriptExportPath cfg)
         then match pushScriptExportPath cfg with
              | VStr path =>
                  catch_ (fs_writeFileSync W path (pushScript st0)) (log LvlError MsgWriteFailed)
              | _ => log LvlError MsgWriteFailed
              end
         else mret tt).
Proof.
  destruct (truthy (pushScriptExportPath cfg)); [|apply Quiet_ret].
  destruct (pushScriptExportPath cfg); try apply Quiet_log.
  apply Quiet_catch; [|apply Quiet_log].
  unfold fs_writeFileSync. quiet.
Qed.

Lemma Quiet_stageApply_dry dryRunPush total :
  truthy dryRunPush = true → Quiet (stageApply W cfg dryRunPush total).
Proof.
  intros Hdry. unfold stageApply. rewrite Hdry. simpl negb. cbv iota.
  apply Quiet_bind; [quiet | intros st0].
  apply Quiet_bind; [apply Quiet_log | intros _].
  apply Quiet_bind; [apply Quiet_export | intros _]. apply Quiet_ret.
Qed.

Lemma forEach_push_live rows : ∀ st,
  forEach rows (λ tableName,
    modifyVars (λ st, set_livedbTableNameList (livedbTableNameList st ++ [tableName]) st)) st
  = (Returned tt, set_livedbTableNameList (livedbTableNameList st ++ rows) st).
Proof.
  induction rows as [|r rows IH]; intros st.
  - simpl. rewrite app_nil_r. destruct st; reflexivity.
  - cbn [forEach]. rewrite bind_run. cbn [modifyVars]. rewrite IH.
    unfold set_livedbTableNameList. cbn. rewrite <- app_assoc. reflexivity.
Qed.

(** [SHOW TABLES] always returns to the next handler: with [true] and the
    live names stored, or with [false] after logging the error. *)
Lemma stageShowTables_run st :
  stageShowTables W st
  = match liveDbQuery W (trace st) showTablesStmt with
    | QErr err =>
        (Returned false, addTrace [EvLiveQuery showTablesStmt; EvLog LvlError (MsgErr err)] st)
    | QOk rows =>
        (Returned true,
         set_livedbTableNameList (livedbTableNameList st ++ rows)
           (addTrace [EvLiveQuery showTablesStmt] st))
    end.
Proof.
  unfold stageShowTables. rewrite bind_run, connectionLiveDb_query_run.
  destruct (liveDbQuery W (trace st) showTablesStmt) as [err | rows].
  - rewrite bind_run, log_run, addTrace_addTrace. reflexivity.
  - rewrite bind_run, forEach_push_live. reflexivity.
Qed.

End StageFacts.

Section RunFacts.

Variable W : World.
Variable cfg : Config.

Lemma fs_writeFileSync_run path content st :
  fs_writeFileSync W path content st
  = (if fsWriteFile W path content then Returned tt else Thrown,
     addTrace [EvWriteFile path content] st).
Proof.
  unfold fs_writeFileSync. rewrite bind_run. cbn [emit modifyVars].
  destruct (fsWriteFile W path content); reflexivity.
Qed.

(** The last handler under dry run, with an export path. *)
Lemma stageApply_dry_run dryRunPush total path st :
  truthy dryRunPush = true → pushScriptExportPath cfg = VStr path → path ≠ [] →
  stageApply W cfg dryRunPush total st
  = (Returned true,
     addTrace ([EvLog LvlInfo (MsgFinalPushScript (pushScript st));
                EvWriteFile path (pushScript st)]
               ++ (if fsWriteFile W path (pushScript st) then []
                   else [EvLog LvlError MsgWriteFailed])) st).
Proof.
  intros Hdry Hpath Hne. unfold stageApply. rewrite Hdry, Hpath.
  assert (Ht : truthy (VStr path) = true).
  { simpl. rewrite bool_decide_eq_false_2 by assumption. reflexivity. }
  rewrite Ht. cbn [negb]. cbv iota.
  rewrite bind_run. change (getVars st) with (Returned st, st). cbv iota beta.
  rewrite bind_run, log_run. rewrite bind_run. unfold catch_.
  rewrite fs_writeFileSync_run.
  destruct (fsWriteFile W path (pushScript st)).
  - cbn [mret M_ret]. rewrite addTrace_addTrace. reflexivity.
  - rewrite log_run. cbn [mret M_ret]. rewrite !addTrace_addTrace. reflexivity.
Qed.

(** The cleanup handler only adds to the trace. *)
Lemma finallyHandler_run st :
  ∃ o k, finallyHandler W cfg st = (o, addTrace k st).
Proof.
  unfold finallyHandler, process_exit. destruct (truthy (retainsTmp cfg)).
  - exists (Returned tt), [EvExit]. reflexivity.
  - rewrite bind_run, log_run, bind_run, connectionTmpDb_query_run.
    destruct (tmpDbQuery W _ _) as [err|rows];
      rewrite bind_run, log_run;
      change (emit EvExit) with (λ st, (Returned tt, addTrace [EvExit] st)); cbv beta;
      eexists; eexists; rewrite !addTrace_addTrace; reflexivity.
Qed.

Lemma runPush_after_showTables dryRunPush st b st1 :
  stageShowTables W st = (Returned b, st1) →
  runPush W cfg dryRunPush st
  = finally_
      (catch_
         (total ← (trueOrFalse ← stageDropDb W b;
                   trueOrFalse ← stageCreateDb W trueOrFalse;
                   trueOrFalse ← stageUseDb W trueOrFalse;
                   files ← stageReaddir W cfg trueOrFalse;
                   total ← stageReconcileAndLoad W cfg files;
                   stageAssemble W cfg total);
          stageApply W cfg dryRunPush total)
         catchHandler)
      (finallyHandler W cfg) st1.
Proof.
  intros H. unfold runPush, finally_, catch_, stagesToScript.
  rewrite !bind_run, H. reflexivity.
Qed.

Lemma runPush_after_script dryRunPush st total st1 :
  stagesToScript W cfg st = (Returned total, st1) →
  runPush W cfg dryRunPush st
  = finally_ (catch_ (stageApply W cfg dryRunPush total) catchHandler)
             (finallyHandler W cfg) st1.
Proof.
  intros H. unfold runPush, finally_, catch_. rewrite bind_run, H. reflexivity.
Qed.

(** C8.  Under dry run the live connection receives [SHOW TABLES] and
    nothing else; and when the handlers before it have produced a script
    and an export path is configured, the script is written to that path
    (right after it is logged) and is the script the run ends with. *)
Theorem dry_run_writes_but_does_not_apply dryRunPush :
  truthy dryRunPush = true →
  liveQueriesOf (trace (runPushFinal W cfg dryRunPush)) = [showTablesStmt]
  ∧ (∀ total st path,
       stagesToScript W cfg initialVars = (Returned total, st) →
       pushScriptExportPath cfg = VStr path → path ≠ [] →
       pushScript (runPushFinal W cfg dryRunPush) = pushScript st
       ∧ ∃ post,
           trace (runPushFinal W cfg dryRunPush)
           = trace st ++ EvLog LvlInfo (MsgFinalPushScript (pushScript st))
                      :: EvWriteFile path (pushScript st) :: post).
Proof.
  intros Hdry. unfold runPushFinal. split.
  - pose proof (stageShowTables_run W initialVars) as Hshow.
    assert (Hq : ∃ b st1, stageShowTables W initialVars = (Returned b, st1)
                          ∧ liveQueriesOf (trace st1) = [showTablesStmt]).
    { rewrite Hshow. destruct (liveDbQuery W _ _); eexists; eexists; split; reflexivity. }
    destruct Hq as (b & st1 & Hrun & Hq).
    rewrite (runPush_after_showTables dryRunPush _ _ _ Hrun).
    match goal with
    | |- context [finally_ ?m ?h st1] =>
        assert (HQ : Quiet (finally_ m h))
    end.
    { apply Quiet_finally; [|apply Quiet_finallyHandler].
      apply Quiet_catch; [|apply Quiet_catchHandler].
      apply Quiet_bind; [apply Quiet_afterShowTables|].
      intros total. apply Quiet_stageApply_dry, Hdry. }
    destruct (HQ st1) as (k & Hk & Hkq).
    rewrite Hk, liveQueriesOf_app, Hq, Hkq. reflexivity.
  - intros total st path Hscript Hpath Hne.
    rewrite (runPush_after_script dryRunPush _ _ _ Hscript).
    unfold finally_, catch_.
    rewrite (stageApply_dry_run dryRunPush total path st Hdry Hpath Hne).
    match goal with
    | |- context [finallyHandler W cfg ?s] =>
        destruct (finallyHandler_run s) as (o & k & ->)
    end.
    rewrite addTrace_addTrace. cbn [snd]. split; [reflexivity|].
    eexists. unfold addTrace, set_trace. cbn [trace].
    rewrite <- !app_assoc. reflexivity.
Qed.

Lemma Extends_Quiet {A} (m : M A) : Quiet m → Extends m.
Proof. intros H st. destruct (H st) as (k & Hk & _). exists k. exact Hk. Qed.

Lemma Extends_bind {A B} (m : M A) (f : A → M B) :
  Extends m → (∀ a, Extends (f a)) → Extends (x ← m; f x).
Proof.
  intros Hm Hf st. rewrite bind_run. destruct (Hm st) as (k1 & H1).
  destruct (m st) as [[a|] st1]; simpl in H1.
  - destruct (Hf a st1) as (k2 & H2). exists (k1 ++ k2).
    rewrite H2, H1, app_assoc. reflexivity.
  - exists k1. assumption.
Qed.

Lemma Extends_catch {A} (m : M A) (handler : M unit) :
  Extends m → Extends handler → Extends (catch_ m handler).
Proof.
  intros Hm Hh st. unfold catch_. destruct (Hm st) as (k1 & H1).
  destruct (m st) as [[a|] st1]; simpl in H1.
  - exists k1. assumption.
  - destruct (Hh st1) as (k2 & H2). exists (k1 ++ k2).
    rewrite H2, H1, app_assoc. reflexivity.
Qed.

Lemma Extends_finally (m handler : M unit) :
  Extends m → Extends handler → Extends (finally_ m handler).
Proof.
  intros Hm Hh st. unfold finally_. destruct (Hm st) as (k1 & H1).
  destruct (m st) as [[a|] st1]; simpl in H1;
    destruct (Hh st1) as (k2 & H2); exists (k1 ++ k2).
  - rewrite H2, H1, app_assoc. reflexivity.
  - destruct (handler st1) as [o st2]. simpl in *.
    rewrite H2, H1, app_assoc. reflexivity.
Qed.

Lemma Extends_stageApply dryRunPush total : Extends (stageApply W cfg dryRunPush total).
Proof.
  unfold stageApply.
  apply Extends_bind; [apply Extends_Quiet, Quiet_getVars | intros st0].
  apply Extends_bind; [apply Extends_Quiet, Quiet_log | intros _].
  apply Extends_bind; [apply Extends_Quiet, Quiet_export | intros _].
  destruct (negb (truthy dryRunPush)); [|apply Extends_Quiet, Quiet_ret].
  apply Extends_bind.
  { intros st. exists [EvLiveQuery (pushScript st0)]. reflexivity. }
  intros [err|rows]; apply Extends_Quiet; [|apply Quiet_ret].
  apply Quiet_bind; [apply Quiet_log | intros _; apply Quiet_ret].
Qed.

Lemma tmpStatement_run stmt st :
  ∃ b k, tmpStatement W stmt st = (Returned b, addTrace (EvTmpQuery stmt :: k) st).
Proof.
  unfold tmpStatement. rewrite bind_run, connectionTmpDb_query_run.
  destruct (tmpDbQuery W (trace st) stmt);
    rewrite bind_run, log_run, addTrace_addTrace; eexists; eexists; reflexivity.
Qed.

(** Whatever the world: when [SHOW TABLES] fails, the error is logged and
    the next call of the run drops the scratch database. *)
Lemma showTables_failure_goes_on dryRunPush err :
  liveDbQuery W [] showTablesStmt = QErr err →
  ∃ rest,
    trace (runPushFinal W cfg dryRunPush)
    = EvLiveQuery showTablesStmt :: EvLog LvlError (MsgErr err)
      :: EvTmpQuery dropDbIfExistsStmt :: rest.
Proof.
  intros Herr. unfold runPushFinal.
  pose proof (stageShowTables_run W initialVars) as Hshow.
  change (trace initialVars) with (@nil Event) in Hshow. rewrite Herr in Hshow.
  rewrite (runPush_after_showTables dryRunPush _ _ _ Hshow).
  set (st1 := addTrace [EvLiveQuery showTablesStmt; EvLog LvlError (MsgErr err)] initialVars).
  destruct (tmpStatement_run dropDbIfExistsStmt st1) as (b & k & Hdrop).
  match goal with
  | |- context [finally_ (catch_ (total ← (t ← stageDropDb W false; @?rest t); @?app total) ?h1) ?h2 st1] =>
      assert (Hgo : finally_ (catch_ (total ← (t ← stageDropDb W false; rest t); app total) h1) h2 st1
                    = finally_ (catch_ (total ← rest b; app total) h1) h2
                        (addTrace (EvTmpQuery dropDbIfExistsStmt :: k) st1));
      [unfold finally_, catch_, stageDropDb; rewrite !bind_run, Hdrop; reflexivity|];
      assert (Hext : Extends (finally_ (catch_ (total ← rest b; app total) h1) h2))
  end.
  { apply Extends_finally; [|apply Extends_Quiet, Quiet_finallyHandler].
    apply Extends_catch; [|apply Extends_Quiet, Quiet_catchHandler].
    apply Extends_bind; [|intros total; apply Extends_stageApply].
    apply Extends_Quiet.
    apply Quiet_bind.
    { unfold stageCreateDb. destruct (negb b); [apply Quiet_throw|].
      apply Quiet_bind; [apply Quiet_log | intros _; apply Quiet_tmpStatement]. }
    intros t2. apply Quiet_bind.
    { unfold stageUseDb. destruct (negb t2); [apply Quiet_throw|].
      apply Quiet_bind; [apply Quiet_log | intros _; apply Quiet_tmpStatement]. }
    intros t3. apply Quiet_bind.
    { unfold stageReaddir, fs_readdir. destruct (negb t3); quiet. }
    intros files. apply Quiet_bind; [apply Quiet_stageReconcileAndLoad|].
    intros total. apply Quiet_stageAssemble. }
  rewrite Hgo. destruct (Hext (addTrace (EvTmpQuery dropDbIfExistsStmt :: k) st1)) as (k' & Hk').
  rewrite Hk'. eexists. unfold st1, addTrace, set_trace. cbn [trace initialVars app].
  reflexivity.
Qed.

End RunFacts.

Section LoadFacts.

Variable W : World.
Variable cfg : Config.

Local Abbreviation dir := (sqlFileDirFullPath cfg).

Lemma LoadOutcomesLogged_silent base k :
  tmpQueriesOf k = [] → LoadOutcomesLogged W base k.
Proof.
  intros Hk pre q post ->. rewrite tmpQueriesOf_app in Hk.
  apply app_eq_nil in Hk as [_ Hk]. discriminate.
Qed.

Lemma LoadOutcomesLogged_app base k1 k2 :
  LoadOutcomesLogged W base k1 → LoadOutcomesLogged W (base ++ k1) k2 →
  LoadOutcomesLogged W base (k1 ++ k2).
Proof.
  intros H1 H2 pre q post Heq.
  apply app_eq_app in Heq as [l [[Hk1 Hpost] | [Hpre Hk2]]].
  - destruct l as [|e l].
    + rewrite app_nil_r in Hk1. subst k1. simpl in Hpost.
      specialize (H2 [] q post (eq_sym Hpost)). rewrite app_nil_r in H2. exact H2.
    + injection Hpost as <- ->. specialize (H1 pre q l Hk1).
      destruct (tmpDbQuery W (base ++ pre) q); destruct H1 as [post' ->];
        eexists; reflexivity.
  - subst pre. specialize (H2 l q post Hk2). rewrite <- app_assoc in H2. exact H2.
Qed.

Lemma fs_lstatSync_isFile_run path st b :
  fsLstatIsFile W path = Some b →
  fs_lstatSync_isFile W path st = (Returned b, addTrace [EvLstat path] st).
Proof.
  intros H. unfold fs_lstatSync_isFile. rewrite bind_run. cbn [emit modifyVars].
  rewrite H. reflexivity.
Qed.

Lemma fs_readFileSync_run path st content :
  fsReadFile W path = Some content →
  fs_readFileSync W path st = (Returned content, addTrace [EvReadFile path] st).
Proof.
  intros H. unfold fs_readFileSync. rewrite bind_run. cbn [emit modifyVars].
  rewrite H. reflexivity.
Qed.

Lemma isSqlFileSync_run file st :
  is_Some (fsLstatIsFile W (dir ++ file)) →
  ∃ k, isSqlFileSync W (dir ++ file) st = (Returned (isSchemaFile W cfg file), addTrace k st)
       ∧ tmpQueriesOf k = [].
Proof.
  intros [b Hb]. unfold isSqlFileSync, isSchemaFile.
  rewrite bind_run, (fs_lstatSync_isFile_run _ _ _ Hb), Hb.
  destruct b; cbn [negb andb].
  - destruct (sqlFilenameRegexp_test (dir ++ file)); cbn [negb].
    + eexists. split; reflexivity.
    + rewrite bind_run, log_run, addTrace_addTrace. eexists. split; reflexivity.
  - rewrite bind_run, log_run, addTrace_addTrace. eexists. split; reflexivity.
Qed.

(** One file: whatever the scratch database answers, the callback returns
    the counter and the reduction goes on. *)
Lemma sourceFile_run total file st :
  is_Some (fsLstatIsFile W (dir ++ file)) →
  (isSchemaFile W cfg file = true → is_Some (fsReadFile W (dir ++ file))) →
  ∃ k, sourceFile W cfg total file st = (Returned (S total), addTrace k st)
       ∧ tmpQueriesOf k = (if isSchemaFile W cfg file then [sanitizedFile W cfg file] else [])
       ∧ LoadOutcomesLogged W (trace st) k.
Proof.
  intros Hstat Hread. unfold sourceFile.
  destruct (isSqlFileSync_run file st Hstat) as (k0 & Hrun & Hk0).
  rewrite bind_run, Hrun. destruct (isSchemaFile W cfg file) eqn:Eschema; cbn [negb].
  2:{ exists k0. split; [reflexivity|]. split; [exact Hk0|].
      apply LoadOutcomesLogged_silent, Hk0. }
  destruct (Hread eq_refl) as [content Hcontent].
  rewrite bind_run, log_run, bind_run, (fs_readFileSync_run _ _ _ Hcontent).
  rewrite bind_run, connectionTmpDb_query_run, !addTrace_addTrace.
  unfold sanitizedFile. rewrite Hcontent. change (default [] (Some content)) with content.
  set (sql := removeSqlStrMetaSync content).
  set (k1 := k0 ++ [EvLog LvlInfo (MsgAboutToSource file)] ++ [EvReadFile (dir ++ file)]).
  assert (Hk1 : tmpQueriesOf k1 = []).
  { unfold k1. rewrite !tmpQueriesOf_app, Hk0. reflexivity. }
  change (trace (addTrace k1 st)) with (trace st ++ k1).
  destruct (tmpDbQuery W (trace st ++ k1) sql) as [err|rows] eqn:Eq.
  - rewrite !bind_run, !log_run, !addTrace_addTrace. cbn [mret M_ret].
    eexists. split; [reflexivity|]. split.
    + rewrite !tmpQueriesOf_app, Hk1. reflexivity.
    + rewrite <- !app_assoc. apply LoadOutcomesLogged_app;
        [apply LoadOutcomesLogged_silent, Hk1|].
      intros pre q post Heq. destruct pre as [|e pre].
      * injection Heq as <- <-. rewrite app_nil_r, Eq. eexists. reflexivity.
      * injection Heq as <- Heq. destruct pre as [|e pre]; [discriminate|].
        injection Heq as <- Heq. destruct pre as [|e pre]; [discriminate|].
        injection Heq as <- Heq. destruct pre; discriminate.
  - rewrite !bind_run, !log_run, !addTrace_addTrace. cbn [mret M_ret].
    eexists. split; [reflexivity|]. split.
    + rewrite !tmpQueriesOf_app, Hk1. reflexivity.
    + rewrite <- !app_assoc. apply LoadOutcomesLogged_app;
        [apply LoadOutcomesLogged_silent, Hk1|].
      intros pre q post Heq. destruct pre as [|e pre].
      * injection Heq as <- <-. rewrite app_nil_r, Eq. eexists. reflexivity.
      * injection Heq as <- Heq. destruct pre as [|e pre]; [discriminate|].
        injection Heq as <- Heq. destruct pre; discriminate.
Qed.

Lemma schemaFiles_cons file files :
  schemaFiles W cfg (file :: files)
  = if isSchemaFile W cfg file then file :: schemaFiles W cfg files
    else schemaFiles W cfg files.
Proof.
  unfold schemaFiles. rewrite filter_cons.
  destruct (isSchemaFile W cfg file); [rewrite decide_True by reflexivity|
                                       rewrite decide_False by discriminate]; reflexivity.
Qed.

(** The files are loaded one after the other, in list order, whatever the
    scratch database answers. *)
Lemma promiseReduce_sourceFile_run files : ∀ total st,
  (∀ f, f ∈ files → is_Some (fsLstatIsFile W (dir ++ f))) →
  (∀ f, f ∈ files → isSchemaFile W cfg f = true → is_Some (fsReadFile W (dir ++ f))) →
  ∃ k, promiseReduce files (sourceFile W cfg) total st
       = (Returned (total + length files)%nat, addTrace k st)
       ∧ tmpQueriesOf k = map (sanitizedFile W cfg) (schemaFiles W cfg files)
       ∧ LoadOutcomesLogged W (trace st) k.
Proof.
  induction files as [|file files IH]; intros total st Hstat Hread.
  - exists []. cbn [promiseReduce mret M_ret length].
    rewrite addTrace_nil, Nat.add_0_r. split; [reflexivity|]. split; [reflexivity|].
    apply LoadOutcomesLogged_silent. reflexivity.
  - destruct (sourceFile_run total file st) as (k1 & Hrun & Hq1 & Hlog1).
    { apply Hstat, elem_of_cons. left. reflexivity. }
    { apply Hread, elem_of_cons. left. reflexivity. }
    destruct (IH (S total) (addTrace k1 st)) as (k2 & Hrun2 & Hq2 & Hlog2).
    { intros f Hf. apply Hstat, elem_of_cons. right. exact Hf. }
    { intros f Hf. apply Hread, elem_of_cons. right. exact Hf. }
    exists (k1 ++ k2). cbn [promiseReduce]. rewrite bind_run, Hrun, Hrun2, addTrace_addTrace.
    split; [f_equal; f_equal; simpl; lia|]. split.
    + rewrite tmpQueriesOf_app, Hq1, Hq2, schemaFiles_cons.
      destruct (isSchemaFile W cfg file); reflexivity.
    + apply LoadOutcomesLogged_app; assumption.
Qed.

(** Listing the table names of the schema files. *)
Lemma forEach_collect_run files : ∀ st,
  (∀ f, f ∈ files → is_Some (fsLstatIsFile W (dir ++ f))) →
  ∃ k, forEach files (λ file,
         isSql ← isSqlFileSync W (dir ++ file);
         if negb isSql then mret tt
         else modifyVars (λ st,
                set_versionControlledTableNameList
                  (versionControlledTableNameList st ++ [basename file sqlExtension]) st)) st
       = (Returned tt,
          set_versionControlledTableNameList
            (versionControlledTableNameList st
             ++ map (λ file, basename file sqlExtension) (schemaFiles W cfg files))
            (addTrace k st))
       ∧ tmpQueriesOf k = [].
Proof.
  induction files as [|file files IH]; intros st Hstat.
  - exists []. cbn [forEach mret M_ret map]. rewrite addTrace_nil.
    split; [|reflexivity]. unfold schemaFiles. rewrite filter_nil. cbn [map].
    rewrite app_nil_r. destruct st; reflexivity.
  - destruct (isSqlFileSync_run file st) as (k1 & Hrun & Hq1).
    { apply Hstat, elem_of_cons. left. reflexivity. }
    cbn [forEach]. rewrite !bind_run, Hrun, schemaFiles_cons.
    destruct (isSchemaFile W cfg file); cbn [negb mret M_ret modifyVars].
    + destruct (IH (set_versionControlledTableNameList
                      (versionControlledTableNameList (addTrace k1 st)
                       ++ [basename file sqlExtension]) (addTrace k1 st)))
        as (k2 & Hrun2 & Hq2).
      { intros f Hf. apply Hstat, elem_of_cons. right. exact Hf. }
      rewrite Hrun2. exists (k1 ++ k2). split; [|rewrite tmpQueriesOf_app, Hq1, Hq2; reflexivity].
      f_equal. unfold addTrace, set_versionControlledTableNameList, set_trace. cbn.
      rewrite <- !app_assoc. reflexivity.
    + destruct (IH (addTrace k1 st)) as (k2 & Hrun2 & Hq2).
      { intros f Hf. apply Hstat, elem_of_cons. right. exact Hf. }
      rewrite Hrun2. exists (k1 ++ k2). split; [|rewrite tmpQueriesOf_app, Hq1, Hq2; reflexivity].
      f_equal. unfold addTrace, set_versionControlledTableNameList, set_trace. cbn.
      rewrite <- !app_assoc. reflexivity.
Qed.

(** The handler that receives the listing, when the listing is not empty
    and its entries can be examined and, if schema files, read. *)
Lemma stageReconcileAndLoad_run files st :
  files ≠ [] →
  (∀ f, f ∈ files → is_Some (fsLstatIsFile W (dir ++ f))) →
  (∀ f, f ∈ files → isSchemaFile W cfg f = true → is_Some (fsReadFile W (dir ++ f))) →
  ∃ st' k,
    stageReconcileAndLoad W cfg (Some files) st = (Returned (length files), st')
    ∧ trace st' = trace st ++ k
    ∧ tmpQueriesOf k = map (sanitizedFile W cfg) (schemaFiles W cfg files)
    ∧ LoadOutcomesLogged W (trace st) k
    ∧ (∀ (B : Type) (next : nat → M B),
         (total ← stageReconcileAndLoad W cfg (Some files); next total) st
         = next (length files) st')
    ∧ Reconciled st'
    ∧ pushScript st' = pushScript st
    ∧ livedbTableNameList st' = livedbTableNameList st
    ∧ versionControlledTableNameList st'
      = versionControlledTableNameList st
        ++ map (λ file, basename file sqlExtension) (schemaFiles W cfg files).
Proof.
  intros Hne Hstat Hread.
  destruct (forEach_collect_run files st Hstat) as (k1 & Hrun1 & Hq1).
  set (vc := versionControlledTableNameList st
             ++ map (λ file, basename file sqlExtension) (schemaFiles W cfg files)) in *.
  set (live := livedbTableNameList st).
  set (lists := EvLog LvlInfo
                  (MsgLists vc live (mergeTwoListsSync vc live)
                     (getExclusiveImageRemoteNameListInFirstOperandSync vc live)
                     (getExclusiveImageRemoteNameListInFirstOperandSync live vc))).
  set (s0 := mkVars (pushScript st) vc live (mergeTwoListsSync vc live)
               (getExclusiveImageRemoteNameListInFirstOperandSync vc live)
               (getExclusiveImageRemoteNameListInFirstOperandSync live vc)
               (trace st ++ k1 ++ [lists])).
  destruct (promiseReduce_sourceFile_run files 0%nat s0 Hstat Hread)
    as (k2 & Hrun2 & Hq2 & Hlog2).
  change (0 + length files)%nat with (length files) in Hrun2.
  assert (Hstage : stageReconcileAndLoad W cfg (Some files) st
                   = (Returned (length files), addTrace k2 s0)).
  { unfold stageReconcileAndLoad.
    rewrite bool_decide_eq_false_2 by (destruct files; [contradiction | discriminate]).
    rewrite bind_run, Hrun1.
    do 3 (rewrite bind_run; cbn [modifyVars]).
    rewrite bind_run. cbn [getVars]. rewrite bind_run, log_run.
    rewrite <- Hrun2. f_equal.
    unfold s0, lists, live, addTrace, set_trace, set_exclusiveLivedbTableNameList,
      set_exclusiveVersionControlledTableNameList, set_mergedTableNameList,
      set_versionControlledTableNameList.
    cbn. rewrite <- !app_assoc. reflexivity. }
  exists (addTrace k2 s0), (k1 ++ [lists] ++ k2).
  split; [exact Hstage|].
  split; [unfold s0, addTrace, set_trace; cbn; rewrite <- !app_assoc; reflexivity|].
  split; [rewrite !tmpQueriesOf_app, Hq1, Hq2; reflexivity|].
  split.
  { apply LoadOutcomesLogged_app; [apply LoadOutcomesLogged_silent, Hq1|].
    apply LoadOutcomesLogged_app; [apply LoadOutcomesLogged_silent; reflexivity|].
    unfold s0 in Hlog2. cbn [trace] in Hlog2.
    rewrite <- !app_assoc. exact Hlog2. }
  split; [intros B next; rewrite bind_run, Hstage; reflexivity|].
  unfold Reconciled, s0, addTrace. cbn. repeat split; reflexivity.
Qed.

(** C7.  The handler that loads the files, for a listing that is not empty
    and whose entries can be examined and, if schema files, read: every
    schema file is sent to the scratch database, sanitized, in list order,
    whatever the answers; a refused statement is followed at once by the
    error log and the warning that the file was not sourced; the handler
    returns, so that the handler that follows (script assembly) runs, from
    variables that hold the reconciled lists and an untouched script. *)
Theorem load_failures_are_recoverable files st :
  files ≠ [] →
  (∀ f, f ∈ files → is_Some (fsLstatIsFile W (dir ++ f))) →
  (∀ f, f ∈ files → isSchemaFile W cfg f = true → is_Some (fsReadFile W (dir ++ f))) →
  ∃ st' k,
    stageReconcileAndLoad W cfg (Some files) st = (Returned (length files), st')
    ∧ trace st' = trace st ++ k
    ∧ tmpQueriesOf k = map (sanitizedFile W cfg) (schemaFiles W cfg files)
    ∧ LoadOutcomesLogged W (trace st) k
    ∧ (∀ (B : Type) (next : nat → M B),
         (total ← stageReconcileAndLoad W cfg (Some files); next total) st
         = next (length files) st')
    ∧ Reconciled st'
    ∧ pushScript st' = pushScript st
    ∧ livedbTableNameList st' = livedbTableNameList st
    ∧ versionControlledTableNameList st'
      = versionControlledTableNameList st
        ++ map (λ file, basename file sqlExtension) (schemaFiles W cfg files).
Proof. apply stageReconcileAndLoad_run. Qed.

(** The guard on the listing: an unreadable or empty listing throws; a
    listing without any schema file does not, and leaves the list of
    file-defined names as it was. *)
Lemma stageReconcileAndLoad_guard files st :
  (stageReconcileAndLoad W cfg None st = (Thrown, st))
  ∧ (stageReconcileAndLoad W cfg (Some []) st = (Thrown, st))
  ∧ (files ≠ [] →
     (∀ f, f ∈ files → is_Some (fsLstatIsFile W (dir ++ f))) →
     schemaFiles W cfg files = [] →
     ∃ st', stageReconcileAndLoad W cfg (Some files) st = (Returned (length files), st')
            ∧ versionControlledTableNameList st' = versionControlledTableNameList st
            ∧ mergedTableNameList st'
              = mergeTwoListsSync (versionControlledTableNameList st) (livedbTableNameList st)
            ∧ exclusiveLivedbTableNameList st'
              = getExclusiveImageRemoteNameListInFirstOperandSync
                  (livedbTableNameList st) (versionControlledTableNameList st)).
Proof.
  split; [reflexivity|]. split; [reflexivity|]. intros Hne Hstat Hnone.
  destruct (stageReconcileAndLoad_run files st Hne Hstat)
    as (st' & k & Hrun & _ & _ & _ & _ & (Hm & _ & Hl) & _ & Hlive & Hvc).
  { intros f Hf Hschema. exfalso.
    assert (Hin : f ∈ schemaFiles W cfg files)
      by (unfold schemaFiles; apply list_elem_of_filter; tauto).
    rewrite Hnone in Hin. apply elem_of_nil in Hin. exact Hin. }
  rewrite Hnone in Hvc. cbn [map] in Hvc. rewrite app_nil_r in Hvc.
  exists st'. split; [exact Hrun|]. split; [exact Hvc|].
  rewrite Hm, Hl, Hvc, Hlive. split; reflexivity.
Qed.

End LoadFacts.

Section AssembleFacts.

Variable W : World.
Variable cfg : Config.

Local Abbreviation dir := (sqlFileDirFullPath cfg).

Lemma elem_of_exclusive A B x :
  x ∈ getExclusiveImageRemoteNameListInFirstOperandSync A B ↔ x ∈ A ∧ x ∉ B.
Proof. rewrite exclusive_filter, list_elem_of_filter. tauto. Qed.

(** One table: the fragment of its branch and a line feed are appended. *)
Lemma assembleTable_run total t st :
  exclusiveVersionControlledTableNameList st
    = getExclusiveImageRemoteNameListInFirstOperandSync
        (versionControlledTableNameList st) (livedbTableNameList st) →
  exclusiveLivedbTableNameList st
    = getExclusiveImageRemoteNameListInFirstOperandSync
        (livedbTableNameList st) (versionControlledTableNameList st) →
  t ∈ versionControlledTableNameList st ∨ t ∈ livedbTableNameList st →
  (t ∈ versionControlledTableNameList st → t ∉ livedbTableNameList st →
   is_Some (fsReadFile W (dir ++ t ++ sqlExtension))) →
  ∃ frag k,
    assembleTable W cfg total t st
    = (Returned (S total),
       set_pushScript (pushScript st ++ (frag ++ [CHAR_LF])) (addTrace k st))
    ∧ Fragment W cfg (versionControlledTableNameList st) (livedbTableNameList st) t frag.
Proof.
  intros HexVC HexLive Hin Hread. unfold assembleTable.
  rewrite bind_run. cbn [getVars].
  destruct (branchOf _ _ t) eqn:Ebranch.
  - apply branchOf_create in Ebranch. rewrite HexVC, elem_of_exclusive in Ebranch.
    destruct Ebranch as [Hvc Hlive]. destruct (Hread Hvc Hlive) as [orig Horig].
    rewrite bind_run, log_run, bind_run, (fs_readFileSync_run W _ _ _ Horig).
    rewrite bind_run. unfold appendToPushScript. cbn [modifyVars mret M_ret].
    rewrite addTrace_addTrace.
    exists (removeSqlStrMetaSync orig). eexists. split; [reflexivity|].
    left. split; [assumption|]. split; [assumption|]. exists orig. tauto.
  - apply branchOf_drop in Ebranch as [_ Hlive]. rewrite HexLive, elem_of_exclusive in Hlive.
    rewrite bind_run, log_run, bind_run. unfold appendToPushScript. cbn [modifyVars mret M_ret].
    exists (dropTableIfExistsStmt t). eexists. split; [reflexivity|].
    right. left. unfold dropTableIfExistsStmt. tauto.
  - apply branchOf_diff in Ebranch as [HnVC HnLive].
    rewrite HexVC, elem_of_exclusive in HnVC. rewrite HexLive, elem_of_exclusive in HnLive.
    rewrite bind_run, log_run, bind_run. unfold child_process_exec.
    rewrite bind_run. cbn [emit modifyVars mret M_ret].
    rewrite bind_run. unfold appendToPushScript. cbn [modifyVars mret M_ret].
    exists (execStdout W (mysqldiffCmd cfg t)). eexists.
    split.
    { change (set_trace (trace (addTrace ?a st) ++ ?b) (addTrace ?a st))
        with (addTrace b (addTrace a st)).
      rewrite addTrace_addTrace. reflexivity. }
    right. right.
    destruct (decide (t ∈ versionControlledTableNameList st)),
             (decide (t ∈ livedbTableNameList st)); tauto.
Qed.

Lemma promiseReduce_assembleTable_run l : ∀ total st,
  exclusiveVersionControlledTableNameList st
    = getExclusiveImageRemoteNameListInFirstOperandSync
        (versionControlledTableNameList st) (livedbTableNameList st) →
  exclusiveLivedbTableNameList st
    = getExclusiveImageRemoteNameListInFirstOperandSync
        (livedbTableNameList st) (versionControlledTableNameList st) →
  (∀ t, t ∈ l → t ∈ versionControlledTableNameList st ∨ t ∈ livedbTableNameList st) →
  (∀ t, t ∈ versionControlledTableNameList st → t ∉ livedbTableNameList st →
        is_Some (fsReadFile W (dir ++ t ++ sqlExtension))) →
  ∃ frags k,
    promiseReduce l (assembleTable W cfg) total st
    = (Returned (total + length l)%nat,
       set_pushScript (pushScript st ++ concat (map (λ frag, frag ++ [CHAR_LF]) frags))
                      (addTrace k st))
    ∧ Forall2 (Fragment W cfg (versionControlledTableNameList st) (livedbTableNameList st))
              l frags.
Proof.
  induction l as [|t l IH]; intros total st HexVC HexLive Hin Hread.
  - exists [], []. cbn [promiseReduce mret M_ret map concat length].
    rewrite addTrace_nil, app_nil_r, Nat.add_0_r. split; [|constructor].
    destruct st; reflexivity.
  - destruct (assembleTable_run total t st HexVC HexLive) as (frag & k1 & Hrun & Hfrag).
    { apply Hin, elem_of_cons. left. reflexivity. }
    { apply Hread. }
    set (st1 := set_pushScript (pushScript st ++ (frag ++ [CHAR_LF])) (addTrace k1 st)) in *.
    destruct (IH (S total) st1) as (frags & k2 & Hrun2 & Hfrags).
    { exact HexVC. }
    { exact HexLive. }
    { intros t' Ht'. apply Hin, elem_of_cons. right. exact Ht'. }
    { exact Hread. }
    exists (frag :: frags), (k1 ++ k2). cbn [promiseReduce]. rewrite bind_run, Hrun, Hrun2.
    split; [|constructor; assumption].
    f_equal; [f_equal; simpl; lia|].
    unfold st1, set_pushScript, addTrace, set_trace. cbn.
    rewrite <- !app_assoc. reflexivity.
Qed.

(** The whole handler, from reconciled variables. *)
Lemma stageAssemble_run total st :
  Reconciled st →
  (∀ t, t ∈ versionControlledTableNameList st → t ∉ livedbTableNameList st →
        is_Some (fsReadFile W (dir ++ t ++ sqlExtension))) →
  ∃ st' frags,
    stageAssemble W cfg total st = (Returned (length (mergedTableNameList st)), st')
    ∧ Forall2 (Fragment W cfg (versionControlledTableNameList st) (livedbTableNameList st))
              (mergedTableNameList st) frags
    ∧ pushScript st' = pushScript st ++ concat (map (λ frag, frag ++ [CHAR_LF]) frags).
Proof.
  intros (Hmerged & HexVC & HexLive) Hread. unfold stageAssemble.
  rewrite bind_run. cbn [getVars].
  destruct (promiseReduce_assembleTable_run (mergedTableNameList st) 0%nat st HexVC HexLive)
    as (frags & k & Hrun & Hfrags).
  { intros t Ht. rewrite Hmerged in Ht. apply elem_of_merged in Ht. exact Ht. }
  { exact Hread. }
  eexists. exists frags. split; [exact Hrun|]. split; [exact Hfrags | reflexivity].
Qed.

End AssembleFacts.

(** ** The claims about whole runs *)

Section RunTheorems.

Import Scenarios.

(** C2.  From reconciled variables, and when the files of the new tables
    can be read, script assembly appends to the script one fragment per
    name of the merged list, in the order of that list, each followed by a
    line feed whether it is empty or not: the sanitized file for a name
    only in the files, [DROP TABLE IF EXISTS name] for a name only live,
    the output of the diff command for a name in both.  With the files
    [a.sql] and [b.sql] and the live tables [b] and [c], a run ends with
    the script: file of [a], diff of [b], drop of [c]. *)
Theorem push_script_assembly :
  (∀ W cfg total st,
     Reconciled st →
     (∀ t, t ∈ versionControlledTableNameList st → t ∉ livedbTableNameList st →
           is_Some (fsReadFile W (sqlFileDirFullPath cfg ++ t ++ sqlExtension))) →
     ∃ st' frags,
       stageAssemble W cfg total st = (Returned (length (mergedTableNameList st)), st')
       ∧ Forall2 (Fragment W cfg (versionControlledTableNameList st) (livedbTableNameList st))
                 (mergedTableNameList st) frags
       ∧ pushScript st' = pushScript st ++ concat (map (λ frag, frag ++ [CHAR_LF]) frags))
  ∧ mergedTableNameList (runPushFinal worldAB config (VBool true))
    = [lit "a"; lit "b"; lit "c"]
  ∧ pushScript (runPushFinal worldAB config (VBool true))
    = lit "CREATE TABLE a (id INT);" ++ [CHAR_LF]
      ++ lit "ALTER TABLE b ADD COLUMN n INT;" ++ [CHAR_LF]
      ++ lit "DROP TABLE IF EXISTS c" ++ [CHAR_LF].
Proof.
  split; [intros W cfg total st; apply stageAssemble_run|].
  split; vm_compute; reflexivity.
Qed.

Lemma push_script_assembly_witness :
  Reconciled varsAB
  ∧ ∃ st' frags,
      stageAssemble worldAB config 2%nat varsAB = (Returned 3%nat, st')
      ∧ Forall2 (Fragment worldAB config [lit "a"; lit "b"] [lit "b"; lit "c"])
                [lit "a"; lit "b"; lit "c"] frags
      ∧ pushScript st' = [] ++ concat (map (λ frag, frag ++ [CHAR_LF]) frags).
Proof.
  assert (Hrec : Reconciled varsAB).
  { unfold Reconciled. repeat split; vm_compute; reflexivity. }
  split; [exact Hrec|].
  apply (proj1 push_script_assembly worldAB config 2%nat varsAB Hrec).
  intros t _ _. simpl. case_bool_decide; eexists; reflexivity.
Defined.

(** C3, on the code: a run in which the live connection refuses
    [SHOW TABLES] (and every other statement).  The error is logged and
    the run goes on: the scratch database is dropped, created and
    selected, the file is loaded, the script is assembled, exported and
    sent to the live connection. *)
Theorem show_tables_failure_does_not_abort :
  liveDbQuery worldLiveDown [] showTablesStmt = QErr connectionRefused
  ∧ trace (runPushFinal worldLiveDown config (VBool false))
    = [ EvLiveQuery showTablesStmt;
        EvLog LvlError (MsgErr connectionRefused);
        EvTmpQuery dropDbIfExistsStmt;
        EvLog LvlDebug MsgResultFields;
        EvLog LvlInfo MsgAboutToCreateDb;
        EvTmpQuery createDbStmt;
        EvLog LvlDebug MsgResultFields;
        EvLog LvlInfo MsgAboutToUseDb;
        EvTmpQuery useTmpDbStmt;
        EvLog LvlDebug MsgResultFields;
        EvReaddir repoDir;
        EvLstat (repoDir ++ lit "a.sql");
        EvLog LvlInfo (MsgLists [lit "a"] [] [lit "a"] [lit "a"] []);
        EvLstat (repoDir ++ lit "a.sql");
        EvLog LvlInfo (MsgAboutToSource (lit "a.sql"));
        EvReadFile (repoDir ++ lit "a.sql");
        EvTmpQuery (lit "CREATE TABLE a (id INT);");
        EvLog LvlInfo MsgSourced;
        EvLog LvlInfo MsgNewTable;
        EvReadFile (repoDir ++ lit "a.sql");
        EvLog LvlInfo (MsgFinalPushScript (lit "CREATE TABLE a (id INT);" ++ [CHAR_LF]));
        EvWriteFile (lit "/repo/push_script.sql") (lit "CREATE TABLE a (id INT);" ++ [CHAR_LF]);
        EvLiveQuery (lit "CREATE TABLE a (id INT);" ++ [CHAR_LF]);
        EvLog LvlError (MsgErr connectionRefused);
        EvExit ].
Proof. split; vm_compute; reflexivity. Qed.

(** C4, on the code: a directory whose only entry is not a schema file.
    The guard of the handler looks at the listing before it is filtered,
    so the run goes on with no file-defined table: both live tables are
    only live, and the script that drops them is sent to the live
    connection.  The guard does throw on an empty listing. *)
Theorem no_schema_file_is_not_fatal :
  fsReaddir worldNoSchemaFiles repoDir = Some [lit "README.md"]
  ∧ schemaFiles worldNoSchemaFiles config [lit "README.md"] = []
  ∧ fst (stagesToScript worldNoSchemaFiles config initialVars) = Returned 2%nat
  ∧ versionControlledTableNameList (runPushFinal worldNoSchemaFiles config (VBool false)) = []
  ∧ pushScript (runPushFinal worldNoSchemaFiles config (VBool false))
    = lit "DROP TABLE IF EXISTS users" ++ [CHAR_LF]
      ++ lit "DROP TABLE IF EXISTS orders" ++ [CHAR_LF]
  ∧ liveQueriesOf (trace (runPushFinal worldNoSchemaFiles config (VBool false)))
    = [ showTablesStmt;
        lit "DROP TABLE IF EXISTS users" ++ [CHAR_LF]
        ++ lit "DROP TABLE IF EXISTS orders" ++ [CHAR_LF] ]
  ∧ (∀ W cfg st, stageReconcileAndLoad W cfg (Some []) st = (Thrown, st)).
Proof.
  repeat (split; [vm_compute; reflexivity|]).
  intros W cfg st. reflexivity.
Qed.

Lemma load_failures_are_recoverable_witness :
  [lit "a.sql"; lit "b.sql"; lit "c.sql"] ≠ []
  ∧ ∃ st' k,
      stageReconcileAndLoad worldBadFile config
        (Some [lit "a.sql"; lit "b.sql"; lit "c.sql"]) initialVars
      = (Returned 3%nat, st')
      ∧ trace st' = [] ++ k
      ∧ tmpQueriesOf k
        = map (sanitizedFile worldBadFile config)
              (schemaFiles worldBadFile config [lit "a.sql"; lit "b.sql"; lit "c.sql"])
      ∧ LoadOutcomesLogged worldBadFile [] k.
Proof.
  split; [discriminate|].
  destruct (load_failures_are_recoverable worldBadFile config
              [lit "a.sql"; lit "b.sql"; lit "c.sql"] initialVars)
    as (st' & k & H1 & H2 & H3 & H4 & _).
  - discriminate.
  - intros f _. eexists. reflexivity.
  - intros f _ _. simpl. repeat case_bool_decide; eexists; reflexivity.
  - exists st', k. repeat split; assumption.
Defined.

(** The scenario of the witness, run as a whole: the second file is
    refused, the third is still loaded, and the script is assembled. *)
Example bad_file_scenario :
  tmpQueriesOf (trace (runPushFinal worldBadFile config (VBool true)))
  = [ dropDbIfExistsStmt; createDbStmt; useTmpDbStmt;
      lit "CREATE TABLE a (id INT);"; lit "CREATE TABLE b (id INT";
      lit "CREATE TABLE c (id INT);" ]
  ∧ EvLog LvlWarn MsgNotSourced ∈ trace (runPushFinal worldBadFile config (VBool true))
  ∧ pushScript (runPushFinal worldBadFile config (VBool true))
    = lit "CREATE TABLE a (id INT);" ++ [CHAR_LF]
      ++ lit "CREATE TABLE b (id INT" ++ [CHAR_LF]
      ++ lit "CREATE TABLE c (id INT);" ++ [CHAR_LF].
Proof.
  split; [vm_compute; reflexivity|].
  split; [|vm_compute; reflexivity].
  apply list_elem_of_In. vm_compute. tauto.
Qed.

Lemma dry_run_writes_but_does_not_apply_witness :
  truthy (VStr (lit "false")) = true
  ∧ liveQueriesOf (trace (runPushFinal worldAB config (VStr (lit "false")))) = [showTablesStmt]
  ∧ ∃ post,
      trace (runPushFinal worldAB config (VStr (lit "false")))
      = trace (snd (stagesToScript worldAB config initialVars))
        ++ EvLog LvlInfo
             (MsgFinalPushScript (pushScript (snd (stagesToScript worldAB config initialVars))))
        :: EvWriteFile (lit "/repo/push_script.sql")
             (pushScript (snd (stagesToScript worldAB config initialVars)))
        :: post.
Proof.
  split; [reflexivity|].
  destruct (dry_run_writes_but_does_not_apply worldAB config (VStr (lit "false")) eq_refl)
    as [Hq Hw].
  split; [exact Hq|].
  destruct (Hw 3%nat (snd (stagesToScript worldAB config initialVars))
              (lit "/repo/push_script.sql")) as [_ Hpost].
  - vm_compute. reflexivity.
  - reflexivity.
  - discriminate.
  - exact Hpost.
Defined.

End RunTheorems.

(** * Further properties *)

(** ** The sanitizer *)

Section SanitizerMore.

Implicit Types (s l pre : jsstring).


Lemma sanitize_no_slash pre s :
  CHAR_SLASH ∉ pre → removeSqlStrMetaSync (pre ++ s) = pre ++ removeSqlStrMetaSync s.
Proof.
  induction pre as [|c pre IH]; intros Hno; [reflexivity|].
  rewrite not_elem_of_cons in Hno. destruct Hno as [Hc Hpre].
  change ((c :: pre) ++ s) with (c :: (pre ++ s)).
  rewrite removeSqlStrMetaSync_keep; [rewrite (IH Hpre); reflexivity|].
  unfold matchAt. destruct (matchLit OPEN (c :: pre ++ s)) as [r|] eqn:E; [|reflexivity].
  apply matchLit_Some in E. injection E as -> _. exfalso. apply Hc. reflexivity.
Qed.

(** X2.  Text in which the opener [/*!] does not occur, followed by a line
    feed, is copied as it is, line feed included; what follows is
    sanitized on its own. *)
Theorem sanitizer_keeps_plain_lines l s :
  ¬ Occurs OPEN l →
  removeSqlStrMetaSync (l ++ CHAR_LF :: s) = l ++ CHAR_LF :: removeSqlStrMetaSync s.
Proof.
  induction l as [|c l IH]; intros Hno.
  - apply removeSqlStrMetaSync_keep. reflexivity.
  - change ((c :: l) ++ CHAR_LF :: s) with (c :: (l ++ CHAR_LF :: s)).
    rewrite removeSqlStrMetaSync_keep.
    + rewrite IH; [reflexivity|]. intros (pre & post & ->). apply Hno.
      exists (c :: pre), post. reflexivity.
    + unfold matchAt. destruct (matchLit OPEN (c :: l ++ CHAR_LF :: s)) as [r|] eqn:E;
        [|reflexivity].
      exfalso. apply matchLit_Some in E.
      destruct l as [|a [|b l']]; try discriminate.
      injection E as -> -> -> _. apply Hno. exists [], l'. reflexivity.
Qed.

Lemma sanitizer_keeps_plain_lines_witness :
  ¬ Occurs OPEN (lit "CREATE TABLE t (id INT); /* note */")
  ∧ removeSqlStrMetaSync
      (lit "CREATE TABLE t (id INT); /* note */" ++ CHAR_LF :: lit "/*!40101 SET x */;")
    = lit "CREATE TABLE t (id INT); /* note */" ++ CHAR_LF :: removeSqlStrMetaSync (lit "/*!40101 SET x */;").
Proof.
  assert (Hno : ¬ Occurs OPEN (lit "CREATE TABLE t (id INT); /* note */")).
  { intros (pre & post & Heq).
    assert (Hex : existsb (λ i, bool_decide (take 3 (drop i (lit "CREATE TABLE t (id INT); /* note */")) = OPEN))
                    (seq 0 (length (lit "CREATE TABLE t (id INT); /* note */"))) = true).
    { rewrite Heq. apply existsb_exists. exists (length pre). split.
      - apply in_seq. rewrite !length_app. simpl. lia.
      - apply bool_decide_eq_true. rewrite drop_app_length. reflexivity. }
    vm_compute in Hex. discriminate. }
  split; [exact Hno|]. exact (sanitizer_keeps_plain_lines _ _ Hno).
Defined.

(** X3.  The sanitizer is not idempotent: deleting a directive and its line
    feed can join a slash on one side with [*!] on the other into a new
    directive, which a second pass deletes. *)
Theorem sanitizer_not_idempotent body1 body2 :
  body1 ≠ [] → noLineTerminator body1 →
  body2 ≠ [] → noLineTerminator body2 → CHAR_SLASH ∉ body2 →
  removeSqlStrMetaSync
    (CHAR_SLASH :: OPEN ++ body1 ++ CLOSE ++ CHAR_LF :: lit "*!" ++ body2 ++ CLOSE)
  = OPEN ++ body2 ++ CLOSE
  ∧ removeSqlStrMetaSync
      (removeSqlStrMetaSync
         (CHAR_SLASH :: OPEN ++ body1 ++ CLOSE ++ CHAR_LF :: lit "*!" ++ body2 ++ CLOSE))
    = [].
Proof.
  intros Hne1 Hlt1 Hne2 Hlt2 Hslash.
  match goal with |- ?a = ?b ∧ _ => assert (Hfirst : a = b); [|split; [exact Hfirst | rewrite Hfirst]] end.
  - rewrite removeSqlStrMetaSync_keep by reflexivity.
    destruct body1 as [|c w]; [contradiction|].
    assert (Hm : matchAt (OPEN ++ (c :: w) ++ CLOSE ++ CHAR_LF :: lit "*!" ++ body2 ++ CLOSE)
                 = Some (lit "*!" ++ body2 ++ CLOSE)).
    { change (OPEN ++ (c :: w) ++ CLOSE ++ CHAR_LF :: lit "*!" ++ body2 ++ CLOSE)
        with (OPEN ++ c :: w ++ CLOSE ++ (CHAR_LF :: lit "*!" ++ body2 ++ CLOSE)).
      rewrite (matchAt_swallow c w _ Hlt1); [reflexivity|].
      right. eexists. eexists. split; reflexivity. }
    rewrite (removeSqlStrMetaSync_match _ _ Hm).
    change (lit "*!" ++ body2 ++ CLOSE) with ([42; 33] ++ (body2 ++ CLOSE)).
    rewrite sanitize_no_slash by compute_done.
    rewrite (sanitize_no_slash body2 CLOSE Hslash). reflexivity.
  - pose proof (sanitize_directives [OPEN ++ body2 ++ CLOSE]) as H.
    cbn [concat] in H. rewrite app_nil_r in H. apply H.
    constructor; [|constructor]. exists body2, [].
    split; [rewrite app_nil_r; reflexivity|]. split; [assumption|].
    split; [assumption | constructor].
Qed.

Lemma sanitizer_not_idempotent_witness :
  removeSqlStrMetaSync (lit "//*!40101 SET a */;" ++ CHAR_LF :: lit "*!40101 SET b */;")
  = lit "/*!40101 SET b */;"
  ∧ removeSqlStrMetaSync
      (removeSqlStrMetaSync (lit "//*!40101 SET a */;" ++ CHAR_LF :: lit "*!40101 SET b */;"))
    = [].
Proof.
  apply (sanitizer_not_idempotent (lit "40101 SET a ") (lit "40101 SET b ")).
  - discriminate.
  - compute_done.
  - discriminate.
  - compute_done.
  - compute_done.
Defined.

End SanitizerMore.

(** ** The set reconciler *)

Section ReconcilerMore.

Implicit Types (A B l : list jsstring) (x : jsstring).

Lemma filter_ext_elem (P Q : jsstring → Prop)
    `{!∀ x, Decision (P x), !∀ x, Decision (Q x)} l :
  (∀ x, x ∈ l → (P x ↔ Q x)) → filter P l = filter Q l.
Proof.
  induction l as [|a l IH]; intros Hl0; [reflexivity|].
  assert (Ha : P a ↔ Q a) by (apply Hl0, elem_of_cons; tauto).
  assert (Hl : filter P l = filter Q l).
  { apply IH. intros x Hx. apply Hl0, elem_of_cons. tauto. }
  destruct (decide (P a)) as [Hp | Hp].
  - rewrite !filter_cons_True by tauto. rewrite Hl. reflexivity.
  - rewrite !filter_cons_False by tauto. exact Hl.
Qed.

Lemma filter_all (P : jsstring → Prop) `{!∀ x, Decision (P x)} l :
  (∀ x, x ∈ l → P x) → filter P l = l.
Proof.
  induction l as [|a l IH]; intros Hl0; [reflexivity|].
  rewrite filter_cons_True by (apply Hl0, elem_of_cons; tauto).
  rewrite IH; [reflexivity|]. intros x Hx. apply Hl0, elem_of_cons. tauto.
Qed.

Lemma filter_none (P : jsstring → Prop) `{!∀ x, Decision (P x)} l :
  (∀ x, x ∈ l → ¬ P x) → filter P l = [].
Proof.
  induction l as [|a l IH]; intros Hl0; [reflexivity|].
  rewrite filter_cons_False by (apply Hl0, elem_of_cons; tauto).
  apply IH. intros x Hx. apply Hl0, elem_of_cons. tauto.
Qed.

(** Adding a duplicate-free list to a set appends its new members, in
    order. *)
Lemma fold_add_NoDup_input l : ∀ (acc : JsSet),
  NoDup l → foldl set_add acc l = acc ++ filter (λ x, x ∉ acc) l.
Proof.
  induction l as [|a l IH]; intros acc Hl; simpl.
  - rewrite filter_nil, app_nil_r. reflexivity.
  - apply NoDup_cons in Hl as [Ha Hl]. rewrite (IH _ Hl). unfold set_add.
    destruct (set_has acc a) eqn:E.
    + apply set_has_true in E. rewrite filter_cons_False by tauto. reflexivity.
    + apply set_has_false in E. rewrite filter_cons_True by assumption.
      rewrite <- app_assoc. simpl. do 2 f_equal.
      apply filter_ext_elem. intros x Hx. rewrite elem_of_app, list_elem_of_singleton.
      split; [tauto|]. intros Hacc [H | ->]; tauto.
Qed.

(** X4.  For duplicate-free lists the merged list is the file list followed by
    the names that are only live, so that in the script every fragment of
    a file-defined table precedes every drop; and the names in both are
    the names of the file list that are live, in file order. *)
Theorem merged_is_files_then_only_live A B :
  NoDup A → NoDup B →
  merged A B = A ++ onlyLive A B
  ∧ onlyInFiles A B = filter (λ x, x ∉ B) A
  ∧ inBoth A B = filter (λ x, x ∈ B) A.
Proof.
  intros HA HB.
  assert (Hm : merged A B = A ++ onlyLive A B).
  { unfold merged, onlyLive. rewrite mergeTwoListsSync_fold, foldl_app, exclusive_filter.
    rewrite (fold_add_NoDup_input A set_empty HA). unfold set_empty.
    rewrite (filter_all _ A) by (intros; apply not_elem_of_nil).
    apply (fold_add_NoDup_input B _ HB). }
  split; [exact Hm|]. split; [apply exclusive_filter|].
  unfold inBoth. rewrite Hm, filter_app.
  rewrite (filter_none _ (onlyLive A B)).
  - rewrite app_nil_r. apply filter_ext_elem. intros x Hx.
    rewrite branchOf_diff, elem_of_onlyInFiles, elem_of_onlyLive.
    destruct (decide (x ∈ B)); tauto.
  - intros x Hx. rewrite branchOf_diff.
    change (getExclusiveImageRemoteNameListInFirstOperandSync B A) with (onlyLive A B).
    tauto.
Qed.

Lemma merged_is_files_then_only_live_witness :
  NoDup [lit "users"; lit "orders"] ∧ NoDup [lit "orders"; lit "legacy"]
  ∧ merged [lit "users"; lit "orders"] [lit "orders"; lit "legacy"]
    = [lit "users"; lit "orders"] ++ onlyLive [lit "users"; lit "orders"] [lit "orders"; lit "legacy"].
Proof.
  assert (HA : NoDup [lit "users"; lit "orders"]) by compute_done.
  assert (HB : NoDup [lit "orders"; lit "legacy"]) by compute_done.
  split; [exact HA|]. split; [exact HB|].
  exact (proj1 (merged_is_files_then_only_live _ _ HA HB)).
Defined.

(** X5.  Empty and identical snapshots.  Against an empty live database every
    file table is new and nothing is dropped; with no file-defined table
    every live table is only live; with the same names on both sides
    nothing is created or dropped and every name is in both. *)
Theorem reconcile_edge_cases A :
  (onlyInFiles A [] = A ∧ onlyLive A [] = [] ∧ inBoth A [] = [])
  ∧ (onlyInFiles [] A = [] ∧ onlyLive [] A = A ∧ inBoth [] A = [])
  ∧ (onlyInFiles A A = [] ∧ onlyLive A A = [] ∧ inBoth A A = merged A A)
  ∧ (NoDup A → merged A [] = A ∧ merged [] A = A ∧ merged A A = A).
Proof.
  assert (Hall : getExclusiveImageRemoteNameListInFirstOperandSync A [] = A).
  { rewrite exclusive_filter. apply filter_all. intros; apply not_elem_of_nil. }
  assert (Hself : getExclusiveImageRemoteNameListInFirstOperandSync A A = []).
  { rewrite exclusive_filter. apply filter_none. tauto. }
  split; [|split; [|split]].
  - split; [exact Hall|]. split; [reflexivity|].
    unfold inBoth. apply filter_none. intros x Hx. rewrite branchOf_diff.
    apply elem_of_merged in Hx as [Hx | Hx]; [|apply elem_of_nil in Hx; contradiction].
    unfold onlyInFiles. rewrite Hall. tauto.
  - split; [reflexivity|]. split; [exact Hall|].
    unfold inBoth. apply filter_none. intros x Hx. rewrite branchOf_diff.
    apply elem_of_merged in Hx as [Hx | Hx]; [apply elem_of_nil in Hx; contradiction|].
    unfold onlyLive. rewrite Hall. tauto.
  - split; [exact Hself|]. split; [exact Hself|].
    unfold inBoth. apply filter_all. intros x Hx. apply branchOf_diff.
    unfold onlyInFiles, onlyLive. rewrite Hself. split; apply not_elem_of_nil.
  - intros HA. unfold merged. rewrite !mergeTwoListsSync_fold, app_nil_r.
    change ([] ++ A) with A. rewrite foldl_app.
    rewrite (fold_add_NoDup_input A set_empty HA). unfold set_empty.
    rewrite (filter_all _ A) by (intros; apply not_elem_of_nil).
    split; [reflexivity|]. split; [reflexivity|].
    rewrite (fold_add_NoDup_input A _ HA), (filter_none _ A) by tauto.
    apply app_nil_r.
Qed.

Lemma reconcile_edge_cases_witness :
  NoDup [lit "a"; lit "b"] ∧ merged [lit "a"; lit "b"] [lit "a"; lit "b"] = [lit "a"; lit "b"].
Proof.
  assert (HA : NoDup [lit "a"; lit "b"]) by compute_done.
  split; [exact HA|].
  destruct (reconcile_edge_cases [lit "a"; lit "b"]) as (_ & _ & _ & H).
  exact (proj2 (proj2 (H HA))).
Defined.

End ReconcilerMore.

(** ** Paths and table names *)

Section PathFacts.

Implicit Types (s file tab : jsstring).

Lemma sqlFilenameRegexp_test_suffix s :
  sqlFilenameRegexp_test s = true ↔ sqlExtension `suffix_of` s.
Proof.
  induction s as [|c r IH].
  - split; [discriminate|]. intros [k Hk].
    apply (f_equal length) in Hk. rewrite length_app in Hk. simpl in Hk. lia.
  - cbn [sqlFilenameRegexp_test].
    destruct (matchLit sqlExtension (c :: r)) as [[|x rest]|] eqn:E.
    + apply matchLit_Some in E. split; [intros _ | reflexivity].
      exists []. rewrite E, app_nil_r. reflexivity.
    + rewrite IH. split; [apply suffix_cons_r|]. intros [k Hk].
      destruct k as [|c' k]; [|injection Hk as -> ->; exists k; reflexivity].
      simpl in Hk. apply matchLit_Some in E. rewrite Hk in E.
      apply (f_equal length) in E. rewrite length_app in E. simpl in E. lia.
    + rewrite IH. split; [apply suffix_cons_r|]. intros [k Hk].
      destruct k as [|c' k]; [|injection Hk as -> ->; exists k; reflexivity].
      simpl in Hk. assert (Hm : matchLit sqlExtension (c :: r) = Some []).
      { apply matchLit_Some. rewrite Hk, app_nil_r. reflexivity. }
      congruence.
Qed.

Lemma trailingSlashRegexp_test_suffix s :
  trailingSlashRegexp_test s = true ↔ [CHAR_SLASH] `suffix_of` s.
Proof.
  induction s as [|c r IH].
  - split; [discriminate|]. intros [k Hk].
    apply (f_equal length) in Hk. rewrite length_app in Hk. simpl in Hk. lia.
  - cbn [trailingSlashRegexp_test].
    destruct (matchLit [CHAR_SLASH] (c :: r)) as [[|x rest]|] eqn:E.
    + apply matchLit_Some in E. split; [intros _ | reflexivity].
      exists []. rewrite E. reflexivity.
    + rewrite IH. split; [apply suffix_cons_r|]. intros [k Hk].
      destruct k as [|c' k]; [|injection Hk as -> ->; exists k; reflexivity].
      simpl in Hk. apply matchLit_Some in E. rewrite Hk in E. discriminate.
    + rewrite IH. split; [apply suffix_cons_r|]. intros [k Hk].
      destruct k as [|c' k]; [|injection Hk as -> ->; exists k; reflexivity].
      simpl in Hk. assert (Hm : matchLit [CHAR_SLASH] (c :: r) = Some []).
      { apply matchLit_Some. rewrite Hk. reflexivity. }
      congruence.
Qed.

(** X6.  The extension test accepts exactly the strings that end with the four
    characters [.sql], in this case, with nothing after them. *)
Theorem sql_extension_test_is_suffix_test s :
  sqlFilenameRegexp_test s = true ↔ ∃ name, s = name ++ lit ".sql".
Proof. apply sqlFilenameRegexp_test_suffix. Qed.

Lemma sql_suffix_behind_slash d file :
  sqlExtension `suffix_of` (d ++ [CHAR_SLASH]) ++ file → sqlExtension `suffix_of` file.
Proof.
  intros [k Hk]. apply app_eq_app in Hk as [l [[Hd Hext] | [_ Hfile]]].
  - destruct l as [|x l _] using rev_ind.
    + exists []. symmetry. exact Hext.
    + exfalso. rewrite app_assoc in Hd. apply app_inj_tail in Hd as [_ <-].
      assert (Hin : CHAR_SLASH ∈ sqlExtension).
      { rewrite Hext, !elem_of_app, list_elem_of_singleton. tauto. }
      revert Hin. compute_done.
  - exists l. exact Hfile.
Qed.

(** X7.  The directory path computed from the [--tab] argument: the argument
    with a slash added unless it ends with one.  It always ends with a
    slash, computing it twice changes nothing, and behind it the
    extension test depends on the entry name alone. *)
Theorem directory_path_is_normalized tab :
  [CHAR_SLASH] `suffix_of` sqlFileDirFullPath_of tab
  ∧ tab `prefix_of` sqlFileDirFullPath_of tab
  ∧ sqlFileDirFullPath_of (sqlFileDirFullPath_of tab) = sqlFileDirFullPath_of tab
  ∧ (∀ file, sqlFilenameRegexp_test (sqlFileDirFullPath_of tab ++ file)
             = sqlFilenameRegexp_test file).
Proof.
  assert (Hslash : [CHAR_SLASH] `suffix_of` sqlFileDirFullPath_of tab).
  { unfold sqlFileDirFullPath_of. destruct (trailingSlashRegexp_test tab) eqn:E.
    - apply trailingSlashRegexp_test_suffix, E.
    - exists tab. reflexivity. }
  split; [exact Hslash|]. split.
  { unfold sqlFileDirFullPath_of. destruct (trailingSlashRegexp_test tab).
    - exists []. symmetry. apply app_nil_r.
    - exists [CHAR_SLASH]. reflexivity. }
  split.
  { apply trailingSlashRegexp_test_suffix in Hslash.
    unfold sqlFileDirFullPath_of at 1. rewrite Hslash. reflexivity. }
  intros file. destruct Hslash as [d Hd]. rewrite Hd.
  destruct (sqlFilenameRegexp_test file) eqn:E.
  - apply sqlFilenameRegexp_test_suffix. apply sqlFilenameRegexp_test_suffix in E.
    apply suffix_app_r, E.
  - destruct (sqlFilenameRegexp_test ((d ++ [CHAR_SLASH]) ++ file)) eqn:E'; [|reflexivity].
    apply sqlFilenameRegexp_test_suffix, sql_suffix_behind_slash in E'.
    apply sqlFilenameRegexp_test_suffix in E'. congruence.
Qed.

Lemma basename_strips name :
  basename (name ++ sqlExtension) sqlExtension = name.
Proof.
  unfold basename. destruct name as [|c name].
  - reflexivity.
  - rewrite bool_decide_eq_false_2.
    2:{ intros H. apply (f_equal length) in H. rewrite length_app in H. simpl in H. lia. }
    assert (Hlen : (length ((c :: name) ++ sqlExtension) - length sqlExtension
                    = length (c :: name))%nat) by (rewrite length_app; lia).
    rewrite Hlen, drop_app_length, bool_decide_eq_true_2 by reflexivity.
    apply take_app_length.
Qed.

Lemma basename_restores file :
  sqlFilenameRegexp_test file = true → basename file sqlExtension ++ sqlExtension = file.
Proof.
  intros Hf. apply sqlFilenameRegexp_test_suffix in Hf as [name ->].
  rewrite basename_strips. reflexivity.
Qed.

Lemma basename_injective file file' :
  sqlFilenameRegexp_test file = true → sqlFilenameRegexp_test file' = true →
  basename file sqlExtension = basename file' sqlExtension → file = file'.
Proof.
  intros H H' Heq. rewrite <- (basename_restores file H), <- (basename_restores file' H'), Heq.
  reflexivity.
Qed.

(** X8.  Table name and file name.  Putting the extension back on the table
    name of an entry that ends in [.sql] gives the entry, so that script
    assembly reads the file that was loaded; two such entries with the
    same table name are the same entry; an entry without the extension is
    its own table name. *)
Theorem table_name_round_trip file :
  (sqlFilenameRegexp_test file = true →
   basename file sqlExtension ++ sqlExtension = file)
  ∧ (∀ file', sqlFilenameRegexp_test file = true → sqlFilenameRegexp_test file' = true →
              basename file sqlExtension = basename file' sqlExtension → file = file')
  ∧ (sqlFilenameRegexp_test file = false → basename file sqlExtension = file).
Proof.
  split; [apply basename_restores|]. split.
  - intros file'. apply basename_injective.
  - intros Hno. unfold basename.
    rewrite bool_decide_eq_false_2.
    2:{ intros <-. discriminate. }
    rewrite bool_decide_eq_false_2; [reflexivity|].
    intros Hdrop. assert (Hs : sqlFilenameRegexp_test file = true); [|congruence].
    apply sqlFilenameRegexp_test_suffix.
    exists (take (length file - length sqlExtension) file).
    rewrite <- Hdrop at 2. symmetry. apply take_drop.
Qed.

Lemma table_name_round_trip_witness :
  sqlFilenameRegexp_test (lit "users.sql") = true
  ∧ basename (lit "users.sql") sqlExtension ++ sqlExtension = lit "users.sql"
  ∧ sqlFilenameRegexp_test (lit "users.SQL") = false
  ∧ basename (lit "users.SQL") sqlExtension = lit "users.SQL".
Proof.
  destruct (table_name_round_trip (lit "users.sql")) as (H1 & _ & _).
  destruct (table_name_round_trip (lit "users.SQL")) as (_ & _ & H3).
  split; [reflexivity|]. split; [exact (H1 eq_refl)|].
  split; [reflexivity | exact (H3 eq_refl)].
Defined.

End PathFacts.

(** ** [runPush]: what a run emits *)

Section EmitsFacts.

Variable Ok : Event → Prop.

Lemma Emits_ret {A} (a : A) : Emits Ok (mret a).
Proof. intros st. exists []. split; [symmetry; apply app_nil_r | constructor]. Qed.

Lemma Emits_throw {A} : Emits Ok (@throw A).
Proof. intros st. exists []. split; [symmetry; apply app_nil_r | constructor]. Qed.

Lemma Emits_getVars : Emits Ok getVars.
Proof. intros st. exists []. split; [symmetry; apply app_nil_r | constructor]. Qed.

Lemma Emits_modifyVars f : (∀ st, trace (f st) = trace st) → Emits Ok (modifyVars f).
Proof.
  intros Hf st. exists []. split; [|constructor].
  simpl. rewrite Hf. symmetry. apply app_nil_r.
Qed.

Lemma Emits_emit e : Ok e → Emits Ok (emit e).
Proof. intros He st. exists [e]. split; [reflexivity | repeat constructor; exact He]. Qed.

Lemma Emits_bind {A B} (m : M A) (f : A → M B) :
  Emits Ok m → (∀ a, Emits Ok (f a)) → Emits Ok (x ← m; f x).
Proof.
  intros Hm Hf st. rewrite bind_run. destruct (Hm st) as (k1 & H1 & Hq1).
  destruct (m st) as [[a|] st1]; simpl in H1.
  - destruct (Hf a st1) as (k2 & H2 & Hq2). exists (k1 ++ k2).
    rewrite H2, H1, app_assoc. split; [reflexivity | apply Forall_app; tauto].
  - exists k1. split; assumption.
Qed.

Lemma Emits_catch {A} (m : M A) (handler : M unit) :
  Emits Ok m → Emits Ok handler → Emits Ok (catch_ m handler).
Proof.
  intros Hm Hh st. unfold catch_. destruct (Hm st) as (k1 & H1 & Hq1).
  destruct (m st) as [[a|] st1]; simpl in H1.
  - exists k1. split; assumption.
  - destruct (Hh st1) as (k2 & H2 & Hq2). exists (k1 ++ k2).
    rewrite H2, H1, app_assoc. split; [reflexivity | apply Forall_app; tauto].
Qed.

Lemma Emits_forEach {A} (l : list A) (callback : A → M unit) :
  (∀ x, Emits Ok (callback x)) → Emits Ok (forEach l callback).
Proof.
  intros Hc. induction l as [|x l IH]; simpl; [apply Emits_ret|].
  apply Emits_bind; [apply Hc | intros _; exact IH].
Qed.

Lemma Emits_promiseReduce {A} (l : list A) (callback : nat → A → M nat) :
  (∀ total x, Emits Ok (callback total x)) → ∀ total, Emits Ok (promiseReduce l callback total).
Proof.
  intros Hc. induction l as [|x l IH]; intros total; simpl; [apply Emits_ret|].
  apply Emits_bind; [apply Hc | intros total'; apply IH].
Qed.

End EmitsFacts.

Lemma Emits_impl (P Q : Event → Prop) {A} (m : M A) :
  (∀ e, P e → Q e) → Emits P m → Emits Q m.
Proof.
  intros HPQ Hm st. destruct (Hm st) as (k & Hk & HP). exists k.
  split; [exact Hk | exact (Forall_impl _ _ _ HP HPQ)].
Qed.

Ltac emits_step :=
  first
    [ apply Emits_ret
    | apply Emits_throw
    | apply Emits_getVars
    | apply Emits_emit; first [exact I | reflexivity | discriminate]
    | apply Emits_modifyVars; intros; reflexivity
    | apply Emits_bind; [|intros ?]
    | apply Emits_catch
    | apply Emits_forEach; intros ?
    | apply Emits_promiseReduce; intros ? ?
    | match goal with
      | |- Emits _ (match ?x with _ => _ end) => destruct x
      end ].

Ltac emits := repeat emits_step.

Section ScriptStageFacts.

Variable W : World.
Variable cfg : Config.

Lemma Emits_isSqlFileSync path : Emits scriptStageEvent (isSqlFileSync W path).
Proof. unfold isSqlFileSync, fs_lstatSync_isFile, log. emits. Qed.

Lemma Emits_tmpStatement stmt : Emits scriptStageEvent (tmpStatement W stmt).
Proof. unfold tmpStatement, connectionTmpDb_query, log. emits. Qed.

Lemma Emits_sourceFile total file : Emits scriptStageEvent (sourceFile W cfg total file).
Proof.
  unfold sourceFile. apply Emits_bind; [apply Emits_isSqlFileSync|]. intros isSql.
  unfold fs_readFileSync, connectionTmpDb_query, log. emits.
Qed.

Lemma Emits_stageReconcileAndLoad files :
  Emits scriptStageEvent (stageReconcileAndLoad W cfg files).
Proof.
  unfold stageReconcileAndLoad. destruct files as [files|]; [|apply Emits_throw].
  destruct (bool_decide (length files = 0%nat)); [apply Emits_throw|].
  apply Emits_bind.
  { apply Emits_forEach. intros file.
    apply Emits_bind; [apply Emits_isSqlFileSync|]. intros isSql. emits. }
  intros _. do 3 (apply Emits_bind; [emits | intros _]).
  apply Emits_bind; [emits | intros st'].
  apply Emits_bind; [unfold log; emits | intros _].
  apply Emits_promiseReduce. intros total file. apply Emits_sourceFile.
Qed.

Lemma Emits_stageAssemble total : Emits scriptStageEvent (stageAssemble W cfg total).
Proof.
  unfold stageAssemble. apply Emits_bind; [emits|]. intros st.
  apply Emits_promiseReduce. intros total' t. unfold assembleTable.
  apply Emits_bind; [emits|]. intros st'.
  unfold log, fs_readFileSync, appendToPushScript, child_process_exec. emits.
Qed.

(** The handlers that lead to the script write no file, never exit, and
    send the live connection nothing but [SHOW TABLES]. *)
Lemma Emits_stagesToScript : Emits scriptStageEvent (stagesToScript W cfg).
Proof.
  unfold stagesToScript.
  apply Emits_bind.
  { unfold stageShowTables, connectionLiveDb_query, log. emits. }
  intros t0. apply Emits_bind; [apply Emits_tmpStatement | intros t1].
  apply Emits_bind.
  { unfold stageCreateDb, log. destruct (negb t1); [apply Emits_throw|].
    apply Emits_bind; [emits | intros _; apply Emits_tmpStatement]. }
  intros t2. apply Emits_bind.
  { unfold stageUseDb, log. destruct (negb t2); [apply Emits_throw|].
    apply Emits_bind; [emits | intros _; apply Emits_tmpStatement]. }
  intros t3. apply Emits_bind.
  { unfold stageReaddir, fs_readdir. destruct (negb t3); emits. }
  intros files. apply Emits_bind; [apply Emits_stageReconcileAndLoad|].
  intros total. apply Emits_stageAssemble.
Qed.

End ScriptStageFacts.

Section RunMore.

Variable W : World.
Variable cfg : Config.

Local Abbreviation dir := (sqlFileDirFullPath cfg).

Lemma snd_finally (m handler : M unit) st :
  snd (finally_ m handler st) = snd (handler (snd (m st))).
Proof.
  unfold finally_. destruct (m st) as [[a|] st1]; [reflexivity|].
  simpl. destruct (handler st1); reflexivity.
Qed.

(** The cleanup handler: nothing but the exit when the scratch database is
    retained, else the drop of the scratch database, logged before and
    after, then the exit. *)
Lemma finallyHandler_events st :
  ∃ o k, finallyHandler W cfg st = (o, addTrace (k ++ [EvExit]) st)
         ∧ Forall scriptStageEvent k
         ∧ (truthy (retainsTmp cfg) = true → k = [])
         ∧ (truthy (retainsTmp cfg) = false →
            ∃ lvl msg, k = [EvLog LvlInfo MsgAboutToDropDb; EvTmpQuery dropDbIfExistsStmt;
                            EvLog lvl msg]).
Proof.
  unfold finallyHandler, process_exit. destruct (truthy (retainsTmp cfg)).
  - exists (Returned tt), []. split; [reflexivity|]. split; [constructor|].
    split; [reflexivity | discriminate].
  - rewrite bind_run, log_run, bind_run, connectionTmpDb_query_run.
    destruct (tmpDbQuery W _ _) as [err|rows];
      rewrite bind_run, log_run;
      change (emit EvExit) with (λ st, (Returned tt, addTrace [EvExit] st)); cbv beta;
      rewrite !addTrace_addTrace.
    + exists (Returned tt),
        [EvLog LvlInfo MsgAboutToDropDb; EvTmpQuery dropDbIfExistsStmt;
         EvLog LvlError (MsgErr err)].
      split; [reflexivity|]. split; [repeat constructor|].
      split; [discriminate | intros _; eexists; eexists; reflexivity].
    + exists (Returned tt),
        [EvLog LvlInfo MsgAboutToDropDb; EvTmpQuery dropDbIfExistsStmt;
         EvLog LvlDebug MsgResultFields].
      split; [reflexivity|]. split; [repeat constructor|].
      split; [discriminate | intros _; eexists; eexists; reflexivity].
Qed.

Lemma finallyHandler_quiet st o k :
  finallyHandler W cfg st = (o, addTrace (k ++ [EvExit]) st) → liveQueriesOf k = [].
Proof.
  intros Hfin. destruct (Quiet_finallyHandler W cfg st) as (k' & Hk' & Hq').
  rewrite Hfin in Hk'. cbn in Hk'. apply app_inv_head in Hk'. subst k'.
  rewrite liveQueriesOf_app in Hq'. apply app_eq_nil in Hq' as [Hq' _]. exact Hq'.
Qed.

Lemma stageShowTables_returns st :
  ∃ b st1, stageShowTables W st = (Returned b, st1).
Proof.
  rewrite stageShowTables_run. destruct (liveDbQuery W _ _); eexists; eexists; reflexivity.
Qed.

(** X9.  A run whose handlers throw before the script is complete: the
    exception is logged and the run goes straight to the cleanup.  No file
    is written and the live connection has received nothing but
    [SHOW TABLES]. *)
Theorem failed_run_changes_nothing dryRunPush st :
  stagesToScript W cfg initialVars = (Thrown, st) →
  runPushFinal W cfg dryRunPush
  = snd (finallyHandler W cfg (addTrace [EvLog LvlError MsgException] st))
  ∧ Forall harmless (trace (runPushFinal W cfg dryRunPush))
  ∧ liveQueriesOf (trace (runPushFinal W cfg dryRunPush)) = [showTablesStmt].
Proof.
  intros Hthrown.
  assert (Hfinal : runPushFinal W cfg dryRunPush
                   = snd (finallyHandler W cfg (addTrace [EvLog LvlError MsgException] st))).
  { unfold runPushFinal, runPush. rewrite snd_finally. unfold catch_.
    rewrite bind_run, Hthrown. reflexivity. }
  split; [exact Hfinal|].
  destruct (Emits_stagesToScript W cfg initialVars) as (k & Hk & Hok).
  rewrite Hthrown in Hk. simpl in Hk.
  destruct (finallyHandler_events (addTrace [EvLog LvlError MsgException] st))
    as (o & k' & Hfin & Hok' & _).
  rewrite Hfinal, Hfin. cbn [snd]. unfold addTrace, set_trace. cbn [trace]. rewrite Hk.
  split.
  - apply Forall_app. split; [apply Forall_app; split|].
    + eapply Forall_impl; [exact Hok|]. intros [] H; exact H || exact I || contradiction.
    + repeat constructor.
    + apply Forall_app. split; [|repeat constructor].
      eapply Forall_impl; [exact Hok'|]. intros [] H; exact H || exact I || contradiction.
  - destruct (stageShowTables_returns initialVars) as (b & st1 & Hshow).
    pose proof (stageShowTables_run W initialVars) as Hrun. rewrite Hshow in Hrun.
    assert (Hq1 : liveQueriesOf (trace st1) = [showTablesStmt]).
    { destruct (liveDbQuery W _ _); injection Hrun as _ ->; reflexivity. }
    destruct (Quiet_afterShowTables W cfg b st1) as (k2 & Hk2 & Hq2).
    unfold stagesToScript in Hthrown. rewrite bind_run, Hshow in Hthrown.
    rewrite Hthrown in Hk2. cbn [snd] in Hk2.
    rewrite <- Hk. rewrite Hk2, !liveQueriesOf_app, Hq1, Hq2.
    rewrite (finallyHandler_quiet _ _ _ Hfin). reflexivity.
Qed.

End RunMore.

Section FatalStages.

Variable W : World.
Variable cfg : Config.

Local Abbreviation dir := (sqlFileDirFullPath cfg).

Lemma tmpStatement_result stmt st :
  tmpStatement W stmt st
  = match tmpDbQuery W (trace st) stmt with
    | QErr err => (Returned false, addTrace [EvTmpQuery stmt; EvLog LvlError (MsgErr err)] st)
    | QOk _ => (Returned true, addTrace [EvTmpQuery stmt; EvLog LvlDebug MsgResultFields] st)
    end.
Proof.
  unfold tmpStatement. rewrite bind_run, connectionTmpDb_query_run.
  destruct (tmpDbQuery W (trace st) stmt);
    rewrite bind_run, log_run, addTrace_addTrace; reflexivity.
Qed.

(** X10.  The three statements that set the scratch database up.  When the
    scratch connection refuses one of them, the error is logged and the
    next handler throws at once: the later statements are not sent, the
    directory is not read. *)
Theorem scratch_setup_failure_is_fatal b st1 :
  stageShowTables W initialVars = (Returned b, st1) →
  (∀ err,
     tmpDbQuery W (trace st1) dropDbIfExistsStmt = QErr err →
     stagesToScript W cfg initialVars
     = (Thrown, addTrace [EvTmpQuery dropDbIfExistsStmt; EvLog LvlError (MsgErr err)] st1))
  ∧ (∀ rows err,
       tmpDbQuery W (trace st1) dropDbIfExistsStmt = QOk rows →
       tmpDbQuery W (trace st1 ++ [EvTmpQuery dropDbIfExistsStmt; EvLog LvlDebug MsgResultFields;
                                   EvLog LvlInfo MsgAboutToCreateDb]) createDbStmt = QErr err →
       stagesToScript W cfg initialVars
       = (Thrown,
          addTrace [EvTmpQuery dropDbIfExistsStmt; EvLog LvlDebug MsgResultFields;
                    EvLog LvlInfo MsgAboutToCreateDb;
                    EvTmpQuery createDbStmt; EvLog LvlError (MsgErr err)] st1))
  ∧ (∀ rows rows' err,
       tmpDbQuery W (trace st1) dropDbIfExistsStmt = QOk rows →
       tmpDbQuery W (trace st1 ++ [EvTmpQuery dropDbIfExistsStmt; EvLog LvlDebug MsgResultFields;
                                   EvLog LvlInfo MsgAboutToCreateDb]) createDbStmt = QOk rows' →
       tmpDbQuery W (trace st1 ++ [EvTmpQuery dropDbIfExistsStmt; EvLog LvlDebug MsgResultFields;
                                   EvLog LvlInfo MsgAboutToCreateDb;
                                   EvTmpQuery createDbStmt; EvLog LvlDebug MsgResultFields;
                                   EvLog LvlInfo MsgAboutToUseDb]) useTmpDbStmt = QErr err →
       stagesToScript W cfg initialVars
       = (Thrown,
          addTrace [EvTmpQuery dropDbIfExistsStmt; EvLog LvlDebug MsgResultFields;
                    EvLog LvlInfo MsgAboutToCreateDb;
                    EvTmpQuery createDbStmt; EvLog LvlDebug MsgResultFields;
                    EvLog LvlInfo MsgAboutToUseDb;
                    EvTmpQuery useTmpDbStmt; EvLog LvlError (MsgErr err)] st1)).
Proof.
  intros Hshow. unfold stagesToScript. rewrite bind_run, Hshow.
  unfold stageDropDb. rewrite bind_run, tmpStatement_result.
  split; [|split].
  - intros err ->. reflexivity.
  - intros rows err -> Hcreate. unfold stageCreateDb. cbn [negb].
    rewrite !bind_run, log_run, tmpStatement_result, !addTrace_addTrace.
    change (trace (addTrace ?k st1)) with (trace st1 ++ k).
    cbn [app]. rewrite Hcreate, bind_run.
    change (stageUseDb W false) with (@throw bool). unfold throw.
    rewrite !addTrace_addTrace. reflexivity.
  - intros rows rows' err -> Hcreate Huse. unfold stageCreateDb, stageUseDb. cbn [negb].
    rewrite !bind_run, log_run, tmpStatement_result, !addTrace_addTrace.
    change (trace (addTrace ?k st1)) with (trace st1 ++ k).
    cbn [app]. rewrite Hcreate. cbn [negb].
    rewrite !bind_run, log_run, tmpStatement_result, !addTrace_addTrace.
    change (trace (addTrace ?k st1)) with (trace st1 ++ k).
    cbn [app]. rewrite Huse, bind_run.
    change (stageReaddir W cfg false) with (@throw (option (list jsstring))). unfold throw.
    rewrite !addTrace_addTrace. reflexivity.
Qed.

Lemma tmpStatement_accepted stmt st :
  tmpAccepts W stmt →
  tmpStatement W stmt st
  = (Returned true, addTrace [EvTmpQuery stmt; EvLog LvlDebug MsgResultFields] st).
Proof.
  intros Hacc. rewrite tmpStatement_result. destruct (Hacc (trace st)) as [rows ->].
  reflexivity.
Qed.

(** The events of a successful setup of the scratch database. *)
Lemma setup_run b st1 :
  stageShowTables W initialVars = (Returned b, st1) →
  tmpAccepts W dropDbIfExistsStmt → tmpAccepts W createDbStmt → tmpAccepts W useTmpDbStmt →
  ∀ (B : Type) (next : bool → M B),
    (trueOrFalse ← stageShowTables W;
     trueOrFalse ← stageDropDb W trueOrFalse;
     trueOrFalse ← stageCreateDb W trueOrFalse;
     trueOrFalse ← stageUseDb W trueOrFalse;
     next trueOrFalse) initialVars
    = next true
        (addTrace [EvTmpQuery dropDbIfExistsStmt; EvLog LvlDebug MsgResultFields;
                   EvLog LvlInfo MsgAboutToCreateDb;
                   EvTmpQuery createDbStmt; EvLog LvlDebug MsgResultFields;
                   EvLog LvlInfo MsgAboutToUseDb;
                   EvTmpQuery useTmpDbStmt; EvLog LvlDebug MsgResultFields] st1).
Proof.
  intros Hshow Hdrop Hcreate Huse B next.
  rewrite bind_run, Hshow. unfold stageDropDb.
  rewrite bind_run, (tmpStatement_accepted _ _ Hdrop).
  unfold stageCreateDb. cbn [negb].
  rewrite !bind_run, log_run, (tmpStatement_accepted _ _ Hcreate).
  unfold stageUseDb. cbn [negb].
  rewrite !bind_run, log_run, (tmpStatement_accepted _ _ Huse), !addTrace_addTrace.
  reflexivity.
Qed.

(** X11.  A directory that cannot be listed, or whose listing is empty: the run
    throws right after the listing, before any entry is examined.  By
    then the scratch database has been dropped and created anew. *)
Theorem unreadable_or_empty_directory_is_fatal b st1 :
  stageShowTables W initialVars = (Returned b, st1) →
  tmpAccepts W dropDbIfExistsStmt → tmpAccepts W createDbStmt → tmpAccepts W useTmpDbStmt →
  fsReaddir W dir = None ∨ fsReaddir W dir = Some [] →
  stagesToScript W cfg initialVars
  = (Thrown,
     addTrace [EvTmpQuery dropDbIfExistsStmt; EvLog LvlDebug MsgResultFields;
               EvLog LvlInfo MsgAboutToCreateDb;
               EvTmpQuery createDbStmt; EvLog LvlDebug MsgResultFields;
               EvLog LvlInfo MsgAboutToUseDb;
               EvTmpQuery useTmpDbStmt; EvLog LvlDebug MsgResultFields;
               EvReaddir dir] st1).
Proof.
  intros Hshow Hdrop Hcreate Huse Hdir. unfold stagesToScript.
  rewrite (setup_run b st1 Hshow Hdrop Hcreate Huse).
  unfold stageReaddir, fs_readdir. cbn [negb].
  rewrite !bind_run. cbn [emit modifyVars mret M_ret].
  change (set_trace (trace (addTrace ?k st1) ++ ?k') (addTrace ?k st1))
    with (addTrace k' (addTrace k st1)).
  rewrite addTrace_addTrace.
  destruct Hdir as [-> | ->]; reflexivity.
Qed.

End FatalStages.

Section LoadAndApplyMore.

Variable W : World.
Variable cfg : Config.

Local Abbreviation dir := (sqlFileDirFullPath cfg).

(** The reduction that loads the files throws at an entry that cannot be
    examined and at a schema file that cannot be read; the schema files
    before it have been sent. *)
Lemma promiseReduce_sourceFile_throws (before : list jsstring) (file : jsstring)
    (after : list jsstring) total st :
  (∀ f, f ∈ before → is_Some (fsLstatIsFile W (dir ++ f))) →
  (∀ f, f ∈ before → isSchemaFile W cfg f = true → is_Some (fsReadFile W (dir ++ f))) →
  fsLstatIsFile W (dir ++ file) = None
  ∨ (isSchemaFile W cfg file = true ∧ fsReadFile W (dir ++ file) = None) →
  ∃ k, promiseReduce (before ++ file :: after) (sourceFile W cfg) total st
       = (Thrown, addTrace k st)
       ∧ tmpQueriesOf k = map (sanitizedFile W cfg) (schemaFiles W cfg before).
Proof.
  revert total st. induction before as [|f before IH]; intros total st Hstat Hread Hbad.
  - cbn [app promiseReduce]. rewrite bind_run. unfold sourceFile. rewrite bind_run.
    destruct Hbad as [Hnone | [Hschema Hnone]].
    + unfold isSqlFileSync, fs_lstatSync_isFile. rewrite !bind_run.
      cbn [emit modifyVars]. rewrite Hnone.
      eexists. split; [reflexivity|]. reflexivity.
    + assert (Hs : is_Some (fsLstatIsFile W (dir ++ file))).
      { unfold isSchemaFile in Hschema. destruct (fsLstatIsFile W (dir ++ file));
          [eexists; reflexivity | discriminate]. }
      destruct (isSqlFileSync_run W cfg file st Hs) as (k0 & Hrun & Hk0).
      rewrite Hrun, Hschema. cbn [negb].
      rewrite bind_run, log_run, bind_run. unfold fs_readFileSync.
      rewrite bind_run. cbn [emit modifyVars]. rewrite Hnone.
      change (set_trace (trace (addTrace ?a (addTrace k0 st)) ++ ?c)
                (addTrace ?a (addTrace k0 st)))
        with (addTrace c (addTrace a (addTrace k0 st))).
      rewrite !addTrace_addTrace. eexists. split; [reflexivity|].
      rewrite !tmpQueriesOf_app, Hk0. reflexivity.
  - destruct (sourceFile_run W cfg total f st) as (k1 & Hrun & Hq1 & _).
    { apply Hstat, elem_of_cons. left. reflexivity. }
    { apply Hread, elem_of_cons. left. reflexivity. }
    destruct (IH (S total) (addTrace k1 st)) as (k2 & Hrun2 & Hq2).
    { intros g Hg. apply Hstat, elem_of_cons. right. exact Hg. }
    { intros g Hg. apply Hread, elem_of_cons. right. exact Hg. }
    { exact Hbad. }
    exists (k1 ++ k2). change ((f :: before) ++ file :: after)
      with (f :: (before ++ file :: after)).
    cbn [promiseReduce]. rewrite bind_run, Hrun, Hrun2, addTrace_addTrace.
    split; [reflexivity|].
    rewrite tmpQueriesOf_app, Hq1, Hq2, schemaFiles_cons.
    destruct (isSchemaFile W cfg f); reflexivity.
Qed.

(** The pass that collects the table names throws at the first entry that
    cannot be examined; nothing has been sent to the scratch database. *)
Lemma forEach_collect_throws (before : list jsstring) (file : jsstring)
    (after : list jsstring) : ∀ st,
  (∀ f, f ∈ before → is_Some (fsLstatIsFile W (dir ++ f))) →
  fsLstatIsFile W (dir ++ file) = None →
  ∃ st' k, forEach (before ++ file :: after) (λ file : jsstring,
             isSql ← isSqlFileSync W (dir ++ file);
             if negb isSql then mret tt
             else modifyVars (λ st,
                    set_versionControlledTableNameList
                      (versionControlledTableNameList st ++ [basename file sqlExtension]) st)) st
           = (Thrown, st')
           ∧ trace st' = trace st ++ k ∧ tmpQueriesOf k = [].
Proof.
  induction before as [|f before IH]; intros st Hstat Hnone.
  - cbn [app forEach]. rewrite !bind_run.
    unfold isSqlFileSync, fs_lstatSync_isFile. rewrite !bind_run.
    cbn [emit modifyVars]. rewrite Hnone.
    eexists. exists [EvLstat (dir ++ file)]. split; [reflexivity|]. split; reflexivity.
  - destruct (isSqlFileSync_run W cfg f st) as (k1 & Hrun & Hq1).
    { apply Hstat, elem_of_cons. left. reflexivity. }
    change ((f :: before) ++ file :: after) with (f :: (before ++ file :: after)).
    cbn [forEach]. rewrite !bind_run, Hrun.
    assert (Hrest : ∀ g, g ∈ before → is_Some (fsLstatIsFile W (dir ++ g))).
    { intros g Hg. apply Hstat, elem_of_cons. right. exact Hg. }
    destruct (isSchemaFile W cfg f); cbn [negb mret M_ret modifyVars].
    + destruct (IH (set_versionControlledTableNameList
                      (versionControlledTableNameList (addTrace k1 st)
                       ++ [basename f sqlExtension]) (addTrace k1 st)) Hrest Hnone)
        as (st' & k2 & Hrun2 & Htr & Hq2).
      rewrite Hrun2. exists st', (k1 ++ k2). split; [reflexivity|].
      split; [|rewrite tmpQueriesOf_app, Hq1, Hq2; reflexivity].
      rewrite Htr. cbn. rewrite <- app_assoc. reflexivity.
    + destruct (IH (addTrace k1 st) Hrest Hnone) as (st' & k2 & Hrun2 & Htr & Hq2).
      rewrite Hrun2. exists st', (k1 ++ k2). split; [reflexivity|].
      split; [|rewrite tmpQueriesOf_app, Hq1, Hq2; reflexivity].
      rewrite Htr. cbn. rewrite <- app_assoc. reflexivity.
Qed.

(** The handler that receives the listing, when an entry cannot be
    examined: it throws in its first pass, before any file is loaded. *)
Lemma stageReconcileAndLoad_unexaminable (before : list jsstring) (file : jsstring)
    (after : list jsstring) st :
  (∀ f, f ∈ before → is_Some (fsLstatIsFile W (dir ++ f))) →
  fsLstatIsFile W (dir ++ file) = None →
  ∃ st' k, stageReconcileAndLoad W cfg (Some (before ++ file :: after)) st = (Thrown, st')
           ∧ trace st' = trace st ++ k ∧ tmpQueriesOf k = [].
Proof.
  intros Hstat Hnone.
  destruct (forEach_collect_throws before file after st Hstat Hnone)
    as (st' & k & Hrun & Htr & Hq).
  exists st', k. split; [|split; assumption].
  unfold stageReconcileAndLoad.
  rewrite bool_decide_eq_false_2 by (rewrite length_app; simpl; lia).
  rewrite bind_run, Hrun. reflexivity.
Qed.

(** The same handler when every entry can be examined and a schema file
    cannot be read: it throws in its second pass, at that file. *)
Lemma stageReconcileAndLoad_unreadable (before : list jsstring) (file : jsstring)
    (after : list jsstring) st :
  (∀ f, f ∈ before ++ file :: after → is_Some (fsLstatIsFile W (dir ++ f))) →
  (∀ f, f ∈ before → isSchemaFile W cfg f = true → is_Some (fsReadFile W (dir ++ f))) →
  isSchemaFile W cfg file = true → fsReadFile W (dir ++ file) = None →
  ∃ st' k, stageReconcileAndLoad W cfg (Some (before ++ file :: after)) st = (Thrown, st')
           ∧ trace st' = trace st ++ k
           ∧ tmpQueriesOf k = map (sanitizedFile W cfg) (schemaFiles W cfg before).
Proof.
  intros Hstat Hread Hschema Hnone.
  destruct (forEach_collect_run W cfg (before ++ file :: after) st Hstat)
    as (k1 & Hrun1 & Hq1).
  unfold stageReconcileAndLoad.
  rewrite bool_decide_eq_false_2 by (rewrite length_app; simpl; lia).
  rewrite bind_run, Hrun1.
  do 3 (rewrite bind_run; cbn [modifyVars]).
  rewrite bind_run. cbn [getVars]. rewrite bind_run, log_run.
  match goal with
  | |- ∃ st' k, promiseReduce _ _ _ ?s0 = _ ∧ _ =>
      destruct (promiseReduce_sourceFile_throws before file after 0%nat s0)
        as (k2 & Hrun2 & Hq2);
      [intros f Hf; apply Hstat, elem_of_app; left; exact Hf
      | exact Hread
      | right; split; assumption
      | rewrite Hrun2; exists (addTrace k2 s0) ]
  end.
  eexists. split; [reflexivity|]. split; [cbn; rewrite <- !app_assoc; reflexivity|].
  rewrite !tmpQueriesOf_app, Hq1, Hq2. reflexivity.
Qed.

Lemma stageShowTables_no_tmp b st1 :
  stageShowTables W initialVars = (Returned b, st1) → tmpQueriesOf (trace st1) = [].
Proof.
  rewrite stageShowTables_run. destruct (liveDbQuery W _ _); intros [= _ <-]; reflexivity.
Qed.

(** X12.  A run in which the scratch database accepts its setup and the
    directory is listed, but an entry cannot be used.  When the first entry
    that cannot be examined is met, the run throws while the table names
    are collected: no schema file has been sent to the scratch database,
    not even those listed before the entry.  When every entry can be
    examined and a schema file cannot be read, the run throws in the
    loading pass at that file: the schema files listed before it have been
    sent, sanitized and in order, the file and those after it are not.
    Either way the handlers throw, unlike after a statement the scratch
    database refuses. *)
Theorem unreadable_file_stops_loading b st1 (before : list jsstring) (file : jsstring)
    (after : list jsstring) :
  stageShowTables W initialVars = (Returned b, st1) →
  tmpAccepts W dropDbIfExistsStmt → tmpAccepts W createDbStmt → tmpAccepts W useTmpDbStmt →
  fsReaddir W dir = Some (before ++ file :: after) →
  (∀ f, f ∈ before → is_Some (fsLstatIsFile W (dir ++ f))) →
  (fsLstatIsFile W (dir ++ file) = None →
   ∃ st, stagesToScript W cfg initialVars = (Thrown, st)
         ∧ tmpQueriesOf (trace st) = [dropDbIfExistsStmt; createDbStmt; useTmpDbStmt])
  ∧ ((∀ f, f ∈ file :: after → is_Some (fsLstatIsFile W (dir ++ f))) →
     (∀ f, f ∈ before → isSchemaFile W cfg f = true → is_Some (fsReadFile W (dir ++ f))) →
     isSchemaFile W cfg file = true → fsReadFile W (dir ++ file) = None →
     ∃ st, stagesToScript W cfg initialVars = (Thrown, st)
           ∧ tmpQueriesOf (trace st)
             = [dropDbIfExistsStmt; createDbStmt; useTmpDbStmt]
               ++ map (sanitizedFile W cfg) (schemaFiles W cfg before)).
Proof.
  intros Hshow Hdrop Hcreate Huse Hdir Hstat.
  pose proof (stageShowTables_no_tmp b st1 Hshow) as Hq0.
  assert (Hlisted : ∀ (B : Type) (next : option (list jsstring) → M B),
            (trueOrFalse ← stageShowTables W;
             trueOrFalse ← stageDropDb W trueOrFalse;
             trueOrFalse ← stageCreateDb W trueOrFalse;
             trueOrFalse ← stageUseDb W trueOrFalse;
             files ← stageReaddir W cfg trueOrFalse;
             next files) initialVars
            = next (Some (before ++ file :: after))
                (addTrace [EvTmpQuery dropDbIfExistsStmt; EvLog LvlDebug MsgResultFields;
                           EvLog LvlInfo MsgAboutToCreateDb;
                           EvTmpQuery createDbStmt; EvLog LvlDebug MsgResultFields;
                           EvLog LvlInfo MsgAboutToUseDb;
                           EvTmpQuery useTmpDbStmt; EvLog LvlDebug MsgResultFields;
                           EvReaddir dir] st1)).
  { intros B next. rewrite (setup_run W b st1 Hshow Hdrop Hcreate Huse).
    unfold stageReaddir, fs_readdir. cbn [negb].
    rewrite !bind_run. cbn [emit modifyVars mret M_ret].
    change (set_trace (trace (addTrace ?k st1) ++ ?k') (addTrace ?k st1))
      with (addTrace k' (addTrace k st1)).
    rewrite addTrace_addTrace, Hdir. reflexivity. }
  split.
  - intros Hnone.
    match type of Hlisted with
    | ∀ B next, _ = next _ ?s => 
        destruct (stageReconcileAndLoad_unexaminable before file after s Hstat Hnone)
          as (st' & k & Hrun & Htr & Hq)
    end.
    exists st'. unfold stagesToScript. rewrite Hlisted, bind_run, Hrun.
    split; [reflexivity|].
    rewrite Htr. cbn [trace addTrace set_trace].
    rewrite !tmpQueriesOf_app, Hq0, Hq. reflexivity.
  - intros Hstat' Hread Hschema Hnone.
    assert (Hall : ∀ f, f ∈ before ++ file :: after → is_Some (fsLstatIsFile W (dir ++ f))).
    { intros f Hf. apply elem_of_app in Hf as [Hf | Hf]; [apply Hstat | apply Hstat']; exact Hf. }
    match type of Hlisted with
    | ∀ B next, _ = next _ ?s => 
        destruct (stageReconcileAndLoad_unreadable before file after s Hall Hread Hschema Hnone)
          as (st' & k & Hrun & Htr & Hq)
    end.
    exists st'. unfold stagesToScript. rewrite Hlisted, bind_run, Hrun.
    split; [reflexivity|].
    rewrite Htr. cbn [trace addTrace set_trace].
    rewrite !tmpQueriesOf_app, Hq0, Hq. reflexivity.
Qed.

(** X13.  Every name of the file-defined list comes from one schema file; when
    the path of the directory ends with a slash and the listing repeats no
    entry, the list repeats no name. *)
Theorem file_table_names_are_unique files :
  (∃ d, dir = d ++ [CHAR_SLASH]) → NoDup files →
  NoDup (map (λ file, basename file sqlExtension) (schemaFiles W cfg files))
  ∧ (∀ t, t ∈ map (λ file, basename file sqlExtension) (schemaFiles W cfg files) →
          t ++ sqlExtension ∈ files ∧ isSchemaFile W cfg (t ++ sqlExtension) = true).
Proof.
  intros [d Hd] Hnd.
  assert (Hext : ∀ f, f ∈ schemaFiles W cfg files →
            f ∈ files ∧ isSchemaFile W cfg f = true ∧ sqlFilenameRegexp_test f = true).
  { intros f Hf. unfold schemaFiles in Hf. apply list_elem_of_filter in Hf as [Hs Hin].
    split; [exact Hin|]. split; [exact Hs|].
    unfold isSchemaFile in Hs. destruct (fsLstatIsFile W (dir ++ f)) as [isFile|]; [|discriminate].
    apply andb_true_iff in Hs as [_ Hs]. rewrite Hd in Hs.
    apply sqlFilenameRegexp_test_suffix, sql_suffix_behind_slash in Hs.
    apply sqlFilenameRegexp_test_suffix, Hs. }
  split.
  - change (map (λ file, basename file sqlExtension) (schemaFiles W cfg files))
      with ((λ file, basename file sqlExtension) <$> schemaFiles W cfg files).
    apply NoDup_fmap_2_strong; [|apply NoDup_filter, Hnd].
    intros f g Hf Hg Heq. apply Hext in Hf as (_ & _ & Hf). apply Hext in Hg as (_ & _ & Hg).
    exact (basename_injective f g Hf Hg Heq).
  - intros t Ht.
    change (map (λ file, basename file sqlExtension) (schemaFiles W cfg files))
      with ((λ file, basename file sqlExtension) <$> schemaFiles W cfg files) in Ht.
    apply list_elem_of_fmap in Ht as (f & -> & Hf). apply Hext in Hf as (Hin & Hs & Hf).
    rewrite (basename_restores f Hf). tauto.
Qed.

End LoadAndApplyMore.

Section ApplyMore.

Variable W : World.
Variable cfg : Config.

Local Abbreviation dir := (sqlFileDirFullPath cfg).

(** What exporting the script adds to the trace; it never throws. *)
Lemma export_run (script : jsstring) st :
  ∃ k,
    (if truthy (pushScriptExportPath cfg)
     then match pushScriptExportPath cfg with
          | VStr path =>
              catch_ (fs_writeFileSync W path script) (log LvlError MsgWriteFailed)
          | _ => log LvlError MsgWriteFailed
          end
     else mret tt) st = (Returned tt, addTrace k st)
    ∧ liveQueriesOf k = []
    ∧ Forall notExit k
    ∧ (∀ path, pushScriptExportPath cfg = VStr path → path ≠ [] →
         k = EvWriteFile path script
             :: (if fsWriteFile W path script then [] else [EvLog LvlError MsgWriteFailed])).
Proof.
  destruct (pushScriptExportPath cfg) as [b| |path] eqn:Epath; cbn [truthy].
  - destruct b.
    + exists [EvLog LvlError MsgWriteFailed]. rewrite log_run.
      split; [reflexivity|]. split; [reflexivity|].
      split; [repeat constructor; discriminate | discriminate].
    + exists []. rewrite addTrace_nil.
      split; [reflexivity|]. split; [reflexivity|]. split; [constructor | discriminate].
  - exists []. rewrite addTrace_nil.
    split; [reflexivity|]. split; [reflexivity|]. split; [constructor | discriminate].
  - destruct (bool_decide (path = [])) eqn:Eempty; cbn [negb].
    + exists []. rewrite addTrace_nil.
      split; [reflexivity|]. split; [reflexivity|]. split; [constructor|].
      intros path' [= <-] Hne. apply bool_decide_eq_true in Eempty. contradiction.
    + unfold catch_. rewrite fs_writeFileSync_run.
      destruct (fsWriteFile W path script) eqn:Ew.
      * exists [EvWriteFile path script].
        split; [reflexivity|]. split; [reflexivity|].
        split; [repeat constructor; discriminate|].
        intros path' [= <-] _. rewrite Ew. reflexivity.
      * exists [EvWriteFile path script; EvLog LvlError MsgWriteFailed].
        rewrite log_run, addTrace_addTrace.
        split; [reflexivity|]. split; [reflexivity|].
        split; [repeat constructor; discriminate|].
        intros path' [= <-] _. rewrite Ew. reflexivity.
Qed.

(** The last handler when the run is not dry. *)
Lemma stageApply_run dryRunPush total st :
  truthy dryRunPush = false →
  ∃ k b k',
    stageApply W cfg dryRunPush total st
    = (Returned b,
       addTrace (EvLog LvlInfo (MsgFinalPushScript (pushScript st)) :: k
                 ++ EvLiveQuery (pushScript st) :: k') st)
    ∧ liveQueriesOf k = [] ∧ liveQueriesOf k' = []
    ∧ Forall notExit k ∧ Forall notExit k'
    ∧ (∀ path, pushScriptExportPath cfg = VStr path → path ≠ [] →
         k = EvWriteFile path (pushScript st)
             :: (if fsWriteFile W path (pushScript st) then []
                 else [EvLog LvlError MsgWriteFailed])).
Proof.
  intros Hdry. unfold stageApply. rewrite Hdry. cbn [negb].
  rewrite bind_run. change (getVars st) with (Returned st, st). cbv iota beta.
  rewrite bind_run, log_run, bind_run.
  destruct (export_run (pushScript st) (addTrace [EvLog LvlInfo (MsgFinalPushScript (pushScript st))] st))
    as (k & Hrun & Hq & Hne & Hpath).
  rewrite Hrun, bind_run, connectionLiveDb_query_run, !addTrace_addTrace.
  destruct (liveDbQuery W _ _) as [err|rows].
  - rewrite bind_run, log_run, addTrace_addTrace.
    exists k, false, [EvLog LvlError (MsgErr err)]. cbn [mret M_ret].
    split; [rewrite <- !app_assoc; reflexivity|].
    split; [exact Hq|]. split; [reflexivity|]. split; [exact Hne|].
    split; [repeat constructor; discriminate | exact Hpath].
  - exists k, true, []. cbn [mret M_ret].
    split; [rewrite <- !app_assoc; reflexivity|].
    split; [exact Hq|]. split; [reflexivity|]. split; [exact Hne|].
    split; [constructor | exact Hpath].
Qed.

Lemma stagesToScript_live_queries o st :
  stagesToScript W cfg initialVars = (o, st) → liveQueriesOf (trace st) = [showTablesStmt].
Proof.
  intros Hrun. destruct (stageShowTables_returns W initialVars) as (b & st1 & Hshow).
  pose proof (stageShowTables_run W initialVars) as Hs. rewrite Hshow in Hs.
  assert (Hq1 : liveQueriesOf (trace st1) = [showTablesStmt]).
  { destruct (liveDbQuery W _ _); injection Hs as _ ->; reflexivity. }
  destruct (Quiet_afterShowTables W cfg b st1) as (k2 & Hk2 & Hq2).
  unfold stagesToScript in Hrun. rewrite bind_run, Hshow in Hrun.
  rewrite Hrun in Hk2. cbn [snd] in Hk2.
  rewrite Hk2, liveQueriesOf_app, Hq1, Hq2. reflexivity.
Qed.

(** X14.  A run that is not dry and reaches the last handler sends the script
    to the live connection once, as one statement, after the export, and
    whether or not the export worked: the live connection receives
    [SHOW TABLES] and the script, nothing else.  With an export path the
    file is written first; a failed write is logged and nothing more. *)
Theorem script_is_applied_once dryRunPush total st :
  truthy dryRunPush = false →
  stagesToScript W cfg initialVars = (Returned total, st) →
  liveQueriesOf (trace (runPushFinal W cfg dryRunPush)) = [showTablesStmt; pushScript st]
  ∧ (∀ path, pushScriptExportPath cfg = VStr path → path ≠ [] →
       ∃ rest,
         trace (runPushFinal W cfg dryRunPush)
         = trace st
           ++ [EvLog LvlInfo (MsgFinalPushScript (pushScript st));
               EvWriteFile path (pushScript st)]
           ++ (if fsWriteFile W path (pushScript st) then []
               else [EvLog LvlError MsgWriteFailed])
           ++ EvLiveQuery (pushScript st) :: rest).
Proof.
  intros Hdry Hscript.
  destruct (stageApply_run dryRunPush total st Hdry)
    as (k & b & k' & Hrun & Hq & Hq' & _ & _ & Hpath).
  assert (Hfinal : ∃ kf, trace (runPushFinal W cfg dryRunPush)
                   = trace st ++ (EvLog LvlInfo (MsgFinalPushScript (pushScript st)) :: k
                                  ++ EvLiveQuery (pushScript st) :: k') ++ kf ++ [EvExit]
                   ∧ liveQueriesOf kf = []).
  { unfold runPushFinal. rewrite (runPush_after_script W cfg dryRunPush _ _ _ Hscript).
    rewrite snd_finally. unfold catch_. rewrite Hrun. cbn [snd].
    match goal with
    | |- context [finallyHandler W cfg ?s] =>
        destruct (finallyHandler_events W cfg s) as (o & kf & Hfin & _)
    end.
    exists kf. rewrite Hfin. cbn [snd].
    split; [unfold addTrace, set_trace; cbn [trace]; rewrite <- !app_assoc; reflexivity|].
    exact (finallyHandler_quiet W cfg _ _ _ Hfin). }
  destruct Hfinal as (kf & Hfinal & Hqf). split.
  - rewrite Hfinal, !liveQueriesOf_app, (stagesToScript_live_queries _ _ Hscript).
    change (liveQueriesOf (EvLog LvlInfo (MsgFinalPushScript (pushScript st))
                           :: k ++ EvLiveQuery (pushScript st) :: k'))
      with (liveQueriesOf (k ++ EvLiveQuery (pushScript st) :: k')).
    rewrite liveQueriesOf_app, Hq.
    change (liveQueriesOf (EvLiveQuery (pushScript st) :: k'))
      with (pushScript st :: liveQueriesOf k').
    rewrite Hq', Hqf. reflexivity.
  - intros path Hp Hne. rewrite (Hpath path Hp Hne) in Hfinal.
    eexists. rewrite Hfinal. cbn [app]. rewrite <- !app_assoc. reflexivity.
Qed.

(** X15.  Every run ends with the exit of the process, and exits once: after a
    complete run, after a refused script, after an exception.  When the
    scratch database is not retained, its drop is the last thing done
    before the exit, whatever happened before. *)
Theorem every_run_ends_with_exit dryRunPush :
  ∃ k, trace (runPushFinal W cfg dryRunPush) = k ++ [EvExit]
       ∧ Forall notExit k
       ∧ (truthy (retainsTmp cfg) = false →
          ∃ k0 lvl msg,
            k = k0 ++ [EvLog LvlInfo MsgAboutToDropDb; EvTmpQuery dropDbIfExistsStmt;
                       EvLog lvl msg]).
Proof.
  unfold runPushFinal, runPush. rewrite snd_finally.
  match goal with
  | |- context [snd (catch_ ?m ?h initialVars)] =>
      assert (Hem : Emits notExit (catch_ m h))
  end.
  { apply Emits_catch; [|unfold catchHandler, log; emits].
    apply Emits_bind.
    - eapply Emits_impl; [|apply Emits_stagesToScript].
      intros [] H; try discriminate. contradiction.
    - intros total. intros st.
      destruct (truthy dryRunPush) eqn:Hdry.
      + unfold stageApply. rewrite Hdry. cbn [negb].
        rewrite bind_run. change (getVars st) with (Returned st, st). cbv iota beta.
        rewrite bind_run, log_run, bind_run.
        match goal with
        | |- context [addTrace ?e st] =>
            destruct (export_run (pushScript st) (addTrace e st)) as (k & Hrun & _ & Hne & _)
        end.
        rewrite Hrun. cbn [mret M_ret snd]. rewrite addTrace_addTrace.
        eexists. split; [reflexivity|].
        constructor; [discriminate | exact Hne].
      + destruct (stageApply_run dryRunPush total st Hdry)
          as (k & b & k' & Hrun & _ & _ & Hne & Hne' & _).
        rewrite Hrun. eexists. split; [reflexivity|].
        constructor; [discriminate|]. apply Forall_app. split; [exact Hne|].
        constructor; [discriminate | exact Hne']. }
  destruct (Hem initialVars) as (k1 & Hk1 & Hne1).
  match goal with
  | |- context [finallyHandler W cfg ?s] =>
      destruct (finallyHandler_events W cfg s) as (o & kf & Hfin & Hokf & _ & Hdrop);
      rewrite Hfin; set (s1 := s) in *
  end.
  exists (trace s1 ++ kf). cbn [snd]. unfold addTrace, set_trace. cbn [trace].
  split; [rewrite app_assoc; reflexivity|]. split.
  - apply Forall_app. split.
    + rewrite Hk1. exact Hne1.
    + eapply Forall_impl; [exact Hokf|]. intros [] H; try discriminate. contradiction.
  - intros Hret. destruct (Hdrop Hret) as (lvl & msg & ->).
    exists (trace s1), lvl, msg. reflexivity.
Qed.

End ApplyMore.

Section WholeRun.

Variable W : World.
Variable cfg : Config.

Local Abbreviation dir := (sqlFileDirFullPath cfg).

(** X16.  A run in which the outside world cooperates up to the script: the
    live connection lists its tables, the scratch database accepts its
    setup, the directory is listed and is not empty, its entries can be
    examined and its schema files read, and the path of the directory ends
    with a slash.  Then, whatever the scratch database answers to the
    schema files, the handlers return with: the file-defined names, one
    per schema file, in listing order; the live names, in the order of the
    rows; the three lists reconciled from them; and a script made of one
    fragment and a line feed per merged name.  The file read for a new
    table is the schema file it was named after. *)
Theorem cooperative_run_script rows files :
  (∃ d, dir = d ++ [CHAR_SLASH]) →
  liveDbQuery W [] showTablesStmt = QOk rows →
  tmpAccepts W dropDbIfExistsStmt → tmpAccepts W createDbStmt → tmpAccepts W useTmpDbStmt →
  fsReaddir W dir = Some files → files ≠ [] →
  (∀ f, f ∈ files → is_Some (fsLstatIsFile W (dir ++ f))) →
  (∀ f, f ∈ files → isSchemaFile W cfg f = true → is_Some (fsReadFile W (dir ++ f))) →
  ∃ st frags,
    stagesToScript W cfg initialVars = (Returned (length (mergedTableNameList st)), st)
    ∧ versionControlledTableNameList st
      = map (λ file, basename file sqlExtension) (schemaFiles W cfg files)
    ∧ livedbTableNameList st = rows
    ∧ Reconciled st
    ∧ Forall2 (Fragment W cfg (versionControlledTableNameList st) rows)
              (mergedTableNameList st) frags
    ∧ pushScript st = concat (map (λ frag, frag ++ [CHAR_LF]) frags).
Proof.
  intros [d Hd] Hshow Hdrop Hcreate Huse Hreaddir Hne Hstat Hread.
  pose proof (stageShowTables_run W initialVars) as Hs.
  change (trace initialVars) with (@nil Event) in Hs. rewrite Hshow in Hs.
  unfold stagesToScript. rewrite (setup_run W true _ Hs Hdrop Hcreate Huse).
  unfold stageReaddir, fs_readdir. cbn [negb].
  rewrite !bind_run. cbn [emit modifyVars mret M_ret]. rewrite Hreaddir.
  match goal with
  | |- ∃ st frags, (_ ?s = _) ∧ _ => set (s3 := s)
  end.
  assert (Hs3 : versionControlledTableNameList s3 = [] ∧ livedbTableNameList s3 = rows
                ∧ pushScript s3 = []) by (repeat split; reflexivity).
  destruct Hs3 as (Hvc3 & Hlive3 & Hps3).
  destruct (stageReconcileAndLoad_run W cfg files s3 Hne Hstat Hread)
    as (st' & k & Hload & _ & _ & _ & _ & Hrec & Hscript & Hlive & Hvc).
  rewrite Hvc3 in Hvc. rewrite Hlive3 in Hlive. rewrite Hps3 in Hscript. cbn [app] in Hvc.
  rewrite bind_run, Hload. unfold stageAssemble. rewrite bind_run. cbn [getVars].
  pose proof Hrec as (Hm & HexVC & HexLive).
  destruct (promiseReduce_assembleTable_run W cfg (mergedTableNameList st') 0%nat st'
              HexVC HexLive) as (frags & k' & Hrun & Hfrags).
  { intros t Ht. rewrite Hm in Ht. apply elem_of_merged in Ht. exact Ht. }
  { intros t Ht _. rewrite Hvc in Ht.
    change (map (λ file, basename file sqlExtension) (schemaFiles W cfg files))
      with ((λ file, basename file sqlExtension) <$> schemaFiles W cfg files) in Ht.
    apply list_elem_of_fmap in Ht as (f & -> & Hf).
    unfold schemaFiles in Hf. apply list_elem_of_filter in Hf as [Hschema Hin].
    assert (Hsuffix : sqlFilenameRegexp_test f = true).
    { unfold isSchemaFile in Hschema.
      destruct (fsLstatIsFile W (dir ++ f)) as [isFile|]; [|discriminate].
      apply andb_true_iff in Hschema as [_ Hschema]. rewrite Hd in Hschema.
      apply sqlFilenameRegexp_test_suffix, sql_suffix_behind_slash in Hschema.
      apply sqlFilenameRegexp_test_suffix, Hschema. }
    rewrite (basename_restores f Hsuffix). apply Hread; assumption. }
  rewrite Hrun.
  exists (set_pushScript
            (pushScript st' ++ concat (map (λ frag, frag ++ [CHAR_LF]) frags))
            (addTrace k' st')), frags.
  split; [reflexivity|].
  cbn [versionControlledTableNameList livedbTableNameList mergedTableNameList pushScript
       exclusiveVersionControlledTableNameList exclusiveLivedbTableNameList
       set_pushScript addTrace set_trace].
  split; [exact Hvc|]. split; [exact Hlive|].
  split; [exact Hrec|]. rewrite Hlive in Hfrags. split; [exact Hfrags|].
  rewrite Hscript. reflexivity.
Qed.

End WholeRun.

(** ** [runPull] *)

Section PullFacts.

Variable PW : PullWorld.
Variable cfg : Config.

Local Abbreviation dir := (sqlFileDirFullPath cfg).
Local Abbreviation W := (pullFs PW).

Lemma pbind_run {A B} (m : P A) (f : A → P B) tr :
  (x ← m; f x) tr
  = match m tr with
    | (Returned a, tr') => f a tr'
    | (Thrown, tr') => (Thrown, tr')
    end.
Proof. reflexivity. Qed.

Lemma unlinkedOf_app k1 k2 : unlinkedOf (k1 ++ k2) = unlinkedOf k1 ++ unlinkedOf k2.
Proof. apply omap_app. Qed.

Lemma dumpsOf_app k1 k2 : dumpsOf (k1 ++ k2) = dumpsOf k1 ++ dumpsOf k2.
Proof. apply omap_app. Qed.

Lemma unlinkedOf_shared k : unlinkedOf (List.map PvShared k) = [].
Proof. induction k as [|e k IH]; [reflexivity | exact IH]. Qed.

Lemma dumpsOf_shared k : dumpsOf (List.map PvShared k) = [].
Proof. induction k as [|e k IH]; [reflexivity | exact IH]. Qed.

Lemma shared_isSqlFileSync_run file tr :
  is_Some (fsLstatIsFile W (dir ++ file)) →
  ∃ k, shared (isSqlFileSync W (dir ++ file)) tr
       = (Returned (isSchemaFile W cfg file), tr ++ List.map PvShared k).
Proof.
  intros Hstat. destruct (isSqlFileSync_run W cfg file initialVars Hstat) as (k & Hrun & _).
  exists k. unfold shared. rewrite Hrun. reflexivity.
Qed.

Lemma shared_isSqlFileSync_throws file tr :
  fsLstatIsFile W (dir ++ file) = None →
  shared (isSqlFileSync W (dir ++ file)) tr
  = (Thrown, tr ++ [PvShared (EvLstat (dir ++ file))]).
Proof.
  intros Hnone. unfold shared, isSqlFileSync, fs_lstatSync_isFile.
  rewrite !bind_run. cbn [emit modifyVars]. rewrite Hnone. reflexivity.
Qed.

(** One entry: a schema file is unlinked, any other entry is left alone;
    the counter goes up in both cases. *)
Lemma unlinkFile_run total file tr :
  is_Some (fsLstatIsFile W (dir ++ file)) →
  (∀ tr', unlinkOk PW tr' (dir ++ file) = true) →
  ∃ k, unlinkFile PW cfg total file tr = (Returned (S total), tr ++ k)
       ∧ unlinkedOf k = (if isSchemaFile W cfg file then [dir ++ file] else [])
       ∧ dumpsOf k = [].
Proof.
  intros Hstat Hunlink. unfold unlinkFile.
  destruct (shared_isSqlFileSync_run file tr Hstat) as (k0 & Hrun).
  rewrite pbind_run, Hrun. destruct (isSchemaFile W cfg file); cbn [negb].
  - rewrite pbind_run. unfold fs_unlinkSync. rewrite Hunlink.
    exists (List.map PvShared k0 ++ [PvUnlink (dir ++ file)]).
    split; [rewrite app_assoc; reflexivity|].
    rewrite unlinkedOf_app, dumpsOf_app, unlinkedOf_shared, dumpsOf_shared.
    split; reflexivity.
  - exists (List.map PvShared k0). split; [reflexivity|].
    rewrite unlinkedOf_shared, dumpsOf_shared. split; reflexivity.
Qed.

Lemma pullReduce_unlinkFile_run files : ∀ total tr,
  (∀ f, f ∈ files → is_Some (fsLstatIsFile W (dir ++ f))) →
  (∀ f tr', f ∈ files → unlinkOk PW tr' (dir ++ f) = true) →
  ∃ k, pullReduce files (unlinkFile PW cfg) total tr
       = (Returned (total + length files)%nat, tr ++ k)
       ∧ unlinkedOf k = List.map (λ f, dir ++ f) (schemaFiles W cfg files)
       ∧ dumpsOf k = [].
Proof.
  induction files as [|f files IH]; intros total tr Hstat Hunlink.
  - exists []. cbn [pullReduce mret P_ret length].
    rewrite app_nil_r, Nat.add_0_r. repeat split.
  - destruct (unlinkFile_run total f tr) as (k1 & Hrun & Hu1 & Hd1).
    { apply Hstat, elem_of_cons. left. reflexivity. }
    { intros tr'. apply Hunlink, elem_of_cons. left. reflexivity. }
    destruct (IH (S total) (tr ++ k1)) as (k2 & Hrun2 & Hu2 & Hd2).
    { intros g Hg. apply Hstat, elem_of_cons. right. exact Hg. }
    { intros g tr' Hg. apply Hunlink, elem_of_cons. right. exact Hg. }
    exists (k1 ++ k2). cbn [pullReduce]. rewrite pbind_run, Hrun, Hrun2.
    split; [rewrite app_assoc; do 2 f_equal; simpl; lia|].
    rewrite unlinkedOf_app, dumpsOf_app, Hu1, Hu2, Hd1, Hd2, schemaFiles_cons.
    destruct (isSchemaFile W cfg f); split; reflexivity.
Qed.

(** The last handler: the count is logged, the dump command is run once;
    when it throws, the exception is what the chain goes on with. *)
Lemma pullDump_run total tr :
  pullDump PW cfg total tr
  = (if execSyncOk PW (tr ++ [PvLog LvlInfo (PMsgJustDeleted total)]) (mysqldumpCmd cfg)
     then Returned tt else Thrown,
     tr ++ [PvLog LvlInfo (PMsgJustDeleted total); PvExecSync (mysqldumpCmd cfg)]
        ++ (if execSyncOk PW (tr ++ [PvLog LvlInfo (PMsgJustDeleted total)]) (mysqldumpCmd cfg)
            then [PvLog LvlInfo (PMsgExecuted (mysqldumpCmd cfg))] else [])).
Proof.
  unfold pullDump, plog, pemit, child_process_execSync. rewrite !pbind_run.
  destruct (execSyncOk PW _ _); cbn; rewrite <- !app_assoc; reflexivity.
Qed.

(** X17.  [runPull] when the directory can be made, listed and examined, and the
    schema files unlinked: the schema files of the listing are unlinked,
    each once, in listing order, and no other entry; then the number of
    entries of the listing is logged as the number of deleted files; then
    the dump command is run, once; then the process exits.  An empty
    listing is no error: nothing is unlinked and the dump is run. *)
Theorem pull_unlinks_schema_files_then_dumps files :
  mkdirpOk PW dir = true →
  fsReaddir W dir = Some files →
  (∀ f, f ∈ files → is_Some (fsLstatIsFile W (dir ++ f))) →
  (∀ f tr, f ∈ files → unlinkOk PW tr (dir ++ f) = true) →
  ∃ k last,
    runPullTrace PW cfg
    = PvMkdirp dir :: PvShared (EvReaddir dir) :: k
      ++ [PvLog LvlInfo (PMsgJustDeleted (length files)); PvExecSync (mysqldumpCmd cfg);
          last; PvExit]
    ∧ unlinkedOf k = List.map (λ f, dir ++ f) (schemaFiles W cfg files)
    ∧ dumpsOf k = []
    ∧ (last = PvLog LvlInfo (PMsgExecuted (mysqldumpCmd cfg))
       ∨ last = PvLog LvlError PMsgException).
Proof.
  intros Hmk Hdir Hstat Hunlink.
  destruct (pullReduce_unlinkFile_run files 0%nat
              [PvMkdirp dir; PvShared (EvReaddir dir)] Hstat Hunlink)
    as (k & Hrun & Hu & Hd).
  exists k. unfold runPullTrace, runPull, pfinally, pcatch.
  rewrite pbind_run. unfold pullMkdirp, mkdirp. rewrite pbind_run. cbn [pemit mret P_ret].
  rewrite Hmk, pbind_run. unfold pullReaddir. cbn [negb].
  unfold shared, fs_readdir. rewrite bind_run. cbn [emit modifyVars mret M_ret].
  rewrite Hdir. cbn [trace set_trace initialVars app List.map].
  rewrite pbind_run. unfold pullUnlink. rewrite Hrun, pullDump_run.
  change (0 + length files)%nat with (length files).
  destruct (execSyncOk PW _ _).
  - exists (PvLog LvlInfo (PMsgExecuted (mysqldumpCmd cfg))).
    split; [cbn; rewrite <- !app_assoc; reflexivity|]. tauto.
  - exists (PvLog LvlError PMsgException).
    split; [cbn; rewrite <- !app_assoc; reflexivity|]. tauto.
Qed.

(** X18.  When the directory cannot be made or cannot be listed, [runPull] logs
    the exception and exits: nothing is unlinked, the dump is not run. *)
Theorem pull_aborts_before_deleting :
  (mkdirpOk PW dir = false →
   runPullTrace PW cfg = [PvMkdirp dir; PvLog LvlError PMsgException; PvExit])
  ∧ (mkdirpOk PW dir = true → fsReaddir W dir = None →
     runPullTrace PW cfg
     = [PvMkdirp dir; PvShared (EvReaddir dir); PvLog LvlError PMsgException; PvExit]).
Proof.
  split.
  - intros Hmk. unfold runPullTrace, runPull, pfinally, pcatch.
    rewrite pbind_run. unfold pullMkdirp, mkdirp. rewrite pbind_run. cbn [pemit mret P_ret].
    rewrite Hmk. reflexivity.
  - intros Hmk Hdir. unfold runPullTrace, runPull, pfinally, pcatch.
    rewrite pbind_run. unfold pullMkdirp, mkdirp. rewrite pbind_run. cbn [pemit mret P_ret].
    rewrite Hmk, pbind_run. unfold pullReaddir. cbn [negb].
    unfold shared, fs_readdir. rewrite bind_run. cbn [emit modifyVars mret M_ret].
    rewrite Hdir. reflexivity.
Qed.

(** X19.  When unlinking a schema file throws, or an entry cannot be examined,
    [runPull] stops there: the schema files listed before it are gone, the
    dump that would write them anew is not run. *)
Theorem pull_failure_leaves_directory_without_dump before file after :
  mkdirpOk PW dir = true →
  fsReaddir W dir = Some (before ++ file :: after) →
  (∀ f, f ∈ before → is_Some (fsLstatIsFile W (dir ++ f))) →
  (∀ f tr, f ∈ before → unlinkOk PW tr (dir ++ f) = true) →
  fsLstatIsFile W (dir ++ file) = None
  ∨ (isSchemaFile W cfg file = true ∧ ∀ tr, unlinkOk PW tr (dir ++ file) = false) →
  ∃ k,
    runPullTrace PW cfg = k ++ [PvLog LvlError PMsgException; PvExit]
    ∧ dumpsOf k = []
    ∧ ∃ attempted,
        unlinkedOf k = List.map (λ f, dir ++ f) (schemaFiles W cfg before) ++ attempted
        ∧ (attempted = [] ∨ attempted = [dir ++ file]).
Proof.
  intros Hmk Hdir Hstat Hunlink Hbad.
  assert (Hloop : ∀ total tr,
    ∃ k, pullReduce (before ++ file :: after) (unlinkFile PW cfg) total tr = (Thrown, tr ++ k)
         ∧ dumpsOf k = []
         ∧ ∃ attempted,
             unlinkedOf k = List.map (λ f, dir ++ f) (schemaFiles W cfg before) ++ attempted
             ∧ (attempted = [] ∨ attempted = [dir ++ file])).
  { clear Hmk Hdir. induction before as [|f before IH]; intros total tr.
    - cbn [app pullReduce]. rewrite pbind_run. unfold unlinkFile. rewrite pbind_run.
      destruct Hbad as [Hnone | [Hschema Hfail]].
      + rewrite (shared_isSqlFileSync_throws _ _ Hnone).
        eexists. split; [reflexivity|]. split; [reflexivity|].
        exists []. split; [reflexivity | tauto].
      + assert (Hs : is_Some (fsLstatIsFile W (dir ++ file))).
        { unfold isSchemaFile in Hschema. destruct (fsLstatIsFile W (dir ++ file));
            [eexists; reflexivity | discriminate]. }
        destruct (shared_isSqlFileSync_run file tr Hs) as (k0 & Hrun).
        rewrite Hrun, Hschema. cbn [negb]. rewrite pbind_run.
        unfold fs_unlinkSync. rewrite Hfail.
        exists (List.map PvShared k0 ++ [PvUnlink (dir ++ file)]).
        split; [rewrite app_assoc; reflexivity|].
        rewrite unlinkedOf_app, dumpsOf_app, unlinkedOf_shared, dumpsOf_shared.
        split; [reflexivity|]. exists [dir ++ file]. split; [reflexivity | tauto].
    - destruct (unlinkFile_run total f tr) as (k1 & Hrun & Hu1 & Hd1).
      { apply Hstat, elem_of_cons. left. reflexivity. }
      { intros tr'. apply Hunlink, elem_of_cons. left. reflexivity. }
      destruct (IH) with (total := S total) (tr := tr ++ k1)
        as (k2 & Hrun2 & Hd2 & attempted & Hu2 & Hatt).
      { intros g Hg. apply Hstat, elem_of_cons. right. exact Hg. }
      { intros g tr' Hg. apply Hunlink, elem_of_cons. right. exact Hg. }
      exists (k1 ++ k2). change ((f :: before) ++ file :: after)
        with (f :: (before ++ file :: after)).
      cbn [pullReduce]. rewrite pbind_run, Hrun, Hrun2.
      split; [rewrite app_assoc; reflexivity|].
      rewrite unlinkedOf_app, dumpsOf_app, Hu1, Hu2, Hd1, Hd2, schemaFiles_cons.
      split; [reflexivity|]. exists attempted. split; [|exact Hatt].
      destruct (isSchemaFile W cfg f); reflexivity. }
  destruct (Hloop 0%nat [PvMkdirp dir; PvShared (EvReaddir dir)])
    as (k & Hrun & Hd & attempted & Hu & Hatt).
  exists ([PvMkdirp dir; PvShared (EvReaddir dir)] ++ k).
  unfold runPullTrace, runPull, pfinally, pcatch.
  rewrite pbind_run. unfold pullMkdirp, mkdirp. rewrite pbind_run. cbn [pemit mret P_ret].
  rewrite Hmk, pbind_run. unfold pullReaddir. cbn [negb].
  unfold shared, fs_readdir. rewrite bind_run. cbn [emit modifyVars mret M_ret].
  rewrite Hdir. cbn [trace set_trace initialVars app List.map].
  rewrite pbind_run. unfold pullUnlink. rewrite Hrun.
  split; [cbn; rewrite <- !app_assoc; reflexivity|].
  split; [exact Hd|]. exists attempted. split; [exact Hu | exact Hatt].
Qed.

End PullFacts.

(** ** The further properties on the scenarios *)

Import Scenarios.

Lemma failed_run_changes_nothing_witness :
  fst (stagesToScript worldEmptyDir config initialVars) = Thrown
  ∧ Forall harmless (trace (runPushFinal worldEmptyDir config (VBool false)))
  ∧ liveQueriesOf (trace (runPushFinal worldEmptyDir config (VBool false))) = [showTablesStmt].
Proof.
  split; [reflexivity|].
  apply (failed_run_changes_nothing worldEmptyDir config (VBool false)
           (snd (stagesToScript worldEmptyDir config initialVars))).
  vm_compute. reflexivity.
Defined.

Lemma scratch_setup_failure_is_fatal_witness :
  liveQueriesOf (trace (snd (stagesToScript worldScratchDown config initialVars)))
  = [showTablesStmt]
  ∧ tmpQueriesOf (trace (snd (stagesToScript worldScratchDown config initialVars)))
    = [dropDbIfExistsStmt]
  ∧ fst (stagesToScript worldScratchDown config initialVars) = Thrown.
Proof.
  destruct (scratch_setup_failure_is_fatal worldScratchDown config true
              (snd (stageShowTables worldScratchDown initialVars)))
    as (Hdrop & _ & _).
  - vm_compute. reflexivity.
  - rewrite (Hdrop connectionRefused); [|reflexivity].
    vm_compute. repeat split.
Defined.

Lemma unreadable_or_empty_directory_is_fatal_witness :
  fsReaddir worldEmptyDir (sqlFileDirFullPath config) = Some []
  ∧ fst (stagesToScript worldEmptyDir config initialVars) = Thrown
  ∧ tmpQueriesOf (trace (snd (stagesToScript worldEmptyDir config initialVars)))
    = [dropDbIfExistsStmt; createDbStmt; useTmpDbStmt].
Proof.
  split; [reflexivity|].
  rewrite (unreadable_or_empty_directory_is_fatal worldEmptyDir config true
             (snd (stageShowTables worldEmptyDir initialVars))).
  - vm_compute. split; reflexivity.
  - vm_compute. reflexivity.
  - intros tr. eexists. reflexivity.
  - intros tr. eexists. reflexivity.
  - intros tr. eexists. reflexivity.
  - right. reflexivity.
Defined.

Lemma unreadable_file_stops_loading_witness :
  (fsLstatIsFile worldUnexaminable (sqlFileDirFullPath config ++ lit "b.sql") = None
   ∧ ∃ st, stagesToScript worldUnexaminable config initialVars = (Thrown, st)
           ∧ tmpQueriesOf (trace st) = [dropDbIfExistsStmt; createDbStmt; useTmpDbStmt])
  ∧ (fsReadFile worldUnreadable (sqlFileDirFullPath config ++ lit "b.sql") = None
     ∧ ∃ st, stagesToScript worldUnreadable config initialVars = (Thrown, st)
             ∧ tmpQueriesOf (trace st)
               = [dropDbIfExistsStmt; createDbStmt; useTmpDbStmt]
                 ++ map (sanitizedFile worldUnreadable config)
                        (schemaFiles worldUnreadable config [lit "a.sql"])).
Proof.
  split; (split; [reflexivity|]).
  - destruct (unreadable_file_stops_loading worldUnexaminable config true
                (snd (stageShowTables worldUnexaminable initialVars))
                [lit "a.sql"] (lit "b.sql") [lit "c.sql"]) as [Hstat _].
    + vm_compute. reflexivity.
    + intros tr. eexists. reflexivity.
    + intros tr. eexists. reflexivity.
    + intros tr. eexists. reflexivity.
    + reflexivity.
    + intros f Hf. apply list_elem_of_singleton in Hf as ->. eexists. reflexivity.
    + apply Hstat. reflexivity.
  - destruct (unreadable_file_stops_loading worldUnreadable config true
                (snd (stageShowTables worldUnreadable initialVars))
                [lit "a.sql"] (lit "b.sql") [lit "c.sql"]) as [_ Hread].
    + vm_compute. reflexivity.
    + intros tr. eexists. reflexivity.
    + intros tr. eexists. reflexivity.
    + intros tr. eexists. reflexivity.
    + reflexivity.
    + intros f _. eexists. reflexivity.
    + apply Hread.
      * intros f _. eexists. reflexivity.
      * intros f Hf _. apply list_elem_of_singleton in Hf as ->. eexists. reflexivity.
      * reflexivity.
      * reflexivity.
Defined.

Lemma file_table_names_are_unique_witness :
  NoDup [lit "a.sql"; lit "b.sql"]
  ∧ NoDup (map (λ file, basename file sqlExtension)
             (schemaFiles worldAB config [lit "a.sql"; lit "b.sql"])).
Proof.
  assert (Hnd : NoDup [lit "a.sql"; lit "b.sql"]) by compute_done.
  split; [exact Hnd|].
  apply (file_table_names_are_unique worldAB config [lit "a.sql"; lit "b.sql"]).
  - exists (lit "/repo"). reflexivity.
  - exact Hnd.
Defined.

Lemma script_is_applied_once_witness :
  truthy (VBool false) = false
  ∧ liveQueriesOf (trace (runPushFinal worldAB config (VBool false)))
    = [showTablesStmt; pushScript (snd (stagesToScript worldAB config initialVars))].
Proof.
  split; [reflexivity|].
  apply (script_is_applied_once worldAB config (VBool false) 3%nat
           (snd (stagesToScript worldAB config initialVars))).
  - reflexivity.
  - vm_compute. reflexivity.
Defined.

Lemma every_run_ends_with_exit_witness :
  truthy (retainsTmp configNoRetain) = false
  ∧ ∃ k0 lvl msg,
      trace (runPushFinal worldAB configNoRetain (VBool false))
      = (k0 ++ [EvLog LvlInfo MsgAboutToDropDb; EvTmpQuery dropDbIfExistsStmt; EvLog lvl msg])
        ++ [EvExit].
Proof.
  split; [reflexivity|].
  destruct (every_run_ends_with_exit worldAB configNoRetain (VBool false))
    as (k & Htrace & _ & Hdrop).
  destruct (Hdrop eq_refl) as (k0 & lvl & msg & ->).
  exists k0, lvl, msg. exact Htrace.
Defined.

Lemma cooperative_run_script_witness :
  fsReaddir worldAB (sqlFileDirFullPath config) = Some [lit "a.sql"; lit "b.sql"]
  ∧ ∃ st frags,
      stagesToScript worldAB config initialVars
      = (Returned (length (mergedTableNameList st)), st)
      ∧ versionControlledTableNameList st
        = map (λ file, basename file sqlExtension)
              (schemaFiles worldAB config [lit "a.sql"; lit "b.sql"])
      ∧ livedbTableNameList st = [lit "b"; lit "c"]
      ∧ Reconciled st
      ∧ Forall2 (Fragment worldAB config (versionControlledTableNameList st) [lit "b"; lit "c"])
          (mergedTableNameList st) frags
      ∧ pushScript st = concat (map (λ frag, frag ++ [CHAR_LF]) frags).
Proof.
  split; [reflexivity|].
  apply (cooperative_run_script worldAB config [lit "b"; lit "c"] [lit "a.sql"; lit "b.sql"]).
  - exists (lit "/repo"). reflexivity.
  - reflexivity.
  - intros tr. eexists. reflexivity.
  - intros tr. eexists. reflexivity.
  - intros tr. eexists. reflexivity.
  - reflexivity.
  - discriminate.
  - intros f _. eexists. reflexivity.
  - intros f _ _. simpl. case_bool_decide; eexists; reflexivity.
Defined.

Lemma pull_unlinks_schema_files_then_dumps_witness :
  mkdirpOk pullWorldAB (sqlFileDirFullPath config) = true
  ∧ unlinkedOf (runPullTrace pullWorldAB config)
    = [lit "/repo/a.sql"; lit "/repo/b.sql"]
  ∧ ∃ k last,
      runPullTrace pullWorldAB config
      = PvMkdirp (sqlFileDirFullPath config)
        :: PvShared (EvReaddir (sqlFileDirFullPath config)) :: k
        ++ [PvLog LvlInfo (PMsgJustDeleted 3); PvExecSync (mysqldumpCmd config);
            last; PvExit].
Proof.
  split; [reflexivity|].
  destruct (pull_unlinks_schema_files_then_dumps pullWorldAB config
              [lit "a.sql"; lit "README.md"; lit "b.sql"])
    as (k & last & Htrace & Hu & Hd & Hlast).
  - reflexivity.
  - reflexivity.
  - intros f _. eexists. reflexivity.
  - intros f tr _. reflexivity.
  - split; [vm_compute; reflexivity|]. exists k, last. exact Htrace.
Defined.

Lemma pull_aborts_before_deleting_witness :
  mkdirpOk pullWorldNoDir (sqlFileDirFullPath config) = false
  ∧ runPullTrace pullWorldNoDir config
    = [PvMkdirp (sqlFileDirFullPath config); PvLog LvlError PMsgException; PvExit].
Proof.
  split; [reflexivity|].
  apply (proj1 (pull_aborts_before_deleting pullWorldNoDir config)). reflexivity.
Defined.

Lemma pull_failure_leaves_directory_without_dump_witness :
  (∀ tr, unlinkOk pullWorldLocked tr (sqlFileDirFullPath config ++ lit "b.sql") = false)
  ∧ ∃ k,
      runPullTrace pullWorldLocked config = k ++ [PvLog LvlError PMsgException; PvExit]
      ∧ dumpsOf k = []
      ∧ ∃ attempted,
          unlinkedOf k
          = List.map (λ f, sqlFileDirFullPath config ++ f)
              (schemaFiles worldABReadme config [lit "a.sql"; lit "README.md"]) ++ attempted
          ∧ (attempted = [] ∨ attempted = [sqlFileDirFullPath config ++ lit "b.sql"]).
Proof.
  split; [intros tr; vm_compute; reflexivity|].
  apply (pull_failure_leaves_directory_without_dump pullWorldLocked config
           [lit "a.sql"; lit "README.md"] (lit "b.sql") []).
  - reflexivity.
  - reflexivity.
  - intros f _. eexists. reflexivity.
  - intros f tr Hf. apply elem_of_cons in Hf as [-> | Hf]; [vm_compute; reflexivity|].
    apply list_elem_of_singleton in Hf as ->. vm_compute. reflexivity.
  - right. split; [vm_compute; reflexivity|]. intros tr. vm_compute. reflexivity.
Defined.
